(** * DICOM Modality Worklist SCP: a shallow embedding of
      [CDICOMWorklistSCP.cpp] / [CDICOMWorklistSCP.h] and the properties of
      its dataset store, persistence operations and status tracker.

    Conventions of the embedding.
    - A C++ [int] is a [Z]; conversions to [int] and [++] are written out
      with their 32-bit wrap-around ([static_cast_int], [int_incr]).
    - [std::unordered_map<int, Item*>] is a [gmap Z Item]; a null [Item*]
      returned by [operator[]] is [None].  Only results of [new Item] are
      ever stored in the map, so stored pointers are never null.
    - [std::set<int>] is a [gset Z]; [*begin()] is its least element.
    - [std::shared_ptr<DcmDataset>] is an [option DcmDataset] ([None] is the
      null pointer).
    - Everything outside the class (file system, clock, the [DcmSCP] base
      class of DCMTK) is the [World]: the functions thread it explicitly.
    - [std::filesystem::remove] and [std::filesystem::create_directories]
      throw [std::filesystem::filesystem_error] when the file system refuses
      the operation.  No function of the class catches it: the function is
      left at the throwing call, the guards alive at that point run their
      destructors, and the exception goes to the caller.  The functions
      that can be left this way say so in their result.
    - The iteration order of an [unordered_map] is unspecified: every loop
      over [indexMap_] takes the order in which the keys are visited as an
      argument. *)

From Stdlib Require Import ZArith String Ascii List Lia.
From stdpp Require Import base gmap sets list strings pretty.

Local Open Scope Z_scope.
Local Open Scope string_scope.

#[local] Set Warnings "-clear-no-such-hyp".

(* ------------------------------------------------------------------------- *)
(** ** Machine integers *)

Definition INT_MAX : Z := 2147483647.

(** [static_cast<int>(x)]: the low 32 bits of [x], read as a signed number. *)
Definition static_cast_int (x : Z) : Z :=
  (x + 2147483648) `mod` 4294967296 - 2147483648.

(** [x++] on an [int]. *)
Definition int_incr (x : Z) : Z := static_cast_int (x + 1).

(* ------------------------------------------------------------------------- *)
(** ** Text: stream output of numbers and times *)

Definition LF : string := String (ascii_of_nat 10) EmptyString.
Definition TAB : string := String (ascii_of_nat 9) EmptyString.

(** [ostream << int]. *)
Definition show_int (x : Z) : string := pretty x.

(** A two-digit, zero-padded field of [std::put_time]. *)
Definition pad2 (x : Z) : string :=
  if bool_decide (0 <= x < 10) then "0" +:+ show_int x else show_int x.

(** [struct tm] as filled in by [std::localtime]. *)
Record tm := mk_tm {
  tm_year : Z;  (* years since 1900 *)
  tm_mon  : Z;  (* 0..11 *)
  tm_mday : Z;
  tm_hour : Z;
  tm_min  : Z;
  tm_sec  : Z
}.

(** One reading of [std::chrono::system_clock::now()]: the local calendar
    time of its [time_t] and the milliseconds since the epoch. *)
Record time_point := mk_time_point {
  tp_local : tm;
  tp_epoch_ms : Z
}.

(** [std::put_time(t, "%H:%M:%S")]. *)
Definition put_time_HMS (t : tm) : string :=
  pad2 (tm_hour t) +:+ ":" +:+ pad2 (tm_min t) +:+ ":" +:+ pad2 (tm_sec t).

(** [std::put_time(t, "%Y%m%d_%H%M%S")]. *)
Definition put_time_Ymd_HMS (t : tm) : string :=
  show_int (1900 + tm_year t) +:+ pad2 (tm_mon t + 1) +:+ pad2 (tm_mday t)
  +:+ "_" +:+ pad2 (tm_hour t) +:+ pad2 (tm_min t) +:+ pad2 (tm_sec t).

(* ------------------------------------------------------------------------- *)
(** ** The world outside the class *)

(** A DICOM data set: its elements as (tag, value) pairs.  The store never
    looks inside. *)
Definition DcmDataset : Type := list (Z * string).

Inductive FsNode :=
  | DicomFile (ds : DcmDataset)   (* a file [DcmDataset::loadFile] can parse *)
  | OtherFile (bytes : string)    (* a regular file that is not DICOM *)
  | Directory.

(** [OFCondition] values the code distinguishes. *)
Inductive OFCondition :=
  | EC_Normal
  | EC_IllegalCall
  | EC_Failure (code : Z).

Definition good (c : OFCondition) : bool :=
  match c with EC_Normal => true | _ => false end.

(** The DIMSE command field: the two values the code names, and the rest. *)
Inductive T_DIMSE_Command :=
  | DIMSE_C_FIND_RQ
  | DIMSE_C_FIND_RSP
  | DIMSE_OTHER (field : Z).

Inductive T_DIMSE_DataSetType := DIMSE_DATASET_PRESENT | DIMSE_DATASET_NULL.

(** [T_DIMSE_C_FindRQ]: the fields the handler reads. *)
Record T_DIMSE_C_FindRQ := mk_CFindRQ {
  rq_MessageID : Z;
  rq_AffectedSOPClassUID : string;
  rq_DataSetType : T_DIMSE_DataSetType
}.

(** [T_DIMSE_C_FindRSP]: the fields the handler writes. *)
Record T_DIMSE_C_FindRSP := mk_CFindRSP {
  rsp_MessageIDBeingRespondedTo : Z;
  rsp_DimseStatus : Z;
  rsp_DataSetType : T_DIMSE_DataSetType;
  rsp_AffectedSOPClassUID : string
}.

Definition STATUS_Success : Z := 0.

(** [T_DIMSE_Message]: the command field together with the member of the
    union [msg] that belongs to it. *)
Inductive T_DIMSE_Message :=
  | Msg_CFindRQ (rq : T_DIMSE_C_FindRQ)
  | Msg_CFindRSP (rsp : T_DIMSE_C_FindRSP)
  | Msg_Other (field : Z).

Definition CommandField (m : T_DIMSE_Message) : T_DIMSE_Command :=
  match m with
  | Msg_CFindRQ _ => DIMSE_C_FIND_RQ
  | Msg_CFindRSP _ => DIMSE_C_FIND_RSP
  | Msg_Other f => DIMSE_OTHER f
  end.

Record DcmPresentationContextInfo := mk_presInfo {
  presentationContextID : Z
}.

(** Calls made into the [DcmSCP] base class, in program order. *)
Inductive NetCall :=
  | setPort (port : Z)
  | setAETitle (title : string)
  | setMaxReceivePDULength (len : Z)
  | setConnectionTimeout (s : Z)
  | setDIMSETimeout (s : Z)
  | setACSETimeout (s : Z)
  | addPresentationContext (abstractSyntax : string) (syntaxes : list string)
  | openListenPort
  | acceptAssociations_detached
  | stopAfterCurrentAssociation
  | sendDIMSEMessage (presID : Z) (rsp : T_DIMSE_Message)
                     (dataObject : option DcmDataset)
  | DcmSCP_handleIncomingCommand (msg : T_DIMSE_Message)
                                 (presInfo : DcmPresentationContextInfo).

Record World := mk_World {
  w_fs : gmap string FsNode;       (* path -> node *)
  w_locked : gset string;          (* paths the file system refuses to
                                      create, write or delete *)
  w_writes : list (string * DcmDataset);
                                   (* every [saveFile] call made, oldest first *)
  w_clock : nat -> time_point;     (* the n-th reading of the system clock *)
  w_ticks : nat;                   (* clock readings taken so far *)
  w_net : list NetCall;            (* base-class calls made, oldest first *)
  w_listen : OFCondition;          (* what [openListenPort] answers *)
  w_send : OFCondition;            (* what [sendDIMSEMessage] answers *)
  w_base : OFCondition             (* what the base handler answers *)
}.

Definition set_fs (f : gmap string FsNode) (w : World) : World :=
  mk_World f (w_locked w) (w_writes w) (w_clock w) (w_ticks w) (w_net w)
           (w_listen w) (w_send w) (w_base w).

Definition log_write (path : string) (ds : DcmDataset) (w : World) : World :=
  mk_World (w_fs w) (w_locked w) (w_writes w ++ [(path, ds)]) (w_clock w)
           (w_ticks w) (w_net w) (w_listen w) (w_send w) (w_base w).

Definition net_call (c : NetCall) (w : World) : World :=
  mk_World (w_fs w) (w_locked w) (w_writes w) (w_clock w) (w_ticks w)
           (w_net w ++ [c]) (w_listen w) (w_send w) (w_base w).

(** [std::chrono::system_clock::now()]. *)
Definition now (w : World) : time_point * World :=
  (w_clock w (w_ticks w),
   mk_World (w_fs w) (w_locked w) (w_writes w) (w_clock w) (S (w_ticks w))
            (w_net w) (w_listen w) (w_send w) (w_base w)).

(** [std::filesystem::exists(path)]. *)
Definition fs_exists (path : string) (w : World) : bool :=
  bool_decide (is_Some (w_fs w !! path)).

(** [std::filesystem::remove(path)]: [true] when a file was deleted,
    [false] when there was none to delete; [None] when the call throws,
    which it does when the file is there and cannot be deleted (nothing has
    changed then). *)
Definition fs_remove (path : string) (w : World) : option (bool * World) :=
  match w_fs w !! path with
  | None => Some (false, w)
  | Some _ =>
      if bool_decide (path ∈ w_locked w) then None
      else Some (true, set_fs (delete path (w_fs w)) w)
  end.

(** [std::filesystem::create_directories(path)]; [None] when the call
    throws: the path names something that is not a directory, or the
    directory is missing and cannot be created. *)
Definition fs_create_directories (path : string) (w : World) : option World :=
  match w_fs w !! path with
  | Some Directory => Some w
  | Some _ => None
  | None =>
      if bool_decide (path ∈ w_locked w) then None
      else Some (set_fs (<[path := Directory]> (w_fs w)) w)
  end.

(** [std::filesystem::directory_iterator(path)] can be constructed: the
    path names a directory (the constructor throws otherwise). *)
Definition fs_is_directory (path : string) (w : World) : bool :=
  match w_fs w !! path with
  | Some Directory => true
  | _ => false
  end.

(** How a function that calls into [std::filesystem] ends: it returns, or
    one of those calls throws and the function is left there; [throws]
    holds the state reached at that point. *)
Inductive ends (A : Type) :=
  | returns (a : A)
  | throws (a : A).
Arguments returns {A} a.
Arguments throws {A} a.

(** The state a function ends in, either way. *)
Definition state_of {A : Type} (e : ends A) : A :=
  match e with returns a => a | throws a => a end.

(** [DcmDataset::loadFile] / [DcmFileFormat::loadFile]: the data set read,
    or [None] when the status is not good. *)
Definition loadFile (path : string) (w : World) : option DcmDataset :=
  match w_fs w !! path with
  | Some (DicomFile ds) => Some ds
  | _ => None
  end.

(** [DcmDataset::saveFile(path, EXS_LittleEndianExplicit)]. *)
Definition saveFile (path : string) (ds : DcmDataset) (w : World)
  : OFCondition * World :=
  let w1 := log_write path ds w in
  if bool_decide (path ∈ w_locked w) then (EC_Failure 1, w1)
  else (EC_Normal, set_fs (<[path := DicomFile ds]> (w_fs w1)) w1).

(* ------------------------------------------------------------------------- *)
(** ** [DICOMWorklistSCP::SCPStatus] *)

Record SCPStatus := mk_SCPStatus {
  isRunning_ : bool;
  requestCount_ : Z;
  statusText_ : string;
  lastErrors_ : string
}.

(** The default arguments of the constructor. *)
Definition SCPStatus_default : SCPStatus := mk_SCPStatus false 0 "Idle" "".

Definition set_statusText (t : string) (s : SCPStatus) : SCPStatus :=
  mk_SCPStatus (isRunning_ s) (requestCount_ s) t (lastErrors_ s).

Definition set_isRunning (b : bool) (s : SCPStatus) : SCPStatus :=
  mk_SCPStatus b (requestCount_ s) (statusText_ s) (lastErrors_ s).

Definition set_requestCount (n : Z) (s : SCPStatus) : SCPStatus :=
  mk_SCPStatus (isRunning_ s) n (statusText_ s) (lastErrors_ s).

Definition set_lastErrors (e : string) (s : SCPStatus) : SCPStatus :=
  mk_SCPStatus (isRunning_ s) (requestCount_ s) (statusText_ s) e.

(** The text [ToString] writes before the error log. *)
Definition status_header (s : SCPStatus) : string :=
  "Running: " +:+ (if isRunning_ s then "true" else "false")
  +:+ LF +:+ " Requests: " +:+ show_int (requestCount_ s)
  +:+ LF +:+ " State: " +:+ statusText_ s
  +:+ LF +:+ " Last Errors: ".

(** [SCPStatus::ToString]: the rendered text and the status afterwards. *)
Definition ToString (s : SCPStatus) : string * SCPStatus :=
  (status_header s
     +:+ (if bool_decide (lastErrors_ s = "") then "None" else lastErrors_ s),
   set_lastErrors "" s).

(** The line [SCPStatus::error] appends for [message] at clock reading [t]. *)
Definition error_line (t : time_point) (message : string) : string :=
  LF +:+ TAB +:+ put_time_HMS (tp_local t) +:+ " Error: " +:+ message.

(** [SCPStatus::error]. *)
Definition error (message : string) (s : SCPStatus) (w : World)
  : SCPStatus * World :=
  let (t, w1) := now w in
  (set_lastErrors (lastErrors_ s +:+ error_line t message) s, w1).

(* ------------------------------------------------------------------------- *)
(** ** [DICOMWorklistSCP::ScopedStatus] *)

(** The guard's own members; [status_] refers to the server's [SCPStatus],
    which the functions below take and return. *)
Record ScopedStatus := mk_ScopedStatus {
  previousStatusText_ : string;
  finalStatusText_ : string
}.

(** The constructor: the guard and the status it leaves. *)
Definition ScopedStatus_ctor (status : SCPStatus)
    (actionName finalStatusText : string) : ScopedStatus * SCPStatus :=
  (mk_ScopedStatus (statusText_ status) finalStatusText,
   set_statusText
     (if bool_decide (actionName = "") then "Processing"
      else "Processing: " +:+ actionName)
     status).

Definition changeStatus (finalStatusText : string) (g : ScopedStatus)
  : ScopedStatus :=
  mk_ScopedStatus (previousStatusText_ g) finalStatusText.

(** The destructor. *)
Definition ScopedStatus_dtor (g : ScopedStatus) (status : SCPStatus)
  : SCPStatus :=
  set_statusText
    (if bool_decide (finalStatusText_ g = "None") then previousStatusText_ g
     else finalStatusText_ g)
    status.

(* ------------------------------------------------------------------------- *)
(** ** [DICOMWorklistSCP::Worklist] *)

Record Item := mk_Item {
  dataset_ : option DcmDataset;
  fileName_ : string;
  dirty_ : bool
}.

Record Worklist := mk_Worklist {
  dataFolder_ : string;
  indexMap_ : gmap Z Item;
  freeIndexes_ : gset Z
}.

(** A default-constructed [Worklist]. *)
Definition Worklist_empty : Worklist := mk_Worklist "./worklist/" ∅ ∅.

Definition set_indexMap (m : gmap Z Item) (wl : Worklist) : Worklist :=
  mk_Worklist (dataFolder_ wl) m (freeIndexes_ wl).

Definition set_freeIndexes (f : gset Z) (wl : Worklist) : Worklist :=
  mk_Worklist (dataFolder_ wl) (indexMap_ wl) f.

Definition set_dirty (b : bool) (it : Item) : Item :=
  mk_Item (dataset_ it) (fileName_ it) b.

(** [*s.begin()] of a [std::set<int>]: the least element, [None] when the
    set is empty. *)
Definition set_begin (s : gset Z) : option Z :=
  match elements s with
  | [] => None
  | x :: l => Some (foldr Z.min x l)
  end.

(** [Worklist::newFileName(prefix)]. *)
Definition newFileName (prefix : string) (w : World) : string * World :=
  let (t, w1) := now w in
  let nowMs := Z.rem (tp_epoch_ms t) 1000 in
  (prefix +:+ "_" +:+ put_time_Ymd_HMS (tp_local t) +:+ "_"
     +:+ show_int nowMs +:+ ".dcm",
   w1).

(** [Worklist::getFreeIndex]. *)
Definition getFreeIndex (wl : Worklist) : Z * Worklist :=
  match set_begin (freeIndexes_ wl) with
  | None => (static_cast_int (Z.of_nat (size (indexMap_ wl))), wl)
  | Some index => (index, set_freeIndexes (freeIndexes_ wl ∖ {[index]}) wl)
  end.

(** [Worklist::operator[]]. *)
Definition Worklist_at (wl : Worklist) (index : Z) : option Item :=
  indexMap_ wl !! index.

(** [Worklist::count]. *)
Definition count (wl : Worklist) : Z :=
  static_cast_int (Z.of_nat (size (indexMap_ wl))).

(** [Worklist::add]. *)
Definition add (dataset : option DcmDataset) (wl : Worklist) (w : World)
  : Z * Worklist * World :=
  let (name, w1) := newFileName "dataset" w in
  let newItem := mk_Item dataset name true in
  let (index, wl1) := getFreeIndex wl in
  (index, set_indexMap (<[index := newItem]> (indexMap_ wl1)) wl1, w1).

(** [Worklist::remove]; [None] when [std::filesystem::remove] throws: the
    function is left before it has changed the store or the world. *)
Definition remove (index : Z) (wl : Worklist) (w : World)
  : option (bool * Worklist * World) :=
  match indexMap_ wl !! index with
  | Some item =>
      let path := dataFolder_ wl +:+ fileName_ item in
      let removal :=
        if fs_exists path w then fs_remove path w else Some (false, w) in
      match removal with
      | Some (_, w1) =>
          Some (true,
                set_freeIndexes ({[index]} ∪ freeIndexes_ wl)
                  (set_indexMap (delete index (indexMap_ wl)) wl),
                w1)
      | None => None
      end
  | None => Some (false, wl, w)
  end.

(** One directory entry as [directory_iterator] yields it. *)
Record directory_entry := mk_entry {
  de_filename : string;
  de_is_regular_file : bool
}.

(** The body of the loop of [Worklist::loadAllDatasets] for one entry. *)
Definition load_entry (entry : directory_entry)
    (acc : Z * Worklist * SCPStatus * World) : Z * Worklist * SCPStatus * World :=
  let '(loadedCount, wl, st, w) := acc in
  if de_is_regular_file entry then
    let path := dataFolder_ wl +:+ de_filename entry in
    let fileName := de_filename entry in
    match loadFile path w with
    | Some dataset =>
        let item := mk_Item (Some dataset) fileName false in
        let (id, wl1) := getFreeIndex wl in
        (int_incr loadedCount,
         set_indexMap (<[id := item]> (indexMap_ wl1)) wl1, st, w)
    | None =>
        let (st1, w1) := error ("[Worklist] Failed to load: " +:+ fileName) st w in
        (loadedCount, wl, st1, w1)
    end
  else acc.

(** [Worklist::loadAllDatasets]; [listing] is what iterating over
    [dataFolder_] yields. *)
Definition loadAllDatasets (listing : list directory_entry)
    (wl : Worklist) (st : SCPStatus) (w : World)
  : bool * Worklist * SCPStatus * World :=
  let '(loadedCount, wl1, st1, w1) :=
    foldl (fun acc entry => load_entry entry acc) (0, wl, st, w) listing in
  (bool_decide (0 < loadedCount), wl1, st1, w1).

(** The body of the loop of [Worklist::clear] for the key [id]; [None]
    when [std::filesystem::remove] throws. *)
Definition clear_entry (wl : Worklist) (id : Z) (acc : SCPStatus * World)
  : option (SCPStatus * World) :=
  let (st, w) := acc in
  match indexMap_ wl !! id with
  | Some item =>
      let path := dataFolder_ wl +:+ fileName_ item in
      if fs_exists path w then
        match fs_remove path w with
        | Some (removed, w1) =>
            if removed then Some (st, w1)
            else Some (error ("Failed to remove file: " +:+ fileName_ item) st w1)
        | None => None
        end
      else Some (st, w)
  | None => Some acc
  end.

(** The loop of [Worklist::clear] over the keys [order]: it runs to the
    end, or it is left at the first removal that throws. *)
Fixpoint clear_loop (wl : Worklist) (order : list Z) (acc : SCPStatus * World)
  : ends (SCPStatus * World) :=
  match order with
  | [] => returns acc
  | id :: rest =>
      match clear_entry wl id acc with
      | Some acc1 => clear_loop wl rest acc1
      | None => throws acc
      end
  end.

(** [Worklist::clear]; [order] is the order in which the loop visits the
    keys of [indexMap_].  When a removal throws, the two containers have
    not been cleared: the map still holds every key, the files of the
    entries visited before are gone, and so are their [Item] objects (the
    map holds dangling pointers under those keys). *)
Definition clear (order : list Z) (wl : Worklist) (st : SCPStatus) (w : World)
  : ends (Worklist * SCPStatus * World) :=
  match clear_loop wl order (st, w) with
  | returns (st1, w1) =>
      returns (set_freeIndexes ∅ (set_indexMap ∅ wl), st1, w1)
  | throws (st1, w1) => throws (wl, st1, w1)
  end.

(** [Worklist::markDatasetDirty]. *)
Definition markDatasetDirty (index : Z) (wl : Worklist) : bool * Worklist :=
  match Worklist_at wl index with
  | None => (false, wl)
  | Some item =>
      (true, set_indexMap (<[index := set_dirty true item]> (indexMap_ wl)) wl)
  end.

(** [Worklist::saveDatasetInFile]. *)
Definition saveDatasetInFile (index : Z) (wl : Worklist) (st : SCPStatus)
    (w : World) : bool * Worklist * SCPStatus * World :=
  match Worklist_at wl index with
  | None => (false, wl, st, w)
  | Some item =>
      match dataset_ item with
      | None => (false, wl, st, w)
      | Some ds =>
          let path := dataFolder_ wl +:+ fileName_ item in
          let (status, w1) := saveFile path ds w in
          if good status then
            (true,
             set_indexMap (<[index := set_dirty false item]> (indexMap_ wl)) wl,
             st, w1)
          else
            let (st1, w2) := error ("Failed to save: " +:+ fileName_ item) st w1 in
            (false, wl, st1, w2)
      end
  end.

(** The body of the loops of [saveAllDatasetsInFile] ([only_dirty = false])
    and [saveDirtyDatasetsInFile] ([only_dirty = true]) for the key [id]:
    the latter adds [!item->dirty_] to the condition of the [continue]. *)
Definition save_entry (only_dirty : bool) (id : Z)
    (acc : bool * Worklist * SCPStatus * World)
  : bool * Worklist * SCPStatus * World :=
  let '(success, wl, st, w) := acc in
  match indexMap_ wl !! id with
  | None => acc
  | Some item =>
      match dataset_ item with
      | None => acc
      | Some ds =>
          if only_dirty && negb (dirty_ item) then acc
          else
            let path := dataFolder_ wl +:+ fileName_ item in
            let (status, w1) := saveFile path ds w in
            if good status then
              (success,
               set_indexMap (<[id := set_dirty false item]> (indexMap_ wl)) wl,
               st, w1)
            else
              let (st1, w2) :=
                error ("Failed to save: " +:+ fileName_ item) st w1 in
              (false, wl, st1, w2)
      end
  end.

(** [Worklist::saveAllDatasetsInFile]. *)
Definition saveAllDatasetsInFile (order : list Z) (wl : Worklist)
    (st : SCPStatus) (w : World) : bool * Worklist * SCPStatus * World :=
  foldl (fun acc id => save_entry false id acc) (true, wl, st, w) order.

(** [Worklist::saveDirtyDatasetsInFile]. *)
Definition saveDirtyDatasetsInFile (order : list Z) (wl : Worklist)
    (st : SCPStatus) (w : World) : bool * Worklist * SCPStatus * World :=
  foldl (fun acc id => save_entry true id acc) (true, wl, st, w) order.

(** An order in which a loop may visit the keys of [m]: each key once. *)
Definition visits (m : gmap Z Item) (order : list Z) : Prop :=
  order ≡ₚ elements (dom m).

(* ------------------------------------------------------------------------- *)
(** ** [DICOMWorklistSCP]: the facade *)

Record DICOMWorklistSCP := mk_SCP {
  templateFile_ : string;
  serverStatus_ : SCPStatus;
  datasets_ : Worklist
}.

Definition set_templateFile (f : string) (s : DICOMWorklistSCP) :=
  mk_SCP f (serverStatus_ s) (datasets_ s).

Definition set_serverStatus (st : SCPStatus) (s : DICOMWorklistSCP) :=
  mk_SCP (templateFile_ s) st (datasets_ s).

Definition set_datasets (wl : Worklist) (s : DICOMWorklistSCP) :=
  mk_SCP (templateFile_ s) (serverStatus_ s) wl.

(** A function body run between the constructor and the destructor of a
    local [ScopedStatus scoped(serverStatus_, actionName, finalStatusText)].
    The body receives the guard (to call [changeStatus] on it) and returns
    it together with its result. *)
Definition with_ScopedStatus {A : Type} (actionName finalStatusText : string)
    (body : ScopedStatus -> DICOMWorklistSCP -> World ->
            A * ScopedStatus * DICOMWorklistSCP * World)
    (s : DICOMWorklistSCP) (w : World) : A * DICOMWorklistSCP * World :=
  let (scoped, st1) :=
    ScopedStatus_ctor (serverStatus_ s) actionName finalStatusText in
  let '(r, scoped1, s1, w1) := body scoped (set_serverStatus st1 s) w in
  (r, set_serverStatus (ScopedStatus_dtor scoped1 (serverStatus_ s1)) s1, w1).

(** How a call of the facade ends: it returns; or it writes through a null
    pointer argument (undefined behaviour; the state reached at that point
    is kept for inspection); or it is left by a
    [std::filesystem::filesystem_error], in which case the state is the one
    the caller finds, after the guard's destructor has run. *)
Inductive outcome (A : Type) :=
  | Returned (r : A) (s : DICOMWorklistSCP) (w : World)
  | NullDereference (s : DICOMWorklistSCP) (w : World)
  | FilesystemError (s : DICOMWorklistSCP) (w : World).
Arguments Returned {A} r s w.
Arguments NullDereference {A} s w.
Arguments FilesystemError {A} s w.

(** [setTemplateFile]. *)
Definition setTemplateFile (fileName : string)
  : DICOMWorklistSCP -> World -> bool * DICOMWorklistSCP * World :=
  with_ScopedStatus "Template file setting" "None" (fun scoped s w =>
    let s1 := set_templateFile fileName s in
    (fs_exists (templateFile_ s1) w, scoped, s1, w)).

(** The data set [addDataset] hands to [Worklist::add]: a fresh one, or a
    copy of the template when one is set and loads. *)
Definition new_dataset (s : DICOMWorklistSCP) (w : World) : DcmDataset :=
  if bool_decide (templateFile_ s = "") then []
  else match loadFile (templateFile_ s) w with
       | Some ds => ds
       | None => []
       end.

(** [addDataset(int* index)]: [index] is [None] for a null pointer and
    [Some v] for a pointer to an [int] holding [v]; the result carries the
    value left in [*index]. *)
Definition addDataset (index : option Z) (s : DICOMWorklistSCP) (w : World)
  : outcome (bool * Z) :=
  let (scoped, st1) :=
    ScopedStatus_ctor (serverStatus_ s) "Adding a dataset" "None" in
  let s1 := set_serverStatus st1 s in
  let newDataset := new_dataset s1 w in
  let '(i, wl1, w1) := add (Some newDataset) (datasets_ s1) w in
  let s2 := set_datasets wl1 s1 in
  match index with
  | None => NullDereference s2 w1
  | Some _ =>
      Returned (true, i)
        (set_serverStatus (ScopedStatus_dtor scoped (serverStatus_ s2)) s2) w1
  end.

(** [deleteDataset]. *)
Definition deleteDataset (index : Z) (s : DICOMWorklistSCP) (w : World)
  : outcome bool :=
  let (scoped, st1) :=
    ScopedStatus_ctor (serverStatus_ s) "Deleting a dataset" "None" in
  let s1 := set_serverStatus st1 s in
  match remove index (datasets_ s1) w with
  | Some (r, wl1, w1) =>
      let s2 := set_datasets wl1 s1 in
      Returned r
        (set_serverStatus (ScopedStatus_dtor scoped (serverStatus_ s2)) s2) w1
  | None =>
      FilesystemError
        (set_serverStatus (ScopedStatus_dtor scoped (serverStatus_ s1)) s1) w
  end.

(** [getDatasetCount(int* count)]; pointer argument as for [addDataset]. *)
Definition getDatasetCount (count_ptr : option Z) (s : DICOMWorklistSCP)
    (w : World) : (bool * option Z) * DICOMWorklistSCP * World :=
  match count_ptr with
  | None => ((false, None), s, w)
  | Some _ =>
      with_ScopedStatus "Getting dataset count" "None" (fun scoped s w =>
        ((true, Some (count (datasets_ s))), scoped, s, w)) s w
  end.

(** [getDataset]. *)
Definition getDataset (index : Z)
  : DICOMWorklistSCP -> World -> option DcmDataset * DICOMWorklistSCP * World :=
  with_ScopedStatus "Getting dataset" "None" (fun scoped s w =>
    let item := Worklist_at (datasets_ s) index in
    (match item with Some it => dataset_ it | None => None end, scoped, s, w)).

(** [clearAllDatasets]. *)
Definition clearAllDatasets (order : list Z) (s : DICOMWorklistSCP) (w : World)
  : outcome bool :=
  let (scoped, st1) :=
    ScopedStatus_ctor (serverStatus_ s) "Clearing the list" "None" in
  let s1 := set_serverStatus st1 s in
  match clear order (datasets_ s1) (serverStatus_ s1) w with
  | returns (wl1, st2, w1) =>
      let s2 := set_serverStatus st2 (set_datasets wl1 s1) in
      Returned true
        (set_serverStatus (ScopedStatus_dtor scoped (serverStatus_ s2)) s2) w1
  | throws (wl1, st2, w1) =>
      let s2 := set_serverStatus st2 (set_datasets wl1 s1) in
      FilesystemError
        (set_serverStatus (ScopedStatus_dtor scoped (serverStatus_ s2)) s2) w1
  end.

Definition UID_LittleEndianImplicitTransferSyntax : string :=
  "1.2.840.10008.1.2".
Definition UID_FINDModalityWorklistInformationModel : string :=
  "1.2.840.10008.5.1.4.31".

(** The configuration calls [start] makes before it opens the port. *)
Definition configure (w : World) : World :=
  foldl (fun w c => net_call c w) w
    [ setPort 104; setAETitle "WORKLIST_SCP"; setMaxReceivePDULength 16384;
      setConnectionTimeout 30; setDIMSETimeout 30; setACSETimeout 30;
      addPresentationContext UID_FINDModalityWorklistInformationModel
        [UID_LittleEndianImplicitTransferSyntax] ].

(** [start]. *)
Definition start
  : DICOMWorklistSCP -> World -> bool * DICOMWorklistSCP * World :=
  with_ScopedStatus "Starting" "None" (fun scoped s w =>
    if isRunning_ (serverStatus_ s) then (true, scoped, s, w)
    else
      let w1 := net_call openListenPort (configure w) in
      let status := w_listen w1 in
      if good status then
        let w2 := net_call acceptAssociations_detached w1 in
        let s1 := set_serverStatus (set_isRunning true (serverStatus_ s)) s in
        (true, changeStatus "Listening" scoped, s1, w2)
      else (false, scoped, s, w1)).

(** [stop]. *)
Definition stop
  : DICOMWorklistSCP -> World -> bool * DICOMWorklistSCP * World :=
  with_ScopedStatus "Stopping" "Idle" (fun scoped s w =>
    if negb (isRunning_ (serverStatus_ s)) then (true, scoped, s, w)
    else
      let w1 := net_call stopAfterCurrentAssociation w in
      (true, scoped,
       set_serverStatus (set_isRunning false (serverStatus_ s)) s, w1)).

(** [getStatus(std::string& status)]: the result carries the text left in
    [status]. *)
Definition getStatus (s : DICOMWorklistSCP) (w : World)
  : (bool * string) * DICOMWorklistSCP * World :=
  let (text, st1) := ToString (serverStatus_ s) in
  ((true, text), set_serverStatus st1 s, w).

(** The facade's [markDatasetDirty]. *)
Definition SCP_markDatasetDirty (index : Z)
  : DICOMWorklistSCP -> World -> bool * DICOMWorklistSCP * World :=
  with_ScopedStatus "Marking dataset as dirty" "None" (fun scoped s w =>
    let (r, wl1) := markDatasetDirty index (datasets_ s) in
    (r, scoped, set_datasets wl1 s, w)).

(** [saveDirtyDatasets]. *)
Definition saveDirtyDatasets (order : list Z)
  : DICOMWorklistSCP -> World -> bool * DICOMWorklistSCP * World :=
  with_ScopedStatus "Saving dirty datasets" "None" (fun scoped s w =>
    let '(r, wl1, st1, w1) :=
      saveDirtyDatasetsInFile order (datasets_ s) (serverStatus_ s) w in
    (r, scoped, set_serverStatus st1 (set_datasets wl1 s), w1)).

(** [saveDataset]. *)
Definition saveDataset (index : Z)
  : DICOMWorklistSCP -> World -> bool * DICOMWorklistSCP * World :=
  with_ScopedStatus "Saving a dataset by index" "None" (fun scoped s w =>
    let '(r, wl1, st1, w1) :=
      saveDatasetInFile index (datasets_ s) (serverStatus_ s) w in
    (r, scoped, set_serverStatus st1 (set_datasets wl1 s), w1)).

(** [saveAllDatasets]. *)
Definition saveAllDatasets (order : list Z)
  : DICOMWorklistSCP -> World -> bool * DICOMWorklistSCP * World :=
  with_ScopedStatus "Saving all datasets" "None" (fun scoped s w =>
    let '(r, wl1, st1, w1) :=
      saveAllDatasetsInFile order (datasets_ s) (serverStatus_ s) w in
    (r, scoped, set_serverStatus st1 (set_datasets wl1 s), w1)).

(** The facade's private [loadAllDatasets]. *)
Definition SCP_loadAllDatasets (listing : list directory_entry)
  : DICOMWorklistSCP -> World -> bool * DICOMWorklistSCP * World :=
  with_ScopedStatus "Loading all datasets from file" "None" (fun scoped s w =>
    let '(r, wl1, st1, w1) :=
      loadAllDatasets listing (datasets_ s) (serverStatus_ s) w in
    (r, scoped, set_serverStatus st1 (set_datasets wl1 s), w1)).

(** The constructor [DICOMWorklistSCP()]; [listing] is what the data folder
    holds when it is read.  The constructor is left by an exception when
    the folder is missing and cannot be created, or when what is found
    under its path is not a directory to iterate over; no object exists
    then (the members as initialised are kept for inspection). *)
Definition SCP_ctor (listing : list directory_entry) (w : World)
  : outcome unit :=
  let s0 := mk_SCP "" SCPStatus_default Worklist_empty in
  let folder := dataFolder_ (datasets_ s0) in
  let created :=
    if negb (fs_exists folder w) then fs_create_directories folder w
    else Some w in
  match created with
  | None => FilesystemError s0 w
  | Some w1 =>
      if fs_is_directory folder w1 then
        let '(_, s1, w2) := SCP_loadAllDatasets listing s0 w1 in
        Returned tt s1 w2
      else FilesystemError s0 w1
  end.

(** [handleIncomingCommand]; [incomingMsg] is [None] for a null pointer. *)
Definition handleIncomingCommand (incomingMsg : option T_DIMSE_Message)
    (presInfo : DcmPresentationContextInfo) (s : DICOMWorklistSCP) (w : World)
  : OFCondition * DICOMWorklistSCP * World :=
  let st := serverStatus_ s in
  let s1 := set_serverStatus (set_requestCount (int_incr (requestCount_ st)) st) s in
  match incomingMsg with
  | None => (EC_IllegalCall, s1, w)
  | Some (Msg_CFindRQ request) =>
      let response :=
        Msg_CFindRSP
          (mk_CFindRSP (rq_MessageID request) STATUS_Success DIMSE_DATASET_NULL
                       (rq_AffectedSOPClassUID request)) in
      let w1 :=
        net_call (sendDIMSEMessage (presentationContextID presInfo)
                                   response None) w in
      (w_send w1, s1, w1)
  | Some msg =>
      let w1 := net_call (DcmSCP_handleIncomingCommand msg presInfo) w in
      (w_base w1, s1, w1)
  end.

(** One call of a public member function of the facade, with its arguments
    ([call_loadAllDatasets] is the private member the constructor calls). *)
Inductive FacadeCall :=
  | call_setTemplateFile (fileName : string)
  | call_addDataset (index : option Z)
  | call_deleteDataset (index : Z)
  | call_getDatasetCount (count_ptr : option Z)
  | call_getDataset (index : Z)
  | call_clearAllDatasets (order : list Z)
  | call_start
  | call_stop
  | call_getStatus
  | call_markDatasetDirty (index : Z)
  | call_saveDirtyDatasets (order : list Z)
  | call_saveDataset (index : Z)
  | call_saveAllDatasets (order : list Z)
  | call_loadAllDatasets (listing : list directory_entry).

(** What a facade call hands back: its return value and, where it has
    them, the values left in its output arguments. *)
Inductive FacadeResult :=
  | res_bool (b : bool)
  | res_index (b : bool) (index : Z)
  | res_count (b : bool) (count : option Z)
  | res_dataset (ds : option DcmDataset)
  | res_status (b : bool) (text : string).

Definition returned_bool (r : bool * DICOMWorklistSCP * World)
  : outcome FacadeResult :=
  let '(b, s, w) := r in Returned (res_bool b) s w.

Definition ended_bool (o : outcome bool) : outcome FacadeResult :=
  match o with
  | Returned b s w => Returned (res_bool b) s w
  | NullDereference s w => NullDereference s w
  | FilesystemError s w => FilesystemError s w
  end.

(** The facade as one function of the call. *)
Definition facade (c : FacadeCall) (s : DICOMWorklistSCP) (w : World)
  : outcome FacadeResult :=
  match c with
  | call_setTemplateFile f => returned_bool (setTemplateFile f s w)
  | call_addDataset index =>
      match addDataset index s w with
      | Returned (b, i) s1 w1 => Returned (res_index b i) s1 w1
      | NullDereference s1 w1 => NullDereference s1 w1
      | FilesystemError s1 w1 => FilesystemError s1 w1
      end
  | call_deleteDataset i => ended_bool (deleteDataset i s w)
  | call_getDatasetCount p =>
      let '((b, n), s1, w1) := getDatasetCount p s w in
      Returned (res_count b n) s1 w1
  | call_getDataset i =>
      let '(ds, s1, w1) := getDataset i s w in Returned (res_dataset ds) s1 w1
  | call_clearAllDatasets order => ended_bool (clearAllDatasets order s w)
  | call_start => returned_bool (start s w)
  | call_stop => returned_bool (stop s w)
  | call_getStatus =>
      let '((b, text), s1, w1) := getStatus s w in
      Returned (res_status b text) s1 w1
  | call_markDatasetDirty i => returned_bool (SCP_markDatasetDirty i s w)
  | call_saveDirtyDatasets order => returned_bool (saveDirtyDatasets order s w)
  | call_saveDataset i => returned_bool (saveDataset i s w)
  | call_saveAllDatasets order => returned_bool (saveAllDatasets order s w)
  | call_loadAllDatasets listing => returned_bool (SCP_loadAllDatasets listing s w)
  end.

(** The server state a call ends in, however it ends. *)
Definition state_after {A : Type} (o : outcome A) : DICOMWorklistSCP :=
  match o with
  | Returned _ s _ => s
  | NullDereference s _ => s
  | FilesystemError s _ => s
  end.

(** The world a call ends in, however it ends. *)
Definition world_after {A : Type} (o : outcome A) : World :=
  match o with
  | Returned _ _ w => w
  | NullDereference _ w => w
  | FilesystemError _ w => w
  end.

(** The states a server object can be in: it is constructed, then facade
    calls and query callbacks run one at a time (the mutex), and between
    them the world may change in any way.  A call that is left by an
    exception adds no state: [deleteDataset] leaves the server and the
    world as they were, and so does [clearAllDatasets] when the first
    removal throws; when a later one does, the map holds dangling pointers
    and the object cannot be used any more. *)
Inductive reachable : DICOMWorklistSCP -> World -> Prop :=
  | reach_ctor listing w s w' :
      SCP_ctor listing w = Returned tt s w' -> reachable s w'
  | reach_call c s w r s' w' :
      reachable s w -> facade c s w = Returned r s' w' -> reachable s' w'
  | reach_query msg presInfo s w :
      reachable s w ->
      reachable (handleIncomingCommand msg presInfo s w).1.2
                (handleIncomingCommand msg presInfo s w).2
  | reach_world s w w' :
      reachable s w -> reachable s w'.

(* ------------------------------------------------------------------------- *)
(** ** Sequences of [Worklist] operations *)

Inductive WorklistOp :=
  | op_add (dataset : option DcmDataset)
  | op_remove (index : Z)
  | op_loadAllDatasets (listing : list directory_entry)
  | op_clear (order : list Z)
  | op_markDatasetDirty (index : Z)
  | op_saveDatasetInFile (index : Z)
  | op_saveAllDatasetsInFile (order : list Z)
  | op_saveDirtyDatasetsInFile (order : list Z).

Definition Config : Type := Worklist * SCPStatus * World.

Definition step (op : WorklistOp) (c : Config) : ends Config :=
  let '(wl, st, w) := c in
  match op with
  | op_add dataset =>
      let '(_, wl1, w1) := add dataset wl w in returns (wl1, st, w1)
  | op_remove index =>
      match remove index wl w with
      | Some (_, wl1, w1) => returns (wl1, st, w1)
      | None => throws (wl, st, w)
      end
  | op_loadAllDatasets listing =>
      let '(_, wl1, st1, w1) := loadAllDatasets listing wl st w in
      returns (wl1, st1, w1)
  | op_clear order => clear order wl st w
  | op_markDatasetDirty index => returns ((markDatasetDirty index wl).2, st, w)
  | op_saveDatasetInFile index =>
      let '(_, wl1, st1, w1) := saveDatasetInFile index wl st w in
      returns (wl1, st1, w1)
  | op_saveAllDatasetsInFile order =>
      let '(_, wl1, st1, w1) := saveAllDatasetsInFile order wl st w in
      returns (wl1, st1, w1)
  | op_saveDirtyDatasetsInFile order =>
      let '(_, wl1, st1, w1) := saveDirtyDatasetsInFile order wl st w in
      returns (wl1, st1, w1)
  end.

(** The operations carried out one after the other, up to the first one
    that throws: the configuration at the end, or at the throw. *)
Fixpoint run (ops : list WorklistOp) (c : Config) : Config :=
  match ops with
  | [] => c
  | op :: ops' =>
      match step op c with
      | returns c1 => run ops' c1
      | throws c1 => c1
      end
  end.

(** The number of entries an operation can create. *)
Definition creations (op : WorklistOp) : nat :=
  match op with
  | op_add _ => 1
  | op_loadAllDatasets listing => length listing
  | _ => 0
  end.

(** The sequence creates no more entries than an [int] can count. *)
Definition within_int_range (ops : list WorklistOp) : Prop :=
  Z.of_nat (sum_list (creations <$> ops)) <= INT_MAX.

(** The indices of the live entries, one per entry. *)
Definition live_indices (wl : Worklist) : list Z :=
  (map_to_list (indexMap_ wl)).*1.

(** The set of the indices [0 .. n-1]. *)
Definition below (n : nat) : gset Z := list_to_set (Z.of_nat <$> seq 0 n).

(* ------------------------------------------------------------------------- *)
(** ** Vocabulary of the properties *)

(** *** The guard and the facade *)

(** The guard after the body has called [changeStatus] with each text of
    [changes] in turn. *)
Definition after_changes (changes : list string) (g : ScopedStatus)
  : ScopedStatus :=
  foldl (fun g f => changeStatus f g) g changes.

(** *** Example worlds and servers *)

(** 2025-01-05 09:03:07 local time, 5 ms into the second. *)
Definition example_time : time_point :=
  mk_time_point (mk_tm 125 0 5 9 3 7) 1736067787005.

(** A world with an empty disk on which every external call succeeds and
    every clock reading falls in the same millisecond. *)
Definition example_world : World :=
  mk_World ∅ ∅ [] (fun _ => example_time) 0 [] EC_Normal EC_Normal EC_Normal.

Definition idle_server : DICOMWorklistSCP :=
  state_after (SCP_ctor [] example_world).

Definition idle_world : World := world_after (SCP_ctor [] example_world).

Definition running_server : DICOMWorklistSCP := (start idle_server idle_world).1.2.

Definition running_world : World := (start idle_server idle_world).2.

(** *** Callbacks, pointers and the status across calls *)

(** The response [handleIncomingCommand] builds for a C-FIND request. *)
Definition find_response (request : T_DIMSE_C_FindRQ) : T_DIMSE_Message :=
  Msg_CFindRSP
    (mk_CFindRSP (rq_MessageID request) STATUS_Success DIMSE_DATASET_NULL
                 (rq_AffectedSOPClassUID request)).

(** The server in which [addDataset] writes through its argument: the guard
    is still alive (the status text is the "Processing" one) and the new
    entry is already in the store. *)
Definition addDataset_before_write (s : DICOMWorklistSCP) (w : World)
  : DICOMWorklistSCP * World :=
  let s1 := set_serverStatus
              (set_statusText "Processing: Adding a dataset" (serverStatus_ s)) s in
  let '(_, wl1, w1) := add (Some (new_dataset s1 w)) (datasets_ s1) w in
  (set_datasets wl1 s1, w1).

(** What is kept of the status while a [Worklist] member runs. *)
Definition status_kept (st st' : SCPStatus) : Prop :=
  isRunning_ st' = isRunning_ st
  /\ requestCount_ st' = requestCount_ st
  /\ statusText_ st' = statusText_ st.

(** *** Indices *)

(** The free list and the keys of the map have no index in common. *)
Definition disjoint_indices (wl : Worklist) : Prop :=
  forall i, i ∈ freeIndexes_ wl -> i ∉ dom (indexMap_ wl).

(** The indices in use and the free ones are together [0 .. m-1] for some
    [m] no larger than [c], the number of entries created so far. *)
Definition index_inv (c : nat) (wl : Worklist) : Prop :=
  exists m : nat,
    (m <= c)%nat
    /\ dom (indexMap_ wl) ∪ freeIndexes_ wl = below m
    /\ disjoint_indices wl.

(** Storing an entry under the index [getFreeIndex] hands out, as
    [Worklist::add] and [Worklist::loadAllDatasets] do. *)
Definition store_new (item : Item) (wl : Worklist) : Z * Worklist :=
  let (index, wl1) := getFreeIndex wl in
  (index, set_indexMap (<[index := item]> (indexMap_ wl1)) wl1).

(** Two stores with the same keys and the same free list. *)
Definition same_indices (wl wl' : Worklist) : Prop :=
  dom (indexMap_ wl') = dom (indexMap_ wl)
  /\ freeIndexes_ wl' = freeIndexes_ wl.

(** *** Files and saving *)

(** The path of the file that backs an entry. *)
Definition backing_path (wl : Worklist) (item : Item) : string :=
  dataFolder_ wl +:+ fileName_ item.

(** [saveFile] was called on [path] with [ds] between the worlds [w] and
    [w']. *)
Definition written_between (w w' : World) (path : string) (ds : DcmDataset)
  : Prop :=
  exists calls, w_writes w' = (w_writes w ++ calls)%list /\ (path, ds) ∈ calls.

(** What a saving loop never changes, and that it only adds to the log of
    [saveFile] calls. *)
Definition save_frame (a b : bool * Worklist * SCPStatus * World) : Prop :=
  dataFolder_ b.1.1.2 = dataFolder_ a.1.1.2
  /\ w_locked b.2 = w_locked a.2
  /\ exists calls, w_writes b.2 = (w_writes a.2 ++ calls)%list.

(** The status the body of a guarded facade call runs with. *)
Definition inside (actionName : string) (s : DICOMWorklistSCP) : SCPStatus :=
  set_statusText ("Processing: " +:+ actionName) (serverStatus_ s).

(** The server a guarded call that registered no final text returns:
    the store and status its body left, with the status text of entry. *)
Definition leave (s : DICOMWorklistSCP) (st1 : SCPStatus) (wl1 : Worklist)
  : DICOMWorklistSCP :=
  mk_SCP (templateFile_ s) (set_statusText (statusText_ (serverStatus_ s)) st1) wl1.

(** The [Worklist] operation a facade call carries out, if any. *)
Definition worklist_op (c : FacadeCall) (s : DICOMWorklistSCP) (w : World)
  : option WorklistOp :=
  match c with
  | call_addDataset _ => Some (op_add (Some (new_dataset s w)))
  | call_deleteDataset i => Some (op_remove i)
  | call_clearAllDatasets order => Some (op_clear order)
  | call_markDatasetDirty i => Some (op_markDatasetDirty i)
  | call_saveDirtyDatasets order => Some (op_saveDirtyDatasetsInFile order)
  | call_saveDataset i => Some (op_saveDatasetInFile i)
  | call_saveAllDatasets order => Some (op_saveAllDatasetsInFile order)
  | call_loadAllDatasets listing => Some (op_loadAllDatasets listing)
  | _ => None
  end.

(** Every entry holds a data set (no null [dataset_] pointer). *)
Definition datasets_present (wl : Worklist) : Prop :=
  forall i item, indexMap_ wl !! i = Some item -> is_Some (dataset_ item).

(** The data folder is a directory, or is missing and can be created: the
    condition under which the constructor returns. *)
Definition folder_usable (w : World) : bool :=
  match w_fs w !! "./worklist/" with
  | Some Directory => true
  | Some _ => false
  | None => bool_decide ("./worklist/" ∉ w_locked w)
  end.

(** The world in which the constructor reads the data folder: the folder
    has been created when it was missing. *)
Definition with_folder (w : World) : World :=
  match w_fs w !! "./worklist/" with
  | Some _ => w
  | None => set_fs (<["./worklist/" := Directory]> (w_fs w)) w
  end.

(** The entry the server holds under the index [i]. *)
Definition entry (s : DICOMWorklistSCP) (i : Z) : option Item :=
  indexMap_ (datasets_ s) !! i.

(** A server holding one entry, added to the freshly constructed one. *)
Definition one_entry_server : DICOMWorklistSCP :=
  state_after (facade (call_addDataset (Some 0)) idle_server idle_world).

(** No dirty entry with a data set is backed by the file [path]. *)
Definition no_dirty_entry_at (path : string) (wl : Worklist) : Prop :=
  forall i item,
    indexMap_ wl !! i = Some item -> dirty_ item = true ->
    is_Some (dataset_ item) -> backing_path wl item <> path.

(** A world whose only file is a template with one element. *)
Definition template_world : World :=
  mk_World {[ "template.dcm" := DicomFile [(1048592, "DOE^JOHN")] ]} ∅ []
           (fun _ => example_time) 0 [] EC_Normal EC_Normal EC_Normal.

(** Two entries are added while the clock stays within one millisecond,
    the second after the template has been set; the first is then saved. *)
Definition same_millisecond_run : DICOMWorklistSCP * World :=
  let s0 := state_after (SCP_ctor [] template_world) in
  let w0 := world_after (SCP_ctor [] template_world) in
  let o1 := addDataset (Some 0) s0 w0 in
  let '(_, s2, w2) :=
    setTemplateFile "template.dcm" (state_after o1) (world_after o1) in
  let o3 := addDataset (Some 0) s2 w2 in
  let '(_, s4, w4) := saveDataset 0 (state_after o3) (world_after o3) in
  (s4, w4).

Definition shared_name : string := "dataset_20250105_090307_5.dcm".

(* ------------------------------------------------------------------------- *)
(** ** Vocabulary of the further properties *)

(** *** Serving calls and callbacks *)

(** What reaches a server object: a facade call, or the query callback
    invoked by the network layer. *)
Inductive Event :=
  | ev_call (c : FacadeCall)
  | ev_query (msg : option T_DIMSE_Message) (presInfo : DcmPresentationContextInfo).

(** The events handled one after the other; [None] when a call does not
    return (it writes through a null pointer, or is left by an
    exception). *)
Fixpoint serve (evs : list Event) (s : DICOMWorklistSCP) (w : World)
  : option (DICOMWorklistSCP * World) :=
  match evs with
  | [] => Some (s, w)
  | ev_call c :: evs' =>
      match facade c s w with
      | Returned _ s' w' => serve evs' s' w'
      | _ => None
      end
  | ev_query msg presInfo :: evs' =>
      let '(_, s', w') := handleIncomingCommand msg presInfo s w in
      serve evs' s' w'
  end.

Definition is_query (ev : Event) : bool :=
  match ev with ev_query _ _ => true | ev_call _ => false end.

(** The number of query callbacks among the events. *)
Definition queries (evs : list Event) : nat := length (filter is_query evs).

(** The calls [start] makes before it opens the port, in order. *)
Definition configuration_calls : list NetCall :=
  [ setPort 104; setAETitle "WORKLIST_SCP"; setMaxReceivePDULength 16384;
    setConnectionTimeout 30; setDIMSETimeout 30; setACSETimeout 30;
    addPresentationContext UID_FINDModalityWorklistInformationModel
      [UID_LittleEndianImplicitTransferSyntax] ].

(** *** The store over time *)

(** The number of entries in a configuration. *)
Definition live_count (c : Config) : nat := size (indexMap_ c.1.1).

(** The largest number of entries held at once, before, between and after
    the operations of a sequence. *)
Fixpoint high_water (ops : list WorklistOp) (c : Config) : nat :=
  match ops with
  | [] => live_count c
  | op :: ops' =>
      match step op c with
      | returns c1 => live_count c `max` high_water ops' c1
      | throws c1 => live_count c `max` live_count c1
      end
  end.

(** *** Loading and saving *)

(** The entry [loadAllDatasets] makes of a directory entry, if it makes
    one: the file is regular and parses. *)
Definition loaded_item (wl : Worklist) (w : World) (e : directory_entry)
  : option Item :=
  if de_is_regular_file e then
    match loadFile (dataFolder_ wl +:+ de_filename e) w with
    | Some ds => Some (mk_Item (Some ds) (de_filename e) false)
    | None => None
    end
  else None.

(** The [saveFile] call a saving loop makes for the key [id], if it makes
    one. *)
Definition save_call (only_dirty : bool) (wl : Worklist) (id : Z)
  : option (string * DcmDataset) :=
  match indexMap_ wl !! id with
  | Some item =>
      match dataset_ item with
      | Some ds =>
          if only_dirty && negb (dirty_ item) then None
          else Some (backing_path wl item, ds)
      | None => None
      end
  | None => None
  end.

(** The server is between calls: stopped with the text "Idle", or running
    with the text "Listening". *)
Definition settled (st : SCPStatus) : Prop :=
  (isRunning_ st = false /\ statusText_ st = "Idle")
  \/ (isRunning_ st = true /\ statusText_ st = "Listening").

(** A data folder with a DICOM file, a text file and a subdirectory, and
    its listing. *)
Definition folder_world : World :=
  mk_World
    {[ "./worklist/" := Directory;
       "./worklist/notes.txt" := OtherFile "to do";
       "./worklist/a.dcm" := DicomFile [(1048592, "DOE^JOHN")];
       "./worklist/old" := Directory ]}
    ∅ [] (fun _ => example_time) 0 [] EC_Normal EC_Normal EC_Normal.

Definition folder_listing : list directory_entry :=
  [ mk_entry "notes.txt" true; mk_entry "old" false; mk_entry "a.dcm" true ].

(** What the loading loop keeps in general, and that it only appends to
    the error log. *)
Definition load_frame (a b : Z * Worklist * SCPStatus * World) : Prop :=
  dataFolder_ b.1.1.2 = dataFolder_ a.1.1.2
  /\ w_fs b.2 = w_fs a.2
  /\ exists lines, lastErrors_ b.1.2 = lastErrors_ a.1.2 +:+ lines.

(** As [example_world], one millisecond later. *)
Definition later_world : World :=
  mk_World ∅ ∅ []
    (fun _ => mk_time_point (mk_tm 125 0 5 9 3 7) 1736067787006)
    0 [] EC_Normal EC_Normal EC_Normal.

(** The error log [b] is the log [a] with lines appended. *)
Definition log_extends (a b : SCPStatus) : Prop :=
  exists lines, lastErrors_ b = lastErrors_ a +:+ lines.

(** A world in which the backing file of the entry of [one_entry_server]
    is on disk and can be neither written nor deleted. *)
Definition locked_world : World :=
  mk_World {[ "./worklist/" := Directory;
              "./worklist/dataset_20250105_090307_5.dcm" := DicomFile [] ]}
           {[ "./worklist/dataset_20250105_090307_5.dcm" ]} []
           (fun _ => example_time) 0 [] EC_Normal EC_Normal EC_Normal.

(* ========================================================================= *)
(** * Properties *)

(* ------------------------------------------------------------------------- *)
(** ** Loops *)

(** A property that holds before a loop and is kept by every iteration
    holds after it. *)
Lemma foldl_invariant {A B : Type} (P : A -> Prop) (f : A -> B -> A)
    (l : list B) (a : A) :
  P a -> (forall a b, b ∈ l -> P a -> P (f a b)) -> P (foldl f a l).
Proof.
  revert a. induction l as [|b l IH]; intros a Ha Hstep; [done|].
  cbn [foldl]. apply IH.
  - apply Hstep; [left | done].
  - intros a' b' Hb'. apply Hstep. by right.
Qed.

(** A reflexive, transitive relation that every iteration respects relates
    the state before the loop to the state after it. *)
Lemma foldl_related {A B : Type} (R : A -> A -> Prop) (f : A -> B -> A)
    (l : list B) (a : A) :
  (forall a, R a a) -> (forall a b c, R a b -> R b c -> R a c) ->
  (forall a b, b ∈ l -> R a (f a b)) -> R a (foldl f a l).
Proof.
  intros Hrefl Htrans Hstep.
  apply (foldl_invariant (R a)); [apply Hrefl|].
  intros a' b Hb Ha'. eapply Htrans; [exact Ha' | by apply Hstep].
Qed.

(* ------------------------------------------------------------------------- *)
(** ** Status rendering *)

Lemma append_nil_r (a b : string) : a +:+ b = "" -> b = "".
Proof. destruct a; simpl; [done | discriminate]. Qed.

Lemma error_line_nonempty t message : error_line t message <> "".
Proof. unfold error_line, LF. simpl. discriminate. Qed.

Lemma status_header_set_lastErrors e s :
  status_header (set_lastErrors e s) = status_header s.
Proof. reflexivity. Qed.

(** What [ToString] returns in general: the header followed by the log, or
    by "None" when the log is empty; the log is empty afterwards and nothing
    else changes. *)
Lemma ToString_spec s :
  ToString s =
    (status_header s +:+ (if bool_decide (lastErrors_ s = "") then "None"
                          else lastErrors_ s),
     mk_SCPStatus (isRunning_ s) (requestCount_ s) (statusText_ s) "").
Proof. reflexivity. Qed.

(** C5. Rendering reads and clears the error log.  For every status, with
    running flag [running], request count [count], status text [text] and
    error log [log]: once an error [message] has been recorded, the first
    [ToString] returns the four labelled lines, the last of which holds the
    log followed by a new line, a tab, the local time of the recording as
    HH:MM:SS, the word "Error:" and the message; the log is empty
    afterwards and nothing else has changed, so a second [ToString] with no
    error in between returns the same lines with "None" for the log. *)
Theorem ToString_reads_and_clears
    (running : bool) (count : Z) (text log message : string) (w : World) :
  let s := mk_SCPStatus running count text log in
  let t := tp_local (w_clock w (w_ticks w)) in
  let two := fun d : Z =>
    if bool_decide (0 <= d < 10) then "0" +:+ pretty d else pretty d in
  let header :=
    "Running: " +:+ (if running then "true" else "false")
    +:+ String "010" " Requests: " +:+ pretty count
    +:+ String "010" " State: " +:+ text
    +:+ String "010" " Last Errors: " in
  let line :=
    String "010" (String "009" "")
    +:+ (two (tm_hour t) +:+ ":" +:+ two (tm_min t) +:+ ":" +:+ two (tm_sec t))
    +:+ " Error: " +:+ message in
  let (s1, w1) := error message s w in
  let (first, s2) := ToString s1 in
  let (second, s3) := ToString s2 in
  first = header +:+ log +:+ line
  /\ s2 = mk_SCPStatus running count text ""
  /\ second = header +:+ "None"
  /\ s3 = s2
  /\ w_ticks w1 = S (w_ticks w).
Proof.
  cbn zeta. unfold error, now. cbn [fst snd].
  rewrite !ToString_spec. cbn [lastErrors_ set_lastErrors isRunning_
    requestCount_ statusText_].
  assert (Hne : log +:+ error_line (w_clock w (w_ticks w)) message <> "").
  { intros H. apply append_nil_r in H. exact (error_line_nonempty _ _ H). }
  rewrite (bool_decide_eq_false_2 (_ +:+ _ = "")) by done.
  rewrite (bool_decide_eq_true_2 ("" = "")) by done.
  repeat split; reflexivity.
Qed.

(* ------------------------------------------------------------------------- *)
(** ** The scoped status guard *)

Lemma after_changes_previous changes g :
  previousStatusText_ (after_changes changes g) = previousStatusText_ g.
Proof.
  revert g. induction changes as [|f changes IH]; intros g; [done|].
  simpl. by rewrite IH.
Qed.

Lemma last_nonempty_default (x : string) (l : list string) (d d' : string) :
  List.last (x :: l) d = List.last (x :: l) d'.
Proof.
  revert x. induction l as [|y l IH]; intros x; [done|].
  change (List.last (y :: l) d = List.last (y :: l) d'). apply IH.
Qed.

Lemma after_changes_final changes g :
  finalStatusText_ (after_changes changes g)
  = List.last changes (finalStatusText_ g).
Proof.
  revert g. induction changes as [|f changes IH]; intros g; [done|].
  simpl. rewrite IH. simpl. destruct changes; [done|].
  apply last_nonempty_default.
Qed.

(** C10. "None" is a reserved final text.  A guard is constructed on a
    status [status] with any action name and any initial final text, the
    body registers any number of final texts with [changeStatus] and leaves
    the status as [at_exit]; then the destructor sets the status text to the
    last registered final text, unless that text is exactly "None", in which
    case it restores the text saved by the constructor: "None" itself is
    never what the destructor applies. *)
Theorem None_is_reserved_final_text
    (status at_exit : SCPStatus) (actionName finalStatusText : string)
    (changes : list string) :
  let (scoped, _) := ScopedStatus_ctor status actionName finalStatusText in
  let final := List.last changes finalStatusText in
  statusText_ (ScopedStatus_dtor (after_changes changes scoped) at_exit)
  = (if bool_decide (final = "None") then statusText_ status else final)
  /\ ScopedStatus_dtor (after_changes changes scoped) at_exit
     = set_statusText
         (if bool_decide (final = "None") then statusText_ status else final)
         at_exit.
Proof.
  unfold ScopedStatus_ctor. cbn zeta.
  unfold ScopedStatus_dtor.
  rewrite after_changes_final, after_changes_previous. simpl. done.
Qed.

(* ------------------------------------------------------------------------- *)
(** ** Lifecycle *)

Lemma set_statusText_same (st : SCPStatus) : set_statusText (statusText_ st) st = st.
Proof. by destruct st. Qed.

Lemma set_serverStatus_same (s : DICOMWorklistSCP) :
  set_serverStatus (serverStatus_ s) s = s.
Proof. by destruct s. Qed.

Lemma w_listen_after_configure w :
  w_listen (net_call openListenPort (configure w)) = w_listen w.
Proof. reflexivity. Qed.

(** [start] and [stop] with the guard's constructor and destructor
    carried out. *)
Lemma start_eq (s : DICOMWorklistSCP) (w : World) :
  start s w =
    if isRunning_ (serverStatus_ s) then (true, s, w)
    else if good (w_listen w) then
      (true,
       set_serverStatus
         (set_statusText "Listening" (set_isRunning true (serverStatus_ s))) s,
       net_call acceptAssociations_detached
         (net_call openListenPort (configure w)))
    else (false, s, net_call openListenPort (configure w)).
Proof.
  destruct s as [tf [run rc txt errs] wl].
  unfold start, with_ScopedStatus, ScopedStatus_ctor, ScopedStatus_dtor.
  cbn -[configure net_call]. destruct run; [reflexivity|].
  rewrite w_listen_after_configure. by destruct (good (w_listen w)).
Qed.

Lemma stop_eq (s : DICOMWorklistSCP) (w : World) :
  stop s w =
    if isRunning_ (serverStatus_ s) then
      (true,
       set_serverStatus
         (set_statusText "Idle" (set_isRunning false (serverStatus_ s))) s,
       net_call stopAfterCurrentAssociation w)
    else (true, set_serverStatus (set_statusText "Idle" (serverStatus_ s)) s, w).
Proof.
  destruct s as [tf [run rc txt errs] wl].
  unfold stop, with_ScopedStatus, ScopedStatus_ctor, ScopedStatus_dtor.
  cbn. by destruct run.
Qed.

(** C9. Redundant lifecycle calls.  When the server is already running,
    [start] returns true and changes neither the server nor the world: no
    configuration call, no [openListenPort].  When it is not running, [stop]
    returns true without calling the base class; the running flag stays
    false (the guard of [stop] leaves the status text "Idle"). *)
Theorem lifecycle_calls_idempotent (s : DICOMWorklistSCP) (w : World) :
  (isRunning_ (serverStatus_ s) = true -> start s w = (true, s, w))
  /\ (isRunning_ (serverStatus_ s) = false ->
      stop s w
      = (true, set_serverStatus (set_statusText "Idle" (serverStatus_ s)) s, w)
      /\ isRunning_ (serverStatus_ (stop s w).1.2) = false
      /\ w_net (stop s w).2 = w_net w).
Proof.
  split; intros Hrun.
  - by rewrite start_eq, Hrun.
  - rewrite stop_eq, Hrun. cbn. auto.
Qed.

Lemma lifecycle_calls_idempotent_witness :
  start running_server running_world = (true, running_server, running_world)
  /\ stop idle_server idle_world
     = (true,
        set_serverStatus (set_statusText "Idle" (serverStatus_ idle_server))
                         idle_server,
        idle_world).
Proof.
  split.
  - apply (proj1 (lifecycle_calls_idempotent running_server running_world)).
    reflexivity.
  - apply (proj2 (lifecycle_calls_idempotent idle_server idle_world)).
    reflexivity.
Defined.

(* ------------------------------------------------------------------------- *)
(** ** The query callback *)

Lemma int_incr_in_range (x : Z) :
  -2147483648 <= x < INT_MAX -> int_incr x = x + 1.
Proof.
  unfold int_incr, static_cast_int, INT_MAX. intros H.
  rewrite Z.mod_small by lia. lia.
Qed.

(** C8. The query callback.  On every invocation the request counter is
    incremented (as an [int]: by one below [INT_MAX]) and nothing else of
    the server changes; for a null message the result is [EC_IllegalCall]
    and no call is made; for a C-FIND request exactly one call is made,
    [sendDIMSEMessage] with a response of status success, no data set, the
    request's message id and affected SOP class UID, and no data object,
    and its result is returned; any other message is passed unchanged to the
    base handler, whose result is returned.  The stored data sets play no
    part: with any other store in place the result and the calls are the
    same. *)
Theorem handleIncomingCommand_spec
    (incomingMsg : option T_DIMSE_Message) (presInfo : DcmPresentationContextInfo)
    (s : DICOMWorklistSCP) (w : World) :
  let '(result, s', w') := handleIncomingCommand incomingMsg presInfo s w in
  s' = set_serverStatus
         (set_requestCount (int_incr (requestCount_ (serverStatus_ s)))
                           (serverStatus_ s)) s
  /\ (-2147483648 <= requestCount_ (serverStatus_ s) < INT_MAX ->
      requestCount_ (serverStatus_ s') = requestCount_ (serverStatus_ s) + 1)
  /\ datasets_ s' = datasets_ s
  /\ match incomingMsg with
     | None => result = EC_IllegalCall /\ w' = w
     | Some msg =>
         match CommandField msg with
         | DIMSE_C_FIND_RQ =>
             exists request,
               msg = Msg_CFindRQ request
               /\ w' = net_call (sendDIMSEMessage
                                   (presentationContextID presInfo)
                                   (find_response request) None) w
               /\ result = w_send w
         | _ =>
             w' = net_call (DcmSCP_handleIncomingCommand msg presInfo) w
             /\ result = w_base w
         end
     end
  /\ (forall wl : Worklist,
        handleIncomingCommand incomingMsg presInfo (set_datasets wl s) w
        = (result, set_datasets wl s', w')).
Proof.
  destruct incomingMsg as [[request|rsp|field]|]; cbn;
    (split; [reflexivity|]);
    (split; [intros H; by apply int_incr_in_range|]);
    (split; [reflexivity|]);
    (split; [|intros wl; reflexivity]); eauto.
Qed.

(* ------------------------------------------------------------------------- *)
(** ** Null output pointers *)

(** C6, as the code behaves.  [getDatasetCount(nullptr)] returns false and
    changes nothing.  [addDataset(nullptr)] has no such check: it never
    returns false; it inserts the new entry and then writes through the null
    pointer. *)
Theorem addDataset_null_pointer_is_dereferenced (s : DICOMWorklistSCP) (w : World) :
  getDatasetCount None s w = ((false, None), s, w)
  /\ addDataset None s w
     = NullDereference (addDataset_before_write s w).1
                       (addDataset_before_write s w).2.
Proof.
  split; [reflexivity|].
  unfold addDataset, addDataset_before_write, ScopedStatus_ctor.
  cbn -[add new_dataset].
  destruct (add _ _ _) as [[i wl1] w1]. reflexivity.
Qed.

(** On a freshly constructed server over an empty folder the store has
    grown from no entry to one when the null pointer is written through. *)
Example addDataset_null_pointer_on_fresh_server :
  count (datasets_ idle_server) = 0
  /\ exists s' w',
       addDataset None idle_server idle_world = NullDereference s' w'
       /\ count (datasets_ s') = 1
       /\ lastErrors_ (serverStatus_ s') = "".
Proof.
  split; [reflexivity|].
  eexists _, _. split; [reflexivity|]. split; reflexivity.
Qed.

(* ------------------------------------------------------------------------- *)
(** ** The request counter and the guard across facade calls *)

Lemma error_fields message st w :
  isRunning_ (error message st w).1 = isRunning_ st
  /\ requestCount_ (error message st w).1 = requestCount_ st
  /\ statusText_ (error message st w).1 = statusText_ st.
Proof. done. Qed.

Lemma status_kept_refl st : status_kept st st.
Proof. done. Qed.

Lemma status_kept_trans st1 st2 st3 :
  status_kept st1 st2 -> status_kept st2 st3 -> status_kept st1 st3.
Proof. unfold status_kept. intros (?&?&?) (?&?&?). repeat split; congruence. Qed.

Lemma status_kept_error message st w : status_kept st (error message st w).1.
Proof. done. Qed.

Lemma load_entry_status_kept entry n wl st w :
  status_kept st (load_entry entry (n, wl, st, w)).1.2.
Proof.
  unfold load_entry. destruct (de_is_regular_file entry); [|done].
  destruct (loadFile _ _).
  - destruct (getFreeIndex wl). done.
  - done.
Qed.

Lemma loadAllDatasets_status_kept listing wl st w :
  status_kept st (loadAllDatasets listing wl st w).1.2.
Proof.
  unfold loadAllDatasets.
  pose proof (foldl_related
    (fun a b : Z * Worklist * SCPStatus * World => status_kept a.1.2 b.1.2)
    (fun acc entry => load_entry entry acc) listing (0, wl, st, w)) as H.
  cbn beta in H.
  destruct (foldl _ _ listing) as [[[n1 wl1] st1] w1]. apply H.
  - intros a. apply status_kept_refl.
  - intros a b c. apply status_kept_trans.
  - intros [[[n a_wl] a_st] a_w] e _. apply load_entry_status_kept.
Qed.

(** A reflexive, transitive relation that every iteration of the loop of
    [Worklist::clear] respects relates the state before the loop to the
    state it ends in, whether it runs to the end or is left by a throw. *)
Lemma clear_loop_related (R : SCPStatus * World -> SCPStatus * World -> Prop)
    (wl : Worklist) (order : list Z) (acc : SCPStatus * World) :
  (forall a, R a a) -> (forall a b c, R a b -> R b c -> R a c) ->
  (forall a id b, id ∈ order -> clear_entry wl id a = Some b -> R a b) ->
  R acc (state_of (clear_loop wl order acc)).
Proof.
  intros Hrefl Htrans Hstep. revert acc Hstep.
  induction order as [|id order IH]; intros acc Hstep; [apply Hrefl|].
  cbn [clear_loop]. destruct (clear_entry wl id acc) as [acc1|] eqn:E.
  - eapply Htrans; [eapply Hstep; [by left | exact E]|].
    apply IH. intros a id' b Hid'. apply Hstep. by right.
  - apply Hrefl.
Qed.

Lemma clear_store_of order wl st w :
  (state_of (clear order wl st w)).1.2
  = (state_of (clear_loop wl order (st, w))).1
  /\ (state_of (clear order wl st w)).2
     = (state_of (clear_loop wl order (st, w))).2.
Proof. unfold clear. by destruct (clear_loop _ _ _) as [[??]|[??]]. Qed.

Lemma clear_status_kept order wl st w :
  status_kept st (state_of (clear order wl st w)).1.2.
Proof.
  rewrite (proj1 (clear_store_of order wl st w)).
  apply (clear_loop_related (fun a b => status_kept a.1 b.1)).
  - intros a. apply status_kept_refl.
  - intros a b c. apply status_kept_trans.
  - intros [a_st a_w] id b _. unfold clear_entry.
    destruct (indexMap_ wl !! id) as [item|]; [|by intros [= <-]].
    destruct (fs_exists _ _); [|by intros [= <-]].
    destruct (fs_remove _ _) as [[[] w2]|]; [| |done]; by intros [= <-].
Qed.

(** [deleteDataset] and [clearAllDatasets] with the guard's constructor and
    destructor carried out. *)
Lemma deleteDataset_eq i s w :
  deleteDataset i s w =
    match remove i (datasets_ s) w with
    | Some (r, wl1, w1) => Returned r (leave s (serverStatus_ s) wl1) w1
    | None => FilesystemError s w
    end.
Proof.
  unfold deleteDataset, ScopedStatus_ctor, ScopedStatus_dtor, leave.
  cbn -[remove]. destruct (remove _ _ _) as [[[??]?]|]; [reflexivity|].
  by destruct s as [tf [run rc txt errs] wl].
Qed.

Lemma clearAllDatasets_eq order s w :
  clearAllDatasets order s w =
    match clear order (datasets_ s) (inside "Clearing the list" s) w with
    | returns (wl1, st1, w1) => Returned true (leave s st1 wl1) w1
    | throws (wl1, st1, w1) => FilesystemError (leave s st1 wl1) w1
    end.
Proof.
  unfold clearAllDatasets, ScopedStatus_ctor, ScopedStatus_dtor, leave, inside.
  cbn -[clear]. by destruct (clear _ _ _ _) as [[[??]?]|[[??]?]].
Qed.

Lemma saveDatasetInFile_status_kept index wl st w :
  status_kept st (saveDatasetInFile index wl st w).1.2.
Proof.
  unfold saveDatasetInFile.
  destruct (Worklist_at wl index) as [item|]; [|done].
  destruct (dataset_ item) as [ds|]; [|done].
  destruct (saveFile _ _ _) as [status w1]. by destruct (good status).
Qed.

Lemma save_entry_status_kept only_dirty id acc :
  status_kept acc.1.2 (save_entry only_dirty id acc).1.2.
Proof.
  destruct acc as [[[success wl] st] w]. unfold save_entry.
  destruct (indexMap_ wl !! id) as [item|]; [|done].
  destruct (dataset_ item) as [ds|]; [|done].
  destruct (only_dirty && negb (dirty_ item)); [done|].
  destruct (saveFile _ _ _) as [status w1]. by destruct (good status).
Qed.

Lemma save_loop_status_kept only_dirty order acc :
  status_kept acc.1.2
    (foldl (fun acc id => save_entry only_dirty id acc) acc order).1.2.
Proof.
  apply (foldl_related
    (fun a b : bool * Worklist * SCPStatus * World => status_kept a.1.2 b.1.2)).
  - intros a. apply status_kept_refl.
  - intros a b c. apply status_kept_trans.
  - intros a id _. apply save_entry_status_kept.
Qed.

(** The guard around a body that keeps the status and registers no final
    text: on return the status is the one on entry, up to the error log. *)
Lemma with_ScopedStatus_restores {A : Type} actionName
    (body : ScopedStatus -> DICOMWorklistSCP -> World ->
            A * ScopedStatus * DICOMWorklistSCP * World) s w :
  (forall g s0 w0,
     status_kept (serverStatus_ s0) (serverStatus_ (body g s0 w0).1.2)
     /\ (body g s0 w0).1.1.2 = g) ->
  status_kept (serverStatus_ s)
    (serverStatus_ (with_ScopedStatus actionName "None" body s w).1.2).
Proof.
  intros Hbody. unfold with_ScopedStatus, ScopedStatus_ctor.
  match goal with |- context [body ?g ?s0 ?w0] =>
    specialize (Hbody g s0 w0); destruct (body g s0 w0) as [[[r g1] s1] w1] end.
  cbn in *. destruct Hbody as [(H1 & H2 & H3) ->].
  unfold status_kept. cbn. auto.
Qed.

Lemma facade_ordinary_status_kept c s w :
  match c with
  | call_start | call_stop | call_getStatus | call_addDataset _ => False
  | _ => True
  end ->
  status_kept (serverStatus_ s) (serverStatus_ (state_after (facade c s w))).
Proof.
  intros Hc.
  destruct c as [f|index|i|p|i|order| | | |i|order|i|order|listing];
    cbn in Hc; try (exfalso; exact Hc); cbn [facade].
  - unfold setTemplateFile, returned_bool.
    pose proof (with_ScopedStatus_restores (A:=bool) "Template file setting"
      (fun scoped s w =>
         let s1 := set_templateFile f s in
         (fs_exists (templateFile_ s1) w, scoped, s1, w)) s w) as H.
    destruct (with_ScopedStatus _ _ _ s w) as [[r s1] w1]. apply H.
    intros g s0 w0. by cbn.
  - rewrite deleteDataset_eq.
    destruct (remove _ _ _) as [[[r wl1] w1]|]; cbn; [|done].
    unfold status_kept. by cbn.
  - unfold getDatasetCount. destruct p as [v|]; [|done].
    pose proof (with_ScopedStatus_restores (A:=bool * option Z)
      "Getting dataset count"
      (fun scoped s w => ((true, Some (count (datasets_ s))), scoped, s, w))
      s w) as H.
    destruct (with_ScopedStatus _ _ _ s w) as [[[b n] s1] w1]. apply H.
    intros g s0 w0. by cbn.
  - unfold getDataset.
    pose proof (with_ScopedStatus_restores (A:=option DcmDataset)
      "Getting dataset"
      (fun scoped s w =>
         let item := Worklist_at (datasets_ s) i in
         (match item with Some it => dataset_ it | None => None end,
          scoped, s, w)) s w) as H.
    destruct (with_ScopedStatus _ _ _ s w) as [[r s1] w1]. apply H.
    intros g s0 w0. by cbn.
  - rewrite clearAllDatasets_eq.
    pose proof (clear_status_kept order (datasets_ s)
                  (inside "Clearing the list" s) w) as (H1 & H2 & _).
    destruct (clear _ _ _ _) as [[[wl1 st1] w1]|[[wl1 st1] w1]];
      cbn in *; unfold status_kept; cbn; auto.
  - unfold SCP_markDatasetDirty, returned_bool.
    pose proof (with_ScopedStatus_restores (A:=bool) "Marking dataset as dirty"
      (fun scoped s w =>
         let (r, wl1) := markDatasetDirty i (datasets_ s) in
         (r, scoped, set_datasets wl1 s, w)) s w) as H.
    destruct (with_ScopedStatus _ _ _ s w) as [[r s1] w1]. apply H.
    intros g s0 w0. destruct (markDatasetDirty _ _) as [r0 wl1]. by cbn.
  - unfold saveDirtyDatasets, returned_bool.
    pose proof (with_ScopedStatus_restores (A:=bool) "Saving dirty datasets"
      (fun scoped s w =>
         let '(r, wl1, st1, w1) :=
           saveDirtyDatasetsInFile order (datasets_ s) (serverStatus_ s) w in
         (r, scoped, set_serverStatus st1 (set_datasets wl1 s), w1)) s w) as H.
    destruct (with_ScopedStatus _ _ _ s w) as [[r s1] w1]. apply H.
    intros g s0 w0.
    pose proof (save_loop_status_kept true order
                  (true, datasets_ s0, serverStatus_ s0, w0)) as Hk.
    unfold saveDirtyDatasetsInFile.
    destruct (foldl _ _ order) as [[[r0 wl1] st1] w2]. by cbn.
  - unfold saveDataset, returned_bool.
    pose proof (with_ScopedStatus_restores (A:=bool) "Saving a dataset by index"
      (fun scoped s w =>
         let '(r, wl1, st1, w1) :=
           saveDatasetInFile i (datasets_ s) (serverStatus_ s) w in
         (r, scoped, set_serverStatus st1 (set_datasets wl1 s), w1)) s w) as H.
    destruct (with_ScopedStatus _ _ _ s w) as [[r s1] w1]. apply H.
    intros g s0 w0.
    pose proof (saveDatasetInFile_status_kept i (datasets_ s0)
                  (serverStatus_ s0) w0) as Hk.
    destruct (saveDatasetInFile _ _ _ _) as [[[r0 wl1] st1] w2]. by cbn.
  - unfold saveAllDatasets, returned_bool.
    pose proof (with_ScopedStatus_restores (A:=bool) "Saving all datasets"
      (fun scoped s w =>
         let '(r, wl1, st1, w1) :=
           saveAllDatasetsInFile order (datasets_ s) (serverStatus_ s) w in
         (r, scoped, set_serverStatus st1 (set_datasets wl1 s), w1)) s w) as H.
    destruct (with_ScopedStatus _ _ _ s w) as [[r s1] w1]. apply H.
    intros g s0 w0.
    pose proof (save_loop_status_kept false order
                  (true, datasets_ s0, serverStatus_ s0, w0)) as Hk.
    unfold saveAllDatasetsInFile.
    destruct (foldl _ _ order) as [[[r0 wl1] st1] w2]. by cbn.
  - unfold SCP_loadAllDatasets, returned_bool.
    pose proof (with_ScopedStatus_restores (A:=bool)
      "Loading all datasets from file"
      (fun scoped s w =>
         let '(r, wl1, st1, w1) :=
           loadAllDatasets listing (datasets_ s) (serverStatus_ s) w in
         (r, scoped, set_serverStatus st1 (set_datasets wl1 s), w1)) s w) as H.
    destruct (with_ScopedStatus _ _ _ s w) as [[r s1] w1]. apply H.
    intros g s0 w0.
    pose proof (loadAllDatasets_status_kept listing (datasets_ s0)
                  (serverStatus_ s0) w0) as Hk.
    destruct (loadAllDatasets _ _ _ _) as [[[r0 wl1] st1] w2]. by cbn.
Qed.

Lemma facade_requestCount c s w :
  requestCount_ (serverStatus_ (state_after (facade c s w)))
  = requestCount_ (serverStatus_ s).
Proof.
  destruct c as [f|index|i|p|i|order| | | |i|order|i|order|listing];
    try (match goal with |- context [facade ?c s w] =>
           by destruct (facade_ordinary_status_kept c s w I) as (_ & -> & _) end).
  - cbn [facade]. unfold addDataset, ScopedStatus_ctor.
    cbn -[add new_dataset]. destruct (add _ _ _) as [[i wl1] w1].
    by destruct index.
  - cbn [facade]. rewrite start_eq.
    destruct (isRunning_ (serverStatus_ s)); [done|].
    by destruct (good (w_listen w)).
  - cbn [facade]. rewrite stop_eq. by destruct (isRunning_ (serverStatus_ s)).
  - done.
Qed.

(** C7, where the code departs from it.  The constructor of the guard sets
    the status text and nothing else: the request counter is as before.
    So no facade call counts, however it ends: the counter after the call is
    the counter before it.  On a freshly constructed server
    [deleteDataset(0)] is a guarded call that returns false, and the counter
    is 0 before and after it, not 1. *)
Theorem scoped_guard_does_not_count :
  (forall (status : SCPStatus) (actionName finalStatusText : string),
     requestCount_ (ScopedStatus_ctor status actionName finalStatusText).2
     = requestCount_ status)
  /\ (forall (c : FacadeCall) (s : DICOMWorklistSCP) (w : World),
        requestCount_ (serverStatus_ (state_after (facade c s w)))
        = requestCount_ (serverStatus_ s))
  /\ requestCount_ (serverStatus_ idle_server) = 0
  /\ facade (call_deleteDataset 0) idle_server idle_world
     = Returned (res_bool false) idle_server idle_world
  /\ requestCount_
       (serverStatus_
          (state_after (facade (call_deleteDataset 0) idle_server idle_world)))
     <> requestCount_ (serverStatus_ idle_server) + 1.
Proof.
  split; [reflexivity|]. split; [exact facade_requestCount|].
  split; [reflexivity|]. split; [reflexivity|]. rewrite facade_requestCount.
  lia.
Qed.

(* ------------------------------------------------------------------------- *)
(** ** Index assignment *)

Lemma static_cast_int_small (x : Z) :
  0 <= x <= INT_MAX -> static_cast_int x = x.
Proof.
  unfold static_cast_int, INT_MAX. intros H.
  rewrite Z.mod_small by lia. lia.
Qed.

Lemma foldr_min_le (x : Z) (l : list Z) :
  foldr Z.min x l <= x /\ forall y, y ∈ l -> foldr Z.min x l <= y.
Proof.
  induction l as [|a l [IH1 IH2]]; simpl.
  - split; [lia|]. intros y Hy. by apply elem_of_nil in Hy.
  - split; [lia|]. intros y Hy. apply elem_of_cons in Hy as [->|Hy].
    + lia.
    + specialize (IH2 y Hy). lia.
Qed.

Lemma foldr_min_elem (x : Z) (l : list Z) : foldr Z.min x l ∈ x :: l.
Proof.
  induction l as [|a l IH]; simpl; [by left|].
  destruct (Z.min_spec a (foldr Z.min x l)) as [[_ ->]|[_ ->]].
  - right. by left.
  - apply elem_of_cons in IH as [->|IH]; [by left|]. right. by right.
Qed.

Lemma set_begin_None (s : gset Z) : set_begin s = None <-> s = ∅.
Proof.
  unfold set_begin. split.
  - destruct (elements s) eqn:E; [|discriminate].
    intros _. by apply elements_empty_inv, leibniz_equiv in E.
  - intros ->. by rewrite elements_empty.
Qed.

(** [*begin()] is the least element. *)
Lemma set_begin_Some (s : gset Z) (x : Z) :
  set_begin s = Some x -> x ∈ s /\ forall y, y ∈ s -> x <= y.
Proof.
  unfold set_begin. destruct (elements s) as [|a l] eqn:E; [discriminate|].
  intros [= <-]. split.
  - apply elem_of_elements. rewrite E. apply foldr_min_elem.
  - intros y Hy. apply elem_of_elements in Hy. rewrite E in Hy.
    destruct (foldr_min_le a l) as [H1 H2].
    apply elem_of_cons in Hy as [->|Hy]; [done | by apply H2].
Qed.


Lemma elem_of_below (i : Z) (n : nat) : i ∈ below n <-> 0 <= i < Z.of_nat n.
Proof.
  unfold below. rewrite elem_of_list_to_set, list_elem_of_fmap. split.
  - intros (k & -> & Hk). apply elem_of_seq in Hk. lia.
  - intros H. exists (Z.to_nat i). split; [lia|]. apply elem_of_seq. lia.
Qed.

Lemma size_below (n : nat) : size (below n) = n.
Proof.
  unfold below. rewrite size_list_to_set.
  - by rewrite length_fmap, length_seq.
  - apply NoDup_fmap; [apply Nat2Z.inj' | apply NoDup_seq].
Qed.

Lemma below_S (n : nat) : below (S n) = {[Z.of_nat n]} ∪ below n.
Proof.
  apply set_eq. intros i.
  rewrite elem_of_union, elem_of_singleton, !elem_of_below. lia.
Qed.

Lemma index_inv_mono c c' wl : (c <= c')%nat -> index_inv c wl -> index_inv c' wl.
Proof. intros Hc (m & Hm & Hrest). exists m. split; [lia | exact Hrest]. Qed.

Lemma index_inv_empty folder : index_inv 0 (mk_Worklist folder ∅ ∅).
Proof.
  exists 0%nat. split; [done|]. split.
  - cbn. rewrite dom_empty_L. set_solver.
  - intros i Hi. cbn in Hi. set_solver.
Qed.

(** What [getFreeIndex] does to the two sets. *)
Lemma getFreeIndex_sets (wl : Worklist) :
  let (index, wl1) := getFreeIndex wl in
  indexMap_ wl1 = indexMap_ wl
  /\ dataFolder_ wl1 = dataFolder_ wl
  /\ freeIndexes_ wl1 = freeIndexes_ wl ∖ {[index]}
  /\ (freeIndexes_ wl = ∅ \/ index ∈ freeIndexes_ wl).
Proof.
  unfold getFreeIndex. destruct (set_begin (freeIndexes_ wl)) as [x|] eqn:E.
  - apply set_begin_Some in E as [Hx _]. cbn. auto.
  - apply set_begin_None in E. cbn. rewrite E, empty_difference_L. auto.
Qed.

(** The index [getFreeIndex] returns is not in use, as long as the number
    of entries created so far fits an [int]. *)
Lemma getFreeIndex_fresh (c : nat) (wl : Worklist) :
  index_inv c wl -> Z.of_nat c <= INT_MAX ->
  (getFreeIndex wl).1 ∉ dom (indexMap_ wl).
Proof.
  intros (m & Hm & Hall & Hdisj) Hc. unfold getFreeIndex.
  destruct (set_begin (freeIndexes_ wl)) as [x|] eqn:E; cbn.
  - apply set_begin_Some in E as [Hx _]. by apply Hdisj.
  - apply set_begin_None in E. rewrite E, union_empty_r_L in Hall.
    rewrite <- size_dom, Hall, size_below.
    rewrite static_cast_int_small by lia.
    rewrite elem_of_below. lia.
Qed.

Lemma store_new_disjoint item wl :
  disjoint_indices wl -> disjoint_indices (store_new item wl).2.
Proof.
  intros Hdisj. unfold store_new.
  pose proof (getFreeIndex_sets wl) as H.
  destruct (getFreeIndex wl) as [index wl1].
  destruct H as (Hmap & _ & Hfree & Hcase).
  intros i Hi. cbn in *. rewrite Hfree in Hi. rewrite Hmap, dom_insert_L.
  apply elem_of_difference in Hi as [Hi Hne].
  specialize (Hdisj i Hi). set_solver.
Qed.

Lemma store_new_inv c item wl :
  index_inv c wl -> Z.of_nat c <= INT_MAX ->
  index_inv (S c) (store_new item wl).2.
Proof.
  intros Hinv Hc.
  assert (Hdisj' : disjoint_indices (store_new item wl).2).
  { apply store_new_disjoint. by destruct Hinv as (m & _ & _ & H). }
  pose proof (getFreeIndex_fresh c wl Hinv Hc) as Hfresh.
  destruct Hinv as (m & Hm & Hall & Hdisj).
  revert Hdisj' Hfresh. unfold store_new, getFreeIndex.
  destruct (set_begin (freeIndexes_ wl)) as [x|] eqn:E; cbn; intros Hdisj' Hfresh.
  - apply set_begin_Some in E as [Hx _].
    exists m. split; [lia|]. split; [|done]. cbn.
    rewrite dom_insert_L, <- Hall. apply set_eq. intros i.
    rewrite !elem_of_union, elem_of_difference, elem_of_singleton.
    destruct (decide (i = x)) as [->|]; naive_solver.
  - apply set_begin_None in E.
    assert (Hdom : dom (indexMap_ wl) = below m).
    { by rewrite E, union_empty_r_L in Hall. }
    assert (Hsize : size (indexMap_ wl) = m).
    { by rewrite <- size_dom, Hdom, size_below. }
    exists (S m). split; [lia|]. split; [|done]. rewrite below_S.
    cbn [indexMap_ freeIndexes_ set_indexMap snd].
    rewrite Hsize, static_cast_int_small by lia.
    by rewrite dom_insert_L, E, union_empty_r_L, Hdom.
Qed.

Lemma add_store_new dataset wl w :
  (add dataset wl w).1.2
  = (store_new (mk_Item dataset (newFileName "dataset" w).1 true) wl).2
  /\ (add dataset wl w).1.1
     = (store_new (mk_Item dataset (newFileName "dataset" w).1 true) wl).1.
Proof.
  unfold add, store_new. destruct (newFileName "dataset" w) as [name w1].
  cbn. by destruct (getFreeIndex wl).
Qed.

(** The removal of the backing file at [path], as [Worklist::remove] and
    [Worklist::clear] go about it: it throws exactly when the file is there
    and cannot be deleted; otherwise the file is gone afterwards and no
    other path has changed. *)
Lemma removal_cases path w :
  (if fs_exists path w then fs_remove path w else Some (false, w))
  = if bool_decide (is_Some (w_fs w !! path) /\ path ∈ w_locked w) then None
    else Some (fs_exists path w, set_fs (delete path (w_fs w)) w).
Proof.
  unfold fs_exists, fs_remove.
  destruct (w_fs w !! path) as [node|] eqn:E.
  - rewrite bool_decide_eq_true_2 by eauto.
    destruct (decide (path ∈ w_locked w)) as [Hl|Hl].
    + by rewrite !bool_decide_eq_true_2 by eauto.
    + rewrite !bool_decide_eq_false_2; [done | by intros [_ ?] | done].
  - rewrite bool_decide_eq_false_2 by (by intros [? ?]).
    rewrite bool_decide_eq_false_2 by (by intros [[? ?] _]).
    do 2 f_equal. destruct w. unfold set_fs. cbn in *. f_equal.
    by rewrite delete_id.
Qed.

(** [Worklist::remove] by cases. *)
Lemma remove_cases index wl w :
  remove index wl w =
    match indexMap_ wl !! index with
    | None => Some (false, wl, w)
    | Some item =>
        if bool_decide (is_Some (w_fs w !! backing_path wl item)
                        /\ backing_path wl item ∈ w_locked w)
        then None
        else Some (true,
                   set_freeIndexes ({[index]} ∪ freeIndexes_ wl)
                     (set_indexMap (delete index (indexMap_ wl)) wl),
                   set_fs (delete (backing_path wl item) (w_fs w)) w)
    end.
Proof.
  unfold remove, backing_path.
  destruct (indexMap_ wl !! index) as [item|]; [|done].
  cbn zeta. rewrite removal_cases. by destruct (bool_decide _).
Qed.

Lemma remove_disjoint index wl w r wl1 w1 :
  remove index wl w = Some (r, wl1, w1) ->
  disjoint_indices wl -> disjoint_indices wl1.
Proof.
  rewrite remove_cases. intros Hrm Hdisj.
  destruct (indexMap_ wl !! index) as [item|] eqn:E;
    [|by injection Hrm as <- <- <-].
  destruct (bool_decide _); [done|]. injection Hrm as <- <- <-.
  intros i Hi. cbn in *. rewrite dom_delete_L.
  apply elem_of_union in Hi as [Hi|Hi].
  - apply elem_of_singleton in Hi as ->. set_solver.
  - specialize (Hdisj i Hi). set_solver.
Qed.

Lemma remove_inv c index wl w r wl1 w1 :
  remove index wl w = Some (r, wl1, w1) ->
  index_inv c wl -> index_inv c wl1.
Proof.
  intros Hrm Hinv.
  assert (Hdisj' : disjoint_indices wl1).
  { eapply remove_disjoint; [exact Hrm|]. by destruct Hinv as (m & _ & _ & H). }
  destruct Hinv as (m & Hm & Hall & Hdisj). rewrite remove_cases in Hrm.
  destruct (indexMap_ wl !! index) as [item|] eqn:E.
  - destruct (bool_decide _); [done|]. injection Hrm as <- <- <-.
    exists m. split; [done|]. split; [|done]. cbn.
    rewrite dom_delete_L, <- Hall.
    assert (Hin : index ∈ dom (indexMap_ wl)) by (apply elem_of_dom; eauto).
    apply set_eq. intros i.
    rewrite !elem_of_union, elem_of_difference, elem_of_singleton.
    destruct (decide (i = index)) as [->|]; naive_solver.
  - injection Hrm as <- <- <-. exists m. done.
Qed.

Lemma same_indices_refl wl : same_indices wl wl.
Proof. done. Qed.

Lemma same_indices_trans wl1 wl2 wl3 :
  same_indices wl1 wl2 -> same_indices wl2 wl3 -> same_indices wl1 wl3.
Proof. unfold same_indices. intros [? ?] [? ?]. split; congruence. Qed.

Lemma same_indices_disjoint wl wl' :
  same_indices wl wl' -> disjoint_indices wl -> disjoint_indices wl'.
Proof. unfold disjoint_indices. intros [-> ->]. done. Qed.

Lemma same_indices_inv c wl wl' :
  same_indices wl wl' -> index_inv c wl -> index_inv c wl'.
Proof.
  intros Hsame (m & Hm & Hall & Hdisj). exists m. split; [done|]. split.
  - destruct Hsame as [-> ->]. done.
  - by apply (same_indices_disjoint wl).
Qed.

Lemma insert_present_same_indices index item wl :
  is_Some (indexMap_ wl !! index) ->
  same_indices wl (set_indexMap (<[index := item]> (indexMap_ wl)) wl).
Proof.
  intros Hin. split; [|done]. cbn. rewrite dom_insert_L.
  apply elem_of_dom in Hin. set_solver.
Qed.

Lemma markDatasetDirty_same_indices index wl :
  same_indices wl (markDatasetDirty index wl).2.
Proof.
  unfold markDatasetDirty, Worklist_at.
  destruct (indexMap_ wl !! index) as [item|] eqn:E; [|done].
  apply insert_present_same_indices. eauto.
Qed.

Lemma saveDatasetInFile_same_indices index wl st w :
  same_indices wl (saveDatasetInFile index wl st w).1.1.2.
Proof.
  unfold saveDatasetInFile, Worklist_at.
  destruct (indexMap_ wl !! index) as [item|] eqn:E; [|done].
  destruct (dataset_ item) as [ds|]; [|done].
  destruct (saveFile _ _ _) as [status w1]. destruct (good status); [|done].
  apply insert_present_same_indices. eauto.
Qed.

Lemma save_entry_same_indices only_dirty id acc :
  same_indices acc.1.1.2 (save_entry only_dirty id acc).1.1.2.
Proof.
  destruct acc as [[[success wl] st] w]. unfold save_entry.
  destruct (indexMap_ wl !! id) as [item|] eqn:E; [|done].
  destruct (dataset_ item) as [ds|]; [|done].
  destruct (only_dirty && negb (dirty_ item)); [done|].
  destruct (saveFile _ _ _) as [status w1]. destruct (good status); [|done].
  apply insert_present_same_indices. eauto.
Qed.

Lemma save_loop_same_indices only_dirty order acc :
  same_indices acc.1.1.2
    (foldl (fun acc id => save_entry only_dirty id acc) acc order).1.1.2.
Proof.
  apply (foldl_related
    (fun a b : bool * Worklist * SCPStatus * World =>
       same_indices a.1.1.2 b.1.1.2)).
  - intros a. apply same_indices_refl.
  - intros a b c. apply same_indices_trans.
  - intros a id _. apply save_entry_same_indices.
Qed.

(** [Worklist::clear] empties the two containers when it returns and
    leaves them as they are when it is left by a throw. *)
Lemma clear_store order wl st w :
  match clear order wl st w with
  | returns c => c.1.1 = set_freeIndexes ∅ (set_indexMap ∅ wl)
  | throws c => c.1.1 = wl
  end.
Proof. unfold clear. by destruct (clear_loop _ _ _) as [[??]|[??]]. Qed.

Lemma load_entry_store entry n wl st w :
  (load_entry entry (n, wl, st, w)).1.1.2 = wl
  \/ exists item, (load_entry entry (n, wl, st, w)).1.1.2 = (store_new item wl).2.
Proof.
  unfold load_entry. destruct (de_is_regular_file entry); [|by left].
  destruct (loadFile _ _) as [ds|]; [|by left].
  right. eexists. unfold store_new. by destruct (getFreeIndex wl).
Qed.

Lemma load_loop_disjoint listing acc :
  disjoint_indices acc.1.1.2 ->
  disjoint_indices
    (foldl (fun acc entry => load_entry entry acc) acc listing).1.1.2.
Proof.
  intros Hacc. apply (foldl_invariant
    (fun a : Z * Worklist * SCPStatus * World => disjoint_indices a.1.1.2));
    [exact Hacc|].
  intros [[[n wl] st] w] e _ H. cbn in H.
  destruct (load_entry_store e n wl st w) as [->|[item ->]]; [done|].
  by apply store_new_disjoint.
Qed.

Lemma load_loop_inv listing c n wl st w :
  index_inv c wl -> Z.of_nat (c + length listing) <= INT_MAX ->
  index_inv (c + length listing)
    (foldl (fun acc entry => load_entry entry acc) (n, wl, st, w) listing).1.1.2.
Proof.
  revert c n wl st w.
  induction listing as [|e l IH]; intros c n wl st w Hinv Hc.
  - cbn. by rewrite Nat.add_0_r.
  - cbn [foldl length] in *.
    replace (c + S (length l))%nat with (S c + length l)%nat by lia.
    pose proof (load_entry_store e n wl st w) as Hstore.
    destruct (load_entry e (n, wl, st, w)) as [[[n1 wl1] st1] w1].
    cbn in Hstore. apply IH; [|lia].
    destruct Hstore as [->|[item ->]].
    + apply (index_inv_mono c); [lia | done].
    + apply store_new_inv; [done | lia].
Qed.

Lemma step_disjoint op c :
  disjoint_indices c.1.1 -> disjoint_indices (state_of (step op c)).1.1.
Proof.
  destruct c as [[wl st] w]. cbn [fst snd]. intros Hdisj.
  destruct op as [ds|i|listing|order|i|i|order|order]; cbn [step].
  - pose proof (add_store_new ds wl w) as [H _].
    destruct (add ds wl w) as [[i wl1] w1]. cbn in *. subst wl1.
    by apply store_new_disjoint.
  - pose proof (remove_disjoint i wl w) as H.
    destruct (remove i wl w) as [[[r wl1] w1]|]; [|done].
    by eapply H.
  - unfold loadAllDatasets.
    pose proof (load_loop_disjoint listing (0, wl, st, w) Hdisj) as H.
    by destruct (foldl _ _ listing) as [[[n wl1] st1] w1].
  - pose proof (clear_store order wl st w) as H.
    destruct (clear order wl st w) as [cfg|cfg]; cbn [state_of]; rewrite H;
      [|done].
    intros i Hi. cbn in Hi. set_solver.
  - eapply same_indices_disjoint; [apply markDatasetDirty_same_indices | done].
  - pose proof (saveDatasetInFile_same_indices i wl st w) as H.
    destruct (saveDatasetInFile i wl st w) as [[[r wl1] st1] w1].
    by apply (same_indices_disjoint wl).
  - pose proof (save_loop_same_indices false order (true, wl, st, w)) as H.
    unfold saveAllDatasetsInFile.
    destruct (foldl _ _ order) as [[[r wl1] st1] w1].
    by apply (same_indices_disjoint wl).
  - pose proof (save_loop_same_indices true order (true, wl, st, w)) as H.
    unfold saveDirtyDatasetsInFile.
    destruct (foldl _ _ order) as [[[r wl1] st1] w1].
    by apply (same_indices_disjoint wl).
Qed.

Lemma step_inv op n c :
  index_inv n c.1.1 -> Z.of_nat (n + creations op) <= INT_MAX ->
  index_inv (n + creations op) (state_of (step op c)).1.1.
Proof.
  destruct c as [[wl st] w]. cbn [fst snd]. intros Hinv Hn.
  destruct op as [ds|i|listing|order|i|i|order|order]; cbn [step creations] in *;
    rewrite ?Nat.add_0_r in *.
  - pose proof (add_store_new ds wl w) as [H _].
    destruct (add ds wl w) as [[i wl1] w1]. cbn in *. subst wl1.
    replace (n + 1)%nat with (S n) by lia.
    apply store_new_inv; [done | lia].
  - pose proof (remove_inv n i wl w) as H.
    destruct (remove i wl w) as [[[r wl1] w1]|]; [|done].
    by eapply H.
  - unfold loadAllDatasets.
    pose proof (load_loop_inv listing n 0 wl st w Hinv Hn) as H.
    by destruct (foldl _ _ listing) as [[[k wl1] st1] w1].
  - pose proof (clear_store order wl st w) as H.
    destruct (clear order wl st w) as [cfg|cfg]; cbn [state_of]; rewrite H;
      [|done].
    apply (index_inv_mono 0); [lia|]. apply index_inv_empty.
  - eapply same_indices_inv; [apply markDatasetDirty_same_indices | done].
  - pose proof (saveDatasetInFile_same_indices i wl st w) as H.
    destruct (saveDatasetInFile i wl st w) as [[[r wl1] st1] w1].
    by apply (same_indices_inv n wl).
  - pose proof (save_loop_same_indices false order (true, wl, st, w)) as H.
    unfold saveAllDatasetsInFile.
    destruct (foldl _ _ order) as [[[r wl1] st1] w1].
    by apply (same_indices_inv n wl).
  - pose proof (save_loop_same_indices true order (true, wl, st, w)) as H.
    unfold saveDirtyDatasetsInFile.
    destruct (foldl _ _ order) as [[[r wl1] st1] w1].
    by apply (same_indices_inv n wl).
Qed.

(** A property that holds at the start and is kept by every operation,
    however it ends, holds where the run ends. *)
Lemma run_invariant (P : Config -> Prop) (ops : list WorklistOp) (c : Config) :
  P c -> (forall op c, P c -> P (state_of (step op c))) -> P (run ops c).
Proof.
  intros Hc Hstep. revert c Hc.
  induction ops as [|op ops IH]; intros c Hc; [done|].
  cbn [run]. specialize (Hstep op c Hc).
  destruct (step op c) as [c1|c1]; [by apply IH | done].
Qed.

Lemma run_disjoint ops c :
  disjoint_indices c.1.1 -> disjoint_indices (run ops c).1.1.
Proof.
  intros Hc.
  apply (run_invariant (fun a : Config => disjoint_indices a.1.1)); [exact Hc|].
  intros op a. apply step_disjoint.
Qed.

Lemma run_inv ops n c :
  index_inv n c.1.1 ->
  Z.of_nat (n + sum_list (creations <$> ops)) <= INT_MAX ->
  index_inv (n + sum_list (creations <$> ops)) (run ops c).1.1.
Proof.
  revert n c. induction ops as [|op ops IH]; intros n c Hinv Hn.
  - cbn. by rewrite Nat.add_0_r.
  - change (sum_list (creations <$> op :: ops))
      with (creations op + sum_list (creations <$> ops))%nat in *.
    pose proof (step_inv op n c Hinv ltac:(lia)) as Hstep.
    cbn [run]. rewrite Nat.add_assoc in *.
    destruct (step op c) as [c1|c1]; cbn [state_of] in Hstep.
    + apply IH; [done | lia].
    + eapply index_inv_mono; [|exact Hstep]. lia.
Qed.

Lemma run_from_empty_inv ops st w :
  within_int_range ops ->
  index_inv (sum_list (creations <$> ops))
    (run ops (Worklist_empty, st, w)).1.1.
Proof.
  intros H. apply (run_inv ops 0 (Worklist_empty, st, w)); [|done].
  apply index_inv_empty.
Qed.

Lemma add_index dataset wl w : (add dataset wl w).1.1 = (getFreeIndex wl).1.
Proof.
  unfold add. destruct (newFileName "dataset" w) as [name w1].
  by destruct (getFreeIndex wl).
Qed.

Lemma add_indexMap dataset wl w :
  indexMap_ (add dataset wl w).1.2
  = <[(add dataset wl w).1.1 := mk_Item dataset (newFileName "dataset" w).1 true]>
      (indexMap_ wl).
Proof.
  unfold add. destruct (newFileName "dataset" w) as [name w1].
  pose proof (getFreeIndex_sets wl) as H.
  destruct (getFreeIndex wl) as [index wl1]. destruct H as (-> & _). done.
Qed.

(** C1. Index uniqueness and free-list disjointness.  After every sequence
    of [Worklist] operations (add, remove, loadAllDatasets, clear, and the
    marking and saving ones) on the empty store, carried out to its end or
    to the first operation that throws: the live entries have
    pairwise different indices; no index of [freeIndexes_] is a key of
    [indexMap_]; and, as long as the sequence creates no more entries than
    an [int] counts, the index the next [add] assigns is not a key of
    [indexMap_], so that no [add] ever takes the index of a live entry:
    it makes the store one entry larger. *)
Theorem index_uniqueness_and_free_list_disjointness
    (ops : list WorklistOp) (st : SCPStatus) (w : World) :
  let wl := (run ops (Worklist_empty, st, w)).1.1 in
  NoDup (live_indices wl)
  /\ (forall i, i ∈ freeIndexes_ wl -> i ∉ dom (indexMap_ wl))
  /\ (within_int_range ops ->
      forall dataset w',
        indexMap_ wl !! (add dataset wl w').1.1 = None
        /\ size (indexMap_ (add dataset wl w').1.2) = S (size (indexMap_ wl))).
Proof.
  cbn zeta. split; [|split].
  - apply NoDup_fst_map_to_list.
  - apply (run_disjoint ops (Worklist_empty, st, w)).
    intros i Hi. cbn in Hi. set_solver.
  - intros Hrange dataset w'.
    assert (Hfresh : indexMap_ (run ops (Worklist_empty, st, w)).1.1
                       !! (add dataset (run ops (Worklist_empty, st, w)).1.1 w').1.1
                     = None).
    { apply not_elem_of_dom. rewrite add_index.
      eapply getFreeIndex_fresh; [by apply run_from_empty_inv | exact Hrange]. }
    split; [exact Hfresh|].
    rewrite add_indexMap. by apply map_size_insert_None.
Qed.

Lemma index_uniqueness_and_free_list_disjointness_witness :
  indexMap_
    (run [op_add (Some []); op_add (Some []); op_remove 0]
         (Worklist_empty, SCPStatus_default, example_world)).1.1
  !! (add (Some [])
        (run [op_add (Some []); op_add (Some []); op_remove 0]
             (Worklist_empty, SCPStatus_default, example_world)).1.1
        example_world).1.1
  = None.
Proof.
  apply (proj2 (proj2 (index_uniqueness_and_free_list_disjointness
           [op_add (Some []); op_add (Some []); op_remove 0]
           SCPStatus_default example_world))).
  unfold within_int_range, INT_MAX. vm_compute. discriminate.
Defined.




(* ------------------------------------------------------------------------- *)
(** ** Saving and the dirty flag *)

Lemma save_frame_refl a : save_frame a a.
Proof. repeat split. exists []. by rewrite app_nil_r. Qed.

Lemma save_frame_trans a b c : save_frame a b -> save_frame b c -> save_frame a c.
Proof.
  intros (H1 & H2 & l1 & H3) (H4 & H5 & l2 & H6).
  split; [congruence|]. split; [congruence|].
  exists (l1 ++ l2)%list. by rewrite H6, H3, app_assoc.
Qed.

Lemma saveFile_spec path ds w :
  saveFile path ds w =
    if bool_decide (path ∈ w_locked w)
    then (EC_Failure 1, log_write path ds w)
    else (EC_Normal,
          set_fs (<[path := DicomFile ds]> (w_fs w)) (log_write path ds w)).
Proof. unfold saveFile. by destruct (bool_decide _). Qed.

(** One iteration of a saving loop, by cases. *)
Lemma save_entry_cases only_dirty id success wl st w :
  let acc := (success, wl, st, w) in
  match indexMap_ wl !! id with
  | Some (mk_Item (Some ds) name dirty) =>
      let item := mk_Item (Some ds) name dirty in
      let path := backing_path wl item in
      if only_dirty && negb dirty then save_entry only_dirty id acc = acc
      else if bool_decide (path ∈ w_locked w) then
        save_entry only_dirty id acc
        = (false, wl,
           (error ("Failed to save: " +:+ name) st (log_write path ds w)).1,
           (error ("Failed to save: " +:+ name) st (log_write path ds w)).2)
      else
        save_entry only_dirty id acc
        = (success,
           set_indexMap (<[id := set_dirty false item]> (indexMap_ wl)) wl, st,
           set_fs (<[path := DicomFile ds]> (w_fs w)) (log_write path ds w))
  | _ => save_entry only_dirty id acc = acc
  end.
Proof.
  cbn zeta. unfold save_entry.
  destruct (indexMap_ wl !! id) as [[[ds|] name dirty]|]; try reflexivity.
  cbn [dataset_ dirty_ fileName_].
  destruct (only_dirty && negb dirty); [reflexivity|].
  unfold backing_path. cbn [fileName_]. rewrite saveFile_spec.
  by destruct (bool_decide _).
Qed.

Lemma save_entry_frame only_dirty id acc :
  save_frame acc (save_entry only_dirty id acc).
Proof.
  destruct acc as [[[success wl] st] w].
  pose proof (save_entry_cases only_dirty id success wl st w) as H.
  cbn zeta in H.
  destruct (indexMap_ wl !! id) as [[[ds|] name dirty]|];
    try (rewrite H; apply save_frame_refl).
  destruct (only_dirty && negb dirty); [rewrite H; apply save_frame_refl|].
  destruct (bool_decide _); rewrite H; (repeat split; cbn; eauto).
Qed.

(** An iteration for another key leaves the entry [i] alone. *)
Lemma save_entry_other only_dirty id i acc :
  id <> i ->
  indexMap_ (save_entry only_dirty id acc).1.1.2 !! i = indexMap_ acc.1.1.2 !! i.
Proof.
  intros Hne. destruct acc as [[[success wl] st] w].
  pose proof (save_entry_cases only_dirty id success wl st w) as H.
  cbn zeta in H.
  destruct (indexMap_ wl !! id) as [[[ds|] name dirty]|];
    try (by rewrite H).
  destruct (only_dirty && negb dirty); [by rewrite H|].
  destruct (bool_decide _); rewrite H; cbn; [done|].
  by rewrite lookup_insert_ne.
Qed.

(** An iteration changes at most the dirty flag of an entry. *)
Lemma save_entry_same_record only_dirty id i acc :
  option_Forall2 (fun a b => dataset_ b = dataset_ a /\ fileName_ b = fileName_ a)
    (indexMap_ acc.1.1.2 !! i)
    (indexMap_ (save_entry only_dirty id acc).1.1.2 !! i).
Proof.
  assert (Hrefl : forall o : option Item,
    option_Forall2 (fun a b => dataset_ b = dataset_ a /\ fileName_ b = fileName_ a)
                   o o).
  { intros [x|]; by constructor. }
  destruct (decide (id = i)) as [->|Hne];
    [|rewrite save_entry_other by done; apply Hrefl].
  destruct acc as [[[success wl] st] w].
  pose proof (save_entry_cases only_dirty i success wl st w) as H.
  cbn zeta in H. cbn [fst snd].
  destruct (indexMap_ wl !! i) as [[[ds|] name dirty]|] eqn:E;
    try (rewrite H; cbn [fst snd]; rewrite E; apply Hrefl).
  destruct (only_dirty && negb dirty);
    [rewrite H; cbn [fst snd]; rewrite E; apply Hrefl|].
  destruct (bool_decide _); rewrite H; cbn [fst snd];
    [rewrite E; apply Hrefl|].
  cbn. rewrite lookup_insert_eq. by constructor.
Qed.

Lemma save_entry_success only_dirty id acc :
  (save_entry only_dirty id acc).1.1.1 = true -> acc.1.1.1 = true.
Proof.
  destruct acc as [[[success wl] st] w].
  pose proof (save_entry_cases only_dirty id success wl st w) as H.
  cbn zeta in H.
  destruct (indexMap_ wl !! id) as [[[ds|] name dirty]|];
    try (by rewrite H).
  destruct (only_dirty && negb dirty); [by rewrite H|].
  destruct (bool_decide _); by rewrite H.
Qed.

Lemma save_loop_frame only_dirty order acc :
  save_frame acc (foldl (fun acc id => save_entry only_dirty id acc) acc order).
Proof.
  apply (foldl_related save_frame).
  - apply save_frame_refl.
  - apply save_frame_trans.
  - intros a id _. apply save_entry_frame.
Qed.

Lemma save_loop_success only_dirty order acc :
  (foldl (fun acc id => save_entry only_dirty id acc) acc order).1.1.1 = true ->
  acc.1.1.1 = true.
Proof.
  apply (foldl_related
    (fun a b : bool * Worklist * SCPStatus * World =>
       b.1.1.1 = true -> a.1.1.1 = true)).
  - done.
  - intros a b c Hab Hbc Hc. auto.
  - intros a id _. apply save_entry_success.
Qed.

Lemma save_loop_other only_dirty order i acc :
  i ∉ order ->
  indexMap_ (foldl (fun acc id => save_entry only_dirty id acc) acc order).1.1.2
    !! i
  = indexMap_ acc.1.1.2 !! i.
Proof.
  intros Hi.
  apply (foldl_related
    (fun a b : bool * Worklist * SCPStatus * World =>
       indexMap_ b.1.1.2 !! i = indexMap_ a.1.1.2 !! i)).
  - done.
  - intros a b c Hab Hbc. congruence.
  - intros a id Hid. apply save_entry_other. intros ->. done.
Qed.

(** A saving loop that visits the key [i] once calls [saveFile] for the
    entry [i], unless the loop skips it as clean; the entry is clean
    afterwards when the write succeeds, and the loop reports failure when
    it does not. *)
Lemma save_loop_visit only_dirty order acc i ds name dirty :
  NoDup order -> i ∈ order ->
  indexMap_ acc.1.1.2 !! i = Some (mk_Item (Some ds) name dirty) ->
  only_dirty && negb dirty = false ->
  let item := mk_Item (Some ds) name dirty in
  let path := backing_path acc.1.1.2 item in
  let res := foldl (fun acc id => save_entry only_dirty id acc) acc order in
  written_between acc.2 res.2 path ds
  /\ (path ∉ w_locked acc.2 ->
      indexMap_ res.1.1.2 !! i = Some (set_dirty false item))
  /\ (path ∈ w_locked acc.2 ->
      indexMap_ res.1.1.2 !! i = Some item /\ res.1.1.1 = false).
Proof.
  revert acc. induction order as [|id order IH]; intros acc Hnd Hin Hi Hskip.
  { by apply elem_of_nil in Hin. }
  apply NoDup_cons in Hnd as [Hid Hnd]. cbn zeta. cbn [foldl].
  destruct (decide (id = i)) as [->|Hne].
  - (* the iteration for [i] itself *)
    destruct acc as [[[success wl] st] w]. cbn [fst snd] in *.
    pose proof (save_entry_cases only_dirty i success wl st w) as H.
    cbn zeta in H. rewrite Hi, Hskip in H.
    set (rest := foldl _ _ order).
    pose proof (save_loop_frame only_dirty order (save_entry only_dirty i
                  (success, wl, st, w))) as (_ & _ & calls & Hcalls).
    pose proof (save_loop_other only_dirty order i (save_entry only_dirty i
                  (success, wl, st, w)) Hid) as Hother.
    pose proof (save_loop_success only_dirty order (save_entry only_dirty i
                  (success, wl, st, w))) as Hsucc.
    fold rest in Hcalls, Hother, Hsucc.
    destruct (bool_decide _) eqn:Hlocked; rewrite H in Hcalls, Hother, Hsucc;
      cbn in Hcalls, Hother, Hsucc.
    + apply bool_decide_eq_true in Hlocked. split; [|split].
      * exists ((backing_path wl (mk_Item (Some ds) name dirty), ds) :: calls).
        split; [by rewrite Hcalls, <- app_assoc | by left].
      * done.
      * intros _. split; [by rewrite Hother|].
        destruct (rest.1.1.1); [by specialize (Hsucc eq_refl) | done].
    + apply bool_decide_eq_false in Hlocked. split; [|split].
      * exists ((backing_path wl (mk_Item (Some ds) name dirty), ds) :: calls).
        split; [by rewrite Hcalls, <- app_assoc | by left].
      * intros _. by rewrite Hother, lookup_insert_eq.
      * done.
  - (* an iteration for another key, then the rest of the loop *)
    assert (Hin' : i ∈ order).
    { apply elem_of_cons in Hin as [->|]; done. }
    pose proof (save_entry_frame only_dirty id acc) as (Hfolder & Hlock & calls & Hcalls).
    pose proof (save_entry_other only_dirty id i acc Hne) as Hother.
    specialize (IH (save_entry only_dirty id acc) Hnd Hin').
    rewrite Hother in IH. specialize (IH Hi Hskip). cbn zeta in IH.
    unfold backing_path in *. rewrite Hfolder, Hlock in IH.
    destruct IH as ((calls' & Hcalls' & Hmem) & IH2 & IH3).
    split; [|split; assumption].
    exists (calls ++ calls')%list. split.
    + by rewrite Hcalls', Hcalls, app_assoc.
    + apply elem_of_app. by right.
Qed.

(* ------------------------------------------------------------------------- *)
(** ** From the facade to the store *)

Lemma addDataset_eq v s w :
  addDataset (Some v) s w =
    let '(i, wl1, w1) := add (Some (new_dataset s w)) (datasets_ s) w in
    Returned (true, i) (leave s (serverStatus_ s) wl1) w1.
Proof.
  unfold addDataset, ScopedStatus_ctor, ScopedStatus_dtor, leave.
  cbn -[add new_dataset].
  change (new_dataset (set_serverStatus _ s) w) with (new_dataset s w).
  destruct (add _ _ _) as [[i wl1] w1]. reflexivity.
Qed.

Lemma markDatasetDirty_eq i s w :
  SCP_markDatasetDirty i s w =
    let (r, wl1) := markDatasetDirty i (datasets_ s) in
    (r, leave s (serverStatus_ s) wl1, w).
Proof.
  unfold SCP_markDatasetDirty, with_ScopedStatus, ScopedStatus_ctor,
    ScopedStatus_dtor, leave.
  cbn -[markDatasetDirty]. by destruct (markDatasetDirty _ _).
Qed.

Lemma saveDataset_eq i s w :
  saveDataset i s w =
    let '(r, wl1, st1, w1) :=
      saveDatasetInFile i (datasets_ s) (inside "Saving a dataset by index" s) w in
    (r, leave s st1 wl1, w1).
Proof.
  unfold saveDataset, with_ScopedStatus, ScopedStatus_ctor, ScopedStatus_dtor,
    leave, inside.
  cbn -[saveDatasetInFile]. by destruct (saveDatasetInFile _ _ _ _) as [[[??]?]?].
Qed.

Lemma saveAllDatasets_eq order s w :
  saveAllDatasets order s w =
    let '(r, wl1, st1, w1) :=
      saveAllDatasetsInFile order (datasets_ s) (inside "Saving all datasets" s) w in
    (r, leave s st1 wl1, w1).
Proof.
  unfold saveAllDatasets, with_ScopedStatus, ScopedStatus_ctor,
    ScopedStatus_dtor, leave, inside.
  cbn -[saveAllDatasetsInFile].
  by destruct (saveAllDatasetsInFile _ _ _ _) as [[[??]?]?].
Qed.

Lemma saveDirtyDatasets_eq order s w :
  saveDirtyDatasets order s w =
    let '(r, wl1, st1, w1) :=
      saveDirtyDatasetsInFile order (datasets_ s)
        (inside "Saving dirty datasets" s) w in
    (r, leave s st1 wl1, w1).
Proof.
  unfold saveDirtyDatasets, with_ScopedStatus, ScopedStatus_ctor,
    ScopedStatus_dtor, leave, inside.
  cbn -[saveDirtyDatasetsInFile].
  by destruct (saveDirtyDatasetsInFile _ _ _ _) as [[[??]?]?].
Qed.

Lemma loadAllDatasets_eq listing s w :
  SCP_loadAllDatasets listing s w =
    let '(r, wl1, st1, w1) :=
      loadAllDatasets listing (datasets_ s)
        (inside "Loading all datasets from file" s) w in
    (r, leave s st1 wl1, w1).
Proof.
  unfold SCP_loadAllDatasets, with_ScopedStatus, ScopedStatus_ctor,
    ScopedStatus_dtor, leave, inside.
  cbn -[loadAllDatasets]. by destruct (loadAllDatasets _ _ _ _) as [[[??]?]?].
Qed.

(** The store after a facade call is the store after that operation. *)
Lemma facade_store c s w :
  exists st1,
    datasets_ (state_after (facade c s w))
    = match worklist_op c s w with
      | Some op => (state_of (step op (datasets_ s, st1, w))).1.1
      | None => datasets_ s
      end.
Proof.
  destruct c as [f|index|i|p|i|order| | | |i|order|i|order|listing];
    cbn [facade worklist_op step].
  - exists (serverStatus_ s). reflexivity.
  - exists (serverStatus_ s). destruct index as [v|].
    + rewrite addDataset_eq. by destruct (add _ _ _) as [[??]?].
    + unfold addDataset, ScopedStatus_ctor. cbn -[add new_dataset].
      change (new_dataset (set_serverStatus _ s) w) with (new_dataset s w).
      by destruct (add _ _ _) as [[??]?].
  - exists (serverStatus_ s). rewrite deleteDataset_eq.
    by destruct (remove _ _ _) as [[[??]?]|].
  - exists (serverStatus_ s). by destruct p.
  - exists (serverStatus_ s). reflexivity.
  - exists (inside "Clearing the list" s). rewrite clearAllDatasets_eq.
    by destruct (clear _ _ _ _) as [[[??]?]|[[??]?]].
  - exists (serverStatus_ s). rewrite start_eq.
    destruct (isRunning_ _); [done|]. by destruct (good _).
  - exists (serverStatus_ s). rewrite stop_eq. by destruct (isRunning_ _).
  - exists (serverStatus_ s). reflexivity.
  - exists (serverStatus_ s). rewrite markDatasetDirty_eq.
    by destruct (markDatasetDirty _ _).
  - exists (inside "Saving dirty datasets" s). rewrite saveDirtyDatasets_eq.
    by destruct (saveDirtyDatasetsInFile _ _ _ _) as [[[??]?]?].
  - exists (inside "Saving a dataset by index" s). rewrite saveDataset_eq.
    by destruct (saveDatasetInFile _ _ _ _) as [[[??]?]?].
  - exists (inside "Saving all datasets" s). rewrite saveAllDatasets_eq.
    by destruct (saveAllDatasetsInFile _ _ _ _) as [[[??]?]?].
  - exists (inside "Loading all datasets from file" s).
    rewrite loadAllDatasets_eq.
    by destruct (loadAllDatasets _ _ _ _) as [[[??]?]?].
Qed.

Lemma insert_datasets_present index item wl wl1 :
  indexMap_ wl1 = indexMap_ wl ->
  is_Some (dataset_ item) -> datasets_present wl ->
  datasets_present (set_indexMap (<[index := item]> (indexMap_ wl1)) wl1).
Proof.
  intros Hmap Hitem Hwl i it. cbn. rewrite Hmap, lookup_insert.
  case_decide; [by intros [= <-] | apply Hwl].
Qed.

Lemma store_new_datasets_present item wl :
  is_Some (dataset_ item) -> datasets_present wl ->
  datasets_present (store_new item wl).2.
Proof.
  intros Hitem Hwl. unfold store_new.
  pose proof (getFreeIndex_sets wl) as H.
  destruct (getFreeIndex wl) as [index wl1]. destruct H as (Hmap & _).
  by apply (insert_datasets_present _ _ wl).
Qed.

Lemma save_entry_datasets_present only_dirty id acc :
  datasets_present acc.1.1.2 ->
  datasets_present (save_entry only_dirty id acc).1.1.2.
Proof.
  intros Hwl i item Hi.
  pose proof (save_entry_same_record only_dirty id i acc) as H.
  rewrite Hi in H. inversion H as [a b [Hds _] Ha Hb|]; subst.
  rewrite Hds. eapply Hwl. symmetry. eassumption.
Qed.

Lemma step_datasets_present op c :
  match op with op_add None => False | _ => True end ->
  datasets_present c.1.1 -> datasets_present (state_of (step op c)).1.1.
Proof.
  destruct c as [[wl st] w]. cbn [fst snd]. intros Hop Hwl.
  destruct op as [ds|i|listing|order|i|i|order|order]; cbn [step].
  - destruct ds as [ds|]; [|done].
    pose proof (add_store_new (Some ds) wl w) as [H _].
    destruct (add (Some ds) wl w) as [[i wl1] w1]. cbn in H. subst wl1.
    cbn [fst snd]. apply store_new_datasets_present; [by eexists | done].
  - rewrite remove_cases.
    destruct (indexMap_ wl !! i) as [item|] eqn:E; [|done].
    destruct (bool_decide _); [done|].
    intros j it. cbn. rewrite lookup_delete.
    case_decide; [done | apply Hwl].
  - unfold loadAllDatasets.
    pose proof (foldl_invariant
      (fun a : Z * Worklist * SCPStatus * World => datasets_present a.1.1.2)
      (fun acc entry => load_entry entry acc) listing (0, wl, st, w) Hwl) as H.
    destruct (foldl _ _ listing) as [[[n wl1] st1] w1]. apply H.
    intros [[[k a_wl] a_st] a_w] e _ Ha. cbn [fst snd] in *. unfold load_entry.
    destruct (de_is_regular_file e); [|done].
    destruct (loadFile _ _) as [ds|]; [|done].
    pose proof (store_new_datasets_present
      (mk_Item (Some ds) (de_filename e) false) a_wl ltac:(by eexists) Ha) as H'.
    unfold store_new in H'. by destruct (getFreeIndex a_wl).
  - pose proof (clear_store order wl st w) as H.
    destruct (clear order wl st w) as [cfg|cfg]; cbn [state_of]; rewrite H;
      [|done].
    intros j it. cbn. by rewrite lookup_empty.
  - unfold markDatasetDirty, Worklist_at.
    destruct (indexMap_ wl !! i) as [item|] eqn:E; [|done].
    apply (insert_datasets_present _ _ wl); [done| |done].
    cbn. by eapply Hwl.
  - unfold saveDatasetInFile, Worklist_at.
    destruct (indexMap_ wl !! i) as [item|] eqn:E; [|done].
    destruct (dataset_ item) as [ds|] eqn:Eds; [|done].
    destruct (saveFile _ _ _) as [status w1]. destruct (good status); [|done].
    apply (insert_datasets_present _ _ wl); [done| |done].
    cbn. rewrite Eds. by eexists.
  - unfold saveAllDatasetsInFile.
    pose proof (foldl_invariant
      (fun a : bool * Worklist * SCPStatus * World => datasets_present a.1.1.2)
      (fun acc id => save_entry false id acc) order (true, wl, st, w) Hwl) as H.
    destruct (foldl _ _ order) as [[[r wl1] st1] w1]. apply H.
    intros a id _. apply save_entry_datasets_present.
  - unfold saveDirtyDatasetsInFile.
    pose proof (foldl_invariant
      (fun a : bool * Worklist * SCPStatus * World => datasets_present a.1.1.2)
      (fun acc id => save_entry true id acc) order (true, wl, st, w) Hwl) as H.
    destruct (foldl _ _ order) as [[[r wl1] st1] w1]. apply H.
    intros a id _. apply save_entry_datasets_present.
Qed.

Lemma facade_datasets_present c s w :
  datasets_present (datasets_ s) ->
  datasets_present (datasets_ (state_after (facade c s w))).
Proof.
  intros Hwl. destruct (facade_store c s w) as [st1 ->].
  destruct (worklist_op c s w) as [op|] eqn:E; [|done].
  apply (step_datasets_present op (datasets_ s, st1, w)); [|done].
  destruct c; cbn in E; try discriminate; by injection E as <-.
Qed.

(** The constructor by cases: it throws, or it returns what loading into
    the members as initialised returns, in the world with the folder. *)
Lemma SCP_ctor_cases listing w :
  let s0 := mk_SCP "" SCPStatus_default Worklist_empty in
  SCP_ctor listing w =
    if folder_usable w
    then Returned tt (SCP_loadAllDatasets listing s0 (with_folder w)).1.2
                     (SCP_loadAllDatasets listing s0 (with_folder w)).2
    else FilesystemError s0 w.
Proof.
  cbn zeta. unfold SCP_ctor, fs_exists, fs_create_directories, fs_is_directory,
    folder_usable, with_folder.
  cbn [datasets_ dataFolder_ Worklist_empty].
  destruct (w_fs w !! "./worklist/") as [node|] eqn:E.
  - rewrite bool_decide_eq_true_2 by eauto. cbn [negb]. rewrite E.
    destruct node; [done|done|].
    by destruct (SCP_loadAllDatasets _ _ _) as [[??]?].
  - rewrite bool_decide_eq_false_2 by (by intros [??]). cbn [negb].
    destruct (decide ("./worklist/" ∈ w_locked w)) as [Hl|Hl].
    + rewrite bool_decide_eq_true_2 by done.
      by rewrite bool_decide_eq_false_2 by auto.
    + rewrite bool_decide_eq_false_2 by done.
      rewrite bool_decide_eq_true_2 by done.
      cbn [w_fs set_fs]. rewrite lookup_insert_eq.
      by destruct (SCP_loadAllDatasets _ _ _) as [[??]?].
Qed.

Lemma SCP_ctor_facade listing w s w' :
  SCP_ctor listing w = Returned tt s w' ->
  exists w1,
    s = state_after (facade (call_loadAllDatasets listing)
                       (mk_SCP "" SCPStatus_default Worklist_empty) w1).
Proof.
  rewrite SCP_ctor_cases. cbn zeta. destruct (folder_usable w); [|done].
  intros [= <- <-]. exists (with_folder w). cbn [facade].
  by destruct (SCP_loadAllDatasets _ _ _) as [[??]?].
Qed.

(** In every state the server can be in, every entry holds a data set. *)
Lemma reachable_datasets_present s w :
  reachable s w -> datasets_present (datasets_ s).
Proof.
  induction 1 as [listing w s w' Hctor|c s w r s' w' _ IH Hcall
                  |msg presInfo s w _ IH|s w w' _ IH].
  - destruct (SCP_ctor_facade listing w s w' Hctor) as [w1 ->].
    apply facade_datasets_present. intros i item. cbn. by rewrite lookup_empty.
  - pose proof (facade_datasets_present c s w IH) as H.
    by rewrite Hcall in H.
  - destruct msg as [[request|rsp|field]|]; exact IH.
  - exact IH.
Qed.

Lemma visits_NoDup m order : visits m order -> NoDup order.
Proof. unfold visits. intros ->. apply NoDup_elements. Qed.

Lemma visits_elem m order i : visits m order -> i ∈ order <-> is_Some (m !! i).
Proof. unfold visits. intros ->. by rewrite elem_of_elements, elem_of_dom. Qed.

(** [elements (dom m)] is one order in which a loop may visit the keys. *)
Lemma visits_elements m : visits m (elements (dom m)).
Proof. unfold visits. reflexivity. Qed.

Lemma set_dirty_false_clean item : dirty_ item = false -> set_dirty false item = item.
Proof. destruct item as [ds name dirty]. cbn. by intros ->. Qed.

(** The loop of [saveDirtyDatasetsInFile] leaves a clean entry as it is. *)
Lemma save_dirty_entry_keeps_clean id i item acc :
  indexMap_ acc.1.1.2 !! i = Some item -> dirty_ item = false ->
  indexMap_ (save_entry true id acc).1.1.2 !! i = Some item.
Proof.
  intros Hi Hclean. destruct (decide (id = i)) as [->|Hne];
    [|by rewrite save_entry_other].
  destruct acc as [[[success wl] st] w]. cbn [fst snd] in *.
  unfold save_entry. rewrite Hi.
  destruct (dataset_ item) as [ds|]; [|exact Hi].
  rewrite Hclean. exact Hi.
Qed.

Lemma save_dirty_loop_keeps_clean order i item acc :
  indexMap_ acc.1.1.2 !! i = Some item -> dirty_ item = false ->
  indexMap_ (foldl (fun acc id => save_entry true id acc) acc order).1.1.2 !! i
  = Some item.
Proof.
  intros Hi Hclean.
  apply (foldl_invariant
    (fun a : bool * Worklist * SCPStatus * World =>
       indexMap_ a.1.1.2 !! i = Some item)); [done|].
  intros a id _ Ha. by apply save_dirty_entry_keeps_clean.
Qed.

(** After a saving loop over all keys, an entry whose file can be written
    is clean. *)
Lemma save_loop_cleans only_dirty order success wl st w i item :
  visits (indexMap_ wl) order -> is_Some (dataset_ item) ->
  indexMap_ wl !! i = Some item ->
  backing_path wl item ∉ w_locked w ->
  indexMap_
    (foldl (fun acc id => save_entry only_dirty id acc) (success, wl, st, w) order)
    .1.1.2 !! i
  = Some (set_dirty false item).
Proof.
  intros Hvisits [ds Hds] Hi Hpath.
  destruct item as [ds' name dirty]. cbn in Hds. subst ds'.
  destruct (only_dirty && negb dirty) eqn:Hskip.
  - apply andb_true_iff in Hskip as [-> Hd]. apply negb_true_iff in Hd. subst.
    by apply save_dirty_loop_keeps_clean.
  - apply (save_loop_visit only_dirty order (success, wl, st, w) i ds name dirty);
      [by eapply visits_NoDup | eapply visits_elem; eauto | done | done | done].
Qed.

(** A saving loop over all keys that reports success leaves every entry it
    does not skip clean. *)
Lemma save_loop_success_cleans only_dirty order wl st w i item' :
  visits (indexMap_ wl) order -> datasets_present wl ->
  let res :=
    foldl (fun acc id => save_entry only_dirty id acc) (true, wl, st, w) order in
  res.1.1.1 = true -> indexMap_ res.1.1.2 !! i = Some item' ->
  dirty_ item' = false.
Proof.
  intros Hvisits Hpresent res Hsucc Hi'.
  pose proof (save_loop_same_indices only_dirty order (true, wl, st, w)) as [Hdom _].
  fold res in Hdom. cbn [fst snd] in Hdom.
  assert (Hin : is_Some (indexMap_ wl !! i)).
  { apply elem_of_dom. rewrite <- Hdom. apply elem_of_dom. eauto. }
  destruct Hin as [item Hi]. destruct (Hpresent i item Hi) as [ds Hds].
  destruct item as [ds' name dirty]. cbn in Hds. subst ds'.
  destruct (only_dirty && negb dirty) eqn:Hskip.
  - apply andb_true_iff in Hskip as [-> Hd]. apply negb_true_iff in Hd. subst.
    pose proof (save_dirty_loop_keeps_clean order i _ (true, wl, st, w) Hi eq_refl)
      as H.
    fold res in H. rewrite H in Hi'. by injection Hi' as <-.
  - pose proof (save_loop_visit only_dirty order (true, wl, st, w) i ds name dirty
      (visits_NoDup _ _ Hvisits) (proj2 (visits_elem _ _ i Hvisits) (mk_is_Some _ _ Hi))
      Hi Hskip) as (_ & Hgood & Hbad).
    cbn zeta in Hgood, Hbad. fold res in Hgood, Hbad. cbn [fst snd] in Hgood, Hbad.
    destruct (decide (backing_path wl (mk_Item (Some ds) name dirty) ∈ w_locked w))
      as [Hlocked|Hfree].
    + destruct (Hbad Hlocked) as [_ Hfalse]. congruence.
    + rewrite (Hgood Hfree) in Hi'. by injection Hi' as <-.
Qed.

Lemma add_entry_dirty dataset wl w :
  indexMap_ (add dataset wl w).1.2 !! (add dataset wl w).1.1
  = Some (mk_Item dataset (newFileName "dataset" w).1 true).
Proof.
  unfold add. destruct (newFileName "dataset" w) as [name w1].
  destruct (getFreeIndex wl) as [index wl1]. cbn. apply lookup_insert_eq.
Qed.

Lemma saveDatasetInFile_success index wl st w :
  (saveDatasetInFile index wl st w).1.1.1 = true ->
  exists item,
    indexMap_ (saveDatasetInFile index wl st w).1.1.2 !! index = Some item
    /\ dirty_ item = false.
Proof.
  unfold saveDatasetInFile, Worklist_at.
  destruct (indexMap_ wl !! index) as [item|]; [|discriminate].
  destruct (dataset_ item) as [ds|]; [|discriminate].
  destruct (saveFile _ _ _) as [status w1].
  destruct (good status); [|discriminate].
  intros _. exists (set_dirty false item). cbn. by rewrite lookup_insert_eq.
Qed.

(** C3. The dirty flag through the life of an entry.  In every state the
    server can be in: [addDataset] returns true and the entry at the index
    it hands out is dirty; when [saveDataset(i)] returns true the entry [i]
    is clean; after [saveAllDatasets] and after [saveDirtyDatasets] every
    entry whose file can be written is clean, and when they return true
    every entry is; [markDatasetDirty(i)] on a present index returns true
    and leaves the entry dirty, and a following [saveDirtyDatasets], in
    whatever world, calls [saveFile] on that entry's path with its data
    set. *)
Theorem dirty_flag_lifecycle (s : DICOMWorklistSCP) (w : World) :
  reachable s w ->
  (forall v, exists i s' w' item,
     addDataset (Some v) s w = Returned (true, i) s' w'
     /\ entry s' i = Some item /\ dirty_ item = true)
  /\ (forall i,
        (saveDataset i s w).1.1 = true ->
        exists item,
          entry (saveDataset i s w).1.2 i = Some item /\ dirty_ item = false)
  /\ (forall order i item,
        visits (indexMap_ (datasets_ s)) order ->
        entry s i = Some item ->
        backing_path (datasets_ s) item ∉ w_locked w ->
        entry (saveAllDatasets order s w).1.2 i = Some (set_dirty false item)
        /\ entry (saveDirtyDatasets order s w).1.2 i
           = Some (set_dirty false item))
  /\ (forall order i item',
        visits (indexMap_ (datasets_ s)) order ->
        ((saveAllDatasets order s w).1.1 = true ->
         entry (saveAllDatasets order s w).1.2 i = Some item' ->
         dirty_ item' = false)
        /\ ((saveDirtyDatasets order s w).1.1 = true ->
            entry (saveDirtyDatasets order s w).1.2 i = Some item' ->
            dirty_ item' = false))
  /\ (forall i item,
        entry s i = Some item ->
        exists s1,
          SCP_markDatasetDirty i s w = (true, s1, w)
          /\ entry s1 i = Some (set_dirty true item)
          /\ forall order w2,
               visits (indexMap_ (datasets_ s1)) order ->
               exists ds,
                 dataset_ item = Some ds
                 /\ written_between w2 (saveDirtyDatasets order s1 w2).2
                      (backing_path (datasets_ s) item) ds).
Proof.
  intros Hreach. pose proof (reachable_datasets_present s w Hreach) as Hpresent.
  unfold entry. repeat apply conj.
  - intros v. rewrite addDataset_eq.
    pose proof (add_entry_dirty (Some (new_dataset s w)) (datasets_ s) w) as H.
    destruct (add _ _ _) as [[i wl1] w1]. cbn [fst snd] in H.
    eexists i, _, w1, _. split; [reflexivity|]. split; [exact H | reflexivity].
  - intros i. rewrite saveDataset_eq.
    pose proof (saveDatasetInFile_success i (datasets_ s)
                  (inside "Saving a dataset by index" s) w) as H.
    destruct (saveDatasetInFile _ _ _ _) as [[[r wl1] st1] w1]. exact H.
  - intros order i item Hvisits Hi Hpath.
    rewrite saveAllDatasets_eq, saveDirtyDatasets_eq.
    pose proof (save_loop_cleans false order true (datasets_ s)
      (inside "Saving all datasets" s) w i item Hvisits (Hpresent i item Hi)
      Hi Hpath) as Hall.
    pose proof (save_loop_cleans true order true (datasets_ s)
      (inside "Saving dirty datasets" s) w i item Hvisits (Hpresent i item Hi)
      Hi Hpath) as Hdirty.
    unfold saveAllDatasetsInFile, saveDirtyDatasetsInFile.
    destruct (foldl (fun acc id => save_entry false id acc) _ order)
      as [[[r wl1] st1] w1].
    destruct (foldl (fun acc id => save_entry true id acc) _ order)
      as [[[r' wl1'] st1'] w1'].
    split; assumption.
  - intros order i item' Hvisits.
    rewrite saveAllDatasets_eq, saveDirtyDatasets_eq.
    pose proof (save_loop_success_cleans false order (datasets_ s)
      (inside "Saving all datasets" s) w i item' Hvisits Hpresent) as Hall.
    pose proof (save_loop_success_cleans true order (datasets_ s)
      (inside "Saving dirty datasets" s) w i item' Hvisits Hpresent) as Hdirty.
    cbn zeta in Hall, Hdirty.
    unfold saveAllDatasetsInFile, saveDirtyDatasetsInFile.
    destruct (foldl (fun acc id => save_entry false id acc) _ order)
      as [[[r wl1] st1] w1].
    destruct (foldl (fun acc id => save_entry true id acc) _ order)
      as [[[r' wl1'] st1'] w1'].
    split; assumption.
  - intros i item Hi. rewrite markDatasetDirty_eq.
    unfold markDatasetDirty, Worklist_at. rewrite Hi.
    eexists. split; [reflexivity|]. cbn [datasets_ leave indexMap_ set_indexMap].
    split; [by rewrite lookup_insert_eq|].
    intros order w2 Hvisits. destruct (Hpresent i item Hi) as [ds Hds].
    exists ds. split; [exact Hds|].
    rewrite saveDirtyDatasets_eq. unfold saveDirtyDatasetsInFile.
    cbn [datasets_ leave].
    destruct item as [ds' name dirty]. cbn in Hds. subst ds'.
    pose proof (save_loop_visit true order
      (true,
       set_indexMap (<[i := set_dirty true (mk_Item (Some ds) name dirty)]>
                       (indexMap_ (datasets_ s))) (datasets_ s),
       inside "Saving dirty datasets"
         (leave s (serverStatus_ s)
            (set_indexMap (<[i := set_dirty true (mk_Item (Some ds) name dirty)]>
                             (indexMap_ (datasets_ s))) (datasets_ s))),
       w2) i ds name true
      (visits_NoDup _ _ Hvisits)) as H.
    cbn [fst snd indexMap_ set_indexMap] in H.
    rewrite lookup_insert_eq in H.
    specialize (H (proj2 (visits_elem _ _ i Hvisits)
                         ltac:(cbn; rewrite lookup_insert_eq; by eexists))
                  eq_refl eq_refl).
    cbn zeta in H. destruct H as [H _].
    destruct (foldl _ _ order) as [[[r wl1] st1] w1]. exact H.
Qed.

Lemma one_entry_server_reachable : reachable one_entry_server idle_world.
Proof.
  eapply (reach_world _ (world_after (facade (call_addDataset (Some 0))
                                        idle_server idle_world))).
  eapply (reach_call (call_addDataset (Some 0)) idle_server idle_world).
  - by apply (reach_ctor [] example_world).
  - reflexivity.
Qed.

Lemma dirty_flag_lifecycle_witness :
  exists i s' w' item,
    addDataset (Some 7) one_entry_server idle_world = Returned (true, i) s' w'
    /\ entry s' i = Some item /\ dirty_ item = true.
Proof.
  apply (proj1 (dirty_flag_lifecycle one_entry_server idle_world
                  one_entry_server_reachable) 7).
Defined.

(* ------------------------------------------------------------------------- *)
(** ** What [saveDirtyDatasets] leaves alone *)

(** [saveDirtyDatasetsInFile] leaves every clean entry as it is: record,
    file name and dirty flag. *)
Lemma saveDirtyDatasetsInFile_keeps_clean_entries order wl st w i item :
  indexMap_ wl !! i = Some item -> dirty_ item = false ->
  indexMap_ (saveDirtyDatasetsInFile order wl st w).1.1.2 !! i = Some item.
Proof.
  intros Hi Hclean. unfold saveDirtyDatasetsInFile.
  by apply (save_dirty_loop_keeps_clean order i item (true, wl, st, w)).
Qed.

(** [saveDirtyDatasetsInFile] leaves a file alone when no dirty entry is
    backed by it. *)
Lemma saveDirtyDatasetsInFile_keeps_file order wl st w path :
  no_dirty_entry_at path wl ->
  w_fs (saveDirtyDatasetsInFile order wl st w).2 !! path = w_fs w !! path.
Proof.
  intros Hno. unfold saveDirtyDatasetsInFile.
  apply (foldl_invariant
    (fun a : bool * Worklist * SCPStatus * World =>
       no_dirty_entry_at path a.1.1.2 /\ w_fs a.2 !! path = w_fs w !! path));
    [done|].
  intros [[[success a_wl] a_st] a_w] id _ [Ha Hfs]. cbn [fst snd] in *.
  pose proof (save_entry_cases true id success a_wl a_st a_w) as H.
  cbn zeta in H.
  destruct (indexMap_ a_wl !! id) as [[[ds|] name dirty]|] eqn:E;
    try (by rewrite H).
  destruct dirty; cbn [andb negb] in H; [|by rewrite H].
  destruct (bool_decide _); rewrite H; cbn [fst snd]; [done|].
  split.
  - intros j item. cbn. rewrite lookup_insert. case_decide as Hj.
    + by intros [= <-].
    + apply Ha.
  - cbn. rewrite lookup_insert_ne; [done|].
    apply (Ha id _ E); [done | by eexists].
Qed.

(** [saveDirtyDatasetsInFile] returns true exactly when the file of every
    entry it does not skip can be written. *)
Lemma saveDirtyDatasetsInFile_result order wl st w :
  visits (indexMap_ wl) order ->
  (saveDirtyDatasetsInFile order wl st w).1.1.1 = true
  <-> (forall i item,
         indexMap_ wl !! i = Some item -> dirty_ item = true ->
         is_Some (dataset_ item) -> backing_path wl item ∉ w_locked w).
Proof.
  intros Hvisits. unfold saveDirtyDatasetsInFile. split.
  - intros Hsucc i [ds' name dirty] Hi Hdirty [ds Hds] Hlocked.
    cbn in Hdirty, Hds. subst.
    pose proof (save_loop_visit true order (true, wl, st, w) i ds name true
      (visits_NoDup _ _ Hvisits)
      (proj2 (visits_elem _ _ i Hvisits) (mk_is_Some _ _ Hi)) Hi eq_refl)
      as (_ & _ & Hbad).
    destruct (Hbad Hlocked) as [_ Hfalse]. congruence.
  - intros Hall.
    apply (foldl_invariant
      (fun a : bool * Worklist * SCPStatus * World =>
         a.1.1.1 = true /\ w_locked a.2 = w_locked w
         /\ dataFolder_ a.1.1.2 = dataFolder_ wl
         /\ forall i item,
              indexMap_ a.1.1.2 !! i = Some item -> dirty_ item = true ->
              is_Some (dataset_ item) ->
              dataFolder_ wl +:+ fileName_ item ∉ w_locked w)); [by auto|].
    intros [[[success a_wl] a_st] a_w] id _ (Hs & Hl & Hf & Ha).
    cbn [fst snd] in *.
    pose proof (save_entry_cases true id success a_wl a_st a_w) as H.
    cbn zeta in H.
    destruct (indexMap_ a_wl !! id) as [[[ds|] name dirty]|] eqn:E;
      try (rewrite H; by auto).
    destruct dirty; cbn [andb negb] in H; [|rewrite H; by auto].
    unfold backing_path in H. rewrite Hf, Hl in H. cbn [fileName_] in H.
    rewrite bool_decide_eq_false_2 in H
      by (apply (Ha id _ E); [done | by eexists]).
    rewrite H. cbn [fst snd]. repeat split; try done.
    intros j item. cbn. rewrite lookup_insert. case_decide as Hj.
    + by intros [= <-].
    + apply Ha.
Qed.

(** C4, where the code departs from it.  After [same_millisecond_run] the
    entry 0 is clean and its backing file holds its (empty) data set; the
    dirty entry 1 has the same file name.  [saveDirtyDatasets], in either
    order of the two keys, returns true and leaves the entry 0 as it is,
    but writes the data set of entry 1 to that file: the backing file of a
    clean entry has changed. *)
Theorem saveDirtyDatasets_overwrites_file_of_clean_entry :
  let (s, w) := same_millisecond_run in
  entry s 0 = Some (mk_Item (Some []) shared_name false)
  /\ entry s 1
     = Some (mk_Item (Some [(1048592, "DOE^JOHN")]) shared_name true)
  /\ w_fs w !! ("./worklist/" +:+ shared_name) = Some (DicomFile [])
  /\ forall order, order = [0; 1] \/ order = [1; 0] ->
       let '(r, s', w') := saveDirtyDatasets order s w in
       r = true
       /\ entry s' 0 = Some (mk_Item (Some []) shared_name false)
       /\ w_fs w' !! ("./worklist/" +:+ shared_name)
          = Some (DicomFile [(1048592, "DOE^JOHN")])
       /\ w_writes w'
          = (w_writes w
             ++ [("./worklist/" +:+ shared_name, [(1048592, "DOE^JOHN")])])%list.
Proof.
  vm_compute. repeat split; try reflexivity.
  all: intros order [-> | ->]; vm_compute; repeat split; reflexivity.
Qed.

(* ========================================================================= *)
(** * Further properties of the code *)

(* ------------------------------------------------------------------------- *)
(** ** Unknown indices and lookups *)

Lemma leave_same (s : DICOMWorklistSCP) :
  leave s (serverStatus_ s) (datasets_ s) = s.
Proof. by destruct s as [tf [run rc txt errs] wl]. Qed.

Lemma getDataset_eq i s w :
  getDataset i s w
  = (match entry s i with Some it => dataset_ it | None => None end, s, w).
Proof.
  unfold getDataset, with_ScopedStatus, ScopedStatus_ctor, ScopedStatus_dtor,
    entry, Worklist_at.
  cbn. by destruct s as [tf [run rc txt errs] wl].
Qed.

Lemma getDatasetCount_eq v s w :
  getDatasetCount (Some v) s w = ((true, Some (count (datasets_ s))), s, w).
Proof.
  unfold getDatasetCount, with_ScopedStatus, ScopedStatus_ctor, ScopedStatus_dtor.
  cbn -[count]. by destruct s as [tf [run rc txt errs] wl].
Qed.

(** X1. An index that is not in the store: [deleteDataset], [markDatasetDirty]
    and [saveDataset] return false, [getDataset] returns a null pointer,
    and each leaves the server (store, status, error log) and the world
    exactly as they were. *)
Theorem unknown_index_is_a_silent_no_op (i : Z) (s : DICOMWorklistSCP) (w : World) :
  entry s i = None ->
  deleteDataset i s w = Returned false s w
  /\ SCP_markDatasetDirty i s w = (false, s, w)
  /\ saveDataset i s w = (false, s, w)
  /\ getDataset i s w = (None, s, w).
Proof.
  unfold entry. intros Hi. repeat apply conj.
  - rewrite deleteDataset_eq, remove_cases, Hi. by rewrite leave_same.
  - rewrite markDatasetDirty_eq. unfold markDatasetDirty, Worklist_at.
    rewrite Hi. by rewrite leave_same.
  - rewrite saveDataset_eq. unfold saveDatasetInFile, Worklist_at. rewrite Hi.
    unfold leave, inside. by destruct s as [tf [run rc txt errs] wl].
  - rewrite getDataset_eq. unfold entry. by rewrite Hi.
Qed.

Lemma unknown_index_is_a_silent_no_op_witness :
  deleteDataset 5 one_entry_server idle_world
  = Returned false one_entry_server idle_world
  /\ SCP_markDatasetDirty 5 one_entry_server idle_world
     = (false, one_entry_server, idle_world)
  /\ saveDataset 5 one_entry_server idle_world = (false, one_entry_server, idle_world)
  /\ getDataset 5 one_entry_server idle_world = (None, one_entry_server, idle_world).
Proof.
  apply (unknown_index_is_a_silent_no_op 5 one_entry_server idle_world).
  reflexivity.
Defined.

(* ------------------------------------------------------------------------- *)
(** ** Removing, adding and looking up *)



(** X3. The template and the round trip through the store.  [setTemplateFile]
    returns whether the file exists and records the name in any case.  A
    following [addDataset] never fails: it returns true and an index under
    which [getDataset] finds the new data set, which is a copy of the
    template when the name is not empty and the file parses, and the empty
    data set otherwise (missing or unparsable template). *)
Theorem template_add_get_round_trip
    (f : string) (v : Z) (s : DICOMWorklistSCP) (w : World) :
  let '(found, s1, w1) := setTemplateFile f s w in
  found = fs_exists f w /\ templateFile_ s1 = f /\ w1 = w
  /\ datasets_ s1 = datasets_ s
  /\ exists i s2 w2,
       addDataset (Some v) s1 w1 = Returned (true, i) s2 w2
       /\ (getDataset i s2 w2).1.1
          = Some (if bool_decide (f = "") then []
                  else match loadFile f w with Some ds => ds | None => [] end)
       /\ exists item, entry s2 i = Some item /\ dirty_ item = true.
Proof.
  unfold setTemplateFile, with_ScopedStatus, ScopedStatus_ctor, ScopedStatus_dtor.
  cbn -[fs_exists addDataset getDataset entry]. repeat split.
  rewrite addDataset_eq.
  match goal with |- context [add ?d ?wl ?w0] =>
    pose proof (add_entry_dirty d wl w0) as H;
    destruct (add d wl w0) as [[i wl1] w1] end.
  cbn [fst snd] in H. eexists i, _, w1. split; [reflexivity|].
  rewrite getDataset_eq. unfold entry. cbn [fst datasets_ leave].
  rewrite H. cbn [dataset_]. split.
  - unfold new_dataset. cbn [templateFile_]. reflexivity.
  - eexists. split; reflexivity.
Qed.

(* ------------------------------------------------------------------------- *)
(** ** Clearing *)

(** One iteration of the loop of [Worklist::clear], by cases: it throws
    when the backing file is on disk and cannot be deleted; otherwise the
    file is gone and the status is as before (the removal of a file found
    on disk does not answer false, so nothing is logged). *)
Lemma clear_entry_cases wl id st w :
  clear_entry wl id (st, w) =
    match indexMap_ wl !! id with
    | None => Some (st, w)
    | Some item =>
        if bool_decide (is_Some (w_fs w !! backing_path wl item)
                        /\ backing_path wl item ∈ w_locked w)
        then None
        else Some (st, set_fs (delete (backing_path wl item) (w_fs w)) w)
    end.
Proof.
  unfold clear_entry, backing_path.
  destruct (indexMap_ wl !! id) as [item|]; [|done].
  cbn zeta. set (path := dataFolder_ wl +:+ fileName_ item).
  unfold fs_exists, fs_remove.
  destruct (w_fs w !! path) as [node|] eqn:E.
  - rewrite bool_decide_eq_true_2 by eauto.
    destruct (decide (path ∈ w_locked w)) as [Hl|Hl].
    + by rewrite !bool_decide_eq_true_2 by eauto.
    + rewrite !bool_decide_eq_false_2; [done | by intros [_ ?] | done].
  - rewrite bool_decide_eq_false_2 by (by intros [? ?]).
    rewrite bool_decide_eq_false_2 by (by intros [[? ?] _]).
    do 2 f_equal. destruct w. unfold set_fs. cbn in *. f_equal.
    by rewrite delete_id.
Qed.


(** The loop is left by a throw, at the latest at the key [i], when the
    backing file of the entry [i] is on disk and cannot be deleted.  The
    status is as before, and so is that file. *)
Lemma clear_loop_throws wl order st w i item :
  i ∈ order -> indexMap_ wl !! i = Some item ->
  is_Some (w_fs w !! backing_path wl item) ->
  backing_path wl item ∈ w_locked w ->
  exists w',
    clear_loop wl order (st, w) = throws (st, w')
    /\ w_locked w' = w_locked w
    /\ w_fs w' !! backing_path wl item = w_fs w !! backing_path wl item.
Proof.
  revert w. induction order as [|id order IH]; intros w Hin Hi Hex Hlocked.
  { by apply elem_of_nil in Hin. }
  cbn [clear_loop]. rewrite clear_entry_cases.
  destruct (indexMap_ wl !! id) as [item'|] eqn:E.
  - case_bool_decide as Hthrow; [by exists w|].
    assert (Hne : backing_path wl item' <> backing_path wl item).
    { intros Heq. apply Hthrow. by rewrite Heq. }
    assert (Hin' : i ∈ order).
    { apply elem_of_cons in Hin as [->|]; [|done].
      rewrite E in Hi. by injection Hi as ->. }
    destruct (IH (set_fs (delete (backing_path wl item') (w_fs w)) w) Hin' Hi)
      as (w' & Hloop & Hl & Hfs).
    + cbn. by rewrite lookup_delete_ne.
    + done.
    + exists w'. split; [exact Hloop|]. split; [exact Hl|].
      rewrite Hfs. cbn. by rewrite lookup_delete_ne.
  - assert (Hin' : i ∈ order).
    { apply elem_of_cons in Hin as [->|]; [congruence | done]. }
    by apply IH.
Qed.



(* ------------------------------------------------------------------------- *)
(** ** Loading *)

Lemma string_app_assoc (a b c : string) : (a +:+ b) +:+ c = a +:+ (b +:+ c).
Proof.
  induction a as [|x a IH]; [done|].
  change (String x ((a +:+ b) +:+ c) = String x (a +:+ (b +:+ c))).
  by f_equal.
Qed.

Lemma string_app_nil_r (a : string) : a +:+ "" = a.
Proof.
  induction a as [|x a IH]; [done|].
  change (String x (a +:+ "") = String x a). by f_equal.
Qed.

(** What [loadAllDatasets] makes of a directory entry depends on the data
    folder and on the files only. *)
Lemma loaded_item_ext wl wl' w w' e :
  dataFolder_ wl' = dataFolder_ wl -> w_fs w' = w_fs w ->
  loaded_item wl' w' e = loaded_item wl w e.
Proof. unfold loaded_item, loadFile. by intros -> ->. Qed.

(** One iteration of the loading loop, through [loaded_item]. *)
Lemma load_entry_cases e n wl st w :
  match loaded_item wl w e with
  | Some item =>
      load_entry e (n, wl, st, w) = (int_incr n, (store_new item wl).2, st, w)
  | None =>
      if de_is_regular_file e then
        load_entry e (n, wl, st, w)
        = (n, wl,
           (error ("[Worklist] Failed to load: " +:+ de_filename e) st w).1,
           (error ("[Worklist] Failed to load: " +:+ de_filename e) st w).2)
      else load_entry e (n, wl, st, w) = (n, wl, st, w)
  end.
Proof.
  unfold loaded_item, load_entry, store_new.
  destruct (de_is_regular_file e); [|done].
  destruct (loadFile _ _) as [ds|]; [|done].
  by destruct (getFreeIndex wl).
Qed.

(** Storing into a store whose indices are [0 .. m-1], none of them free:
    the new entry gets the index [m]. *)
Lemma store_new_dense item wl m :
  freeIndexes_ wl = ∅ -> dom (indexMap_ wl) = below m ->
  Z.of_nat m <= INT_MAX ->
  store_new item wl
  = (Z.of_nat m, set_indexMap (<[Z.of_nat m := item]> (indexMap_ wl)) wl).
Proof.
  intros Hfree Hdom Hm. unfold store_new, getFreeIndex.
  rewrite (proj2 (set_begin_None _) Hfree).
  by rewrite <- size_dom, Hdom, size_below, static_cast_int_small by lia.
Qed.

Lemma loaded_at_most_regular wl w listing :
  (length (omap (loaded_item wl w) listing)
   <= length (filter (fun e => de_is_regular_file e = true) listing))%nat.
Proof.
  induction listing as [|x l IHl]; [done|].
  cbn [omap list_omap filter list_filter].
  unfold loaded_item at 1. destruct (de_is_regular_file x).
  - rewrite decide_True by done.
    destruct (loadFile _ _); cbn [length]; [by apply le_n_S | by apply le_S].
  - rewrite decide_False by done. done.
Qed.

Lemma load_loop_spec listing c0 m wl st w :
  freeIndexes_ wl = ∅ -> dom (indexMap_ wl) = below m ->
  let loaded := omap (loaded_item wl w) listing in
  Z.of_nat (m + length loaded) <= INT_MAX ->
  Z.of_nat (c0 + length loaded) <= INT_MAX ->
  let res := foldl (fun acc e => load_entry e acc) (Z.of_nat c0, wl, st, w) listing in
  res.1.1.1 = Z.of_nat (c0 + length loaded)
  /\ freeIndexes_ res.1.1.2 = ∅
  /\ dataFolder_ res.1.1.2 = dataFolder_ wl
  /\ dom (indexMap_ res.1.1.2) = below (m + length loaded)
  /\ (forall j : nat, indexMap_ res.1.1.2 !! Z.of_nat (m + j) = loaded !! j)
  /\ (forall i, i ∈ below m -> indexMap_ res.1.1.2 !! i = indexMap_ wl !! i)
  /\ w_fs res.2 = w_fs w
  /\ (length loaded = length (filter (fun e => de_is_regular_file e = true) listing)
      -> res.1.2 = st /\ res.2 = w).
Proof.
  revert c0 m wl st w.
  induction listing as [|e l IH]; intros c0 m wl st w Hfree Hdom loaded Hm Hc res.
  - subst loaded res. cbn. rewrite !Nat.add_0_r. repeat apply conj; try done.
    intros j. apply not_elem_of_dom. rewrite Hdom, elem_of_below. lia.
  - subst res. cbn [foldl].
    pose proof (load_entry_cases e (Z.of_nat c0) wl st w) as He.
    subst loaded. cbn [omap list_omap] in *.
    destruct (loaded_item wl w e) as [item|] eqn:Eitem.
    + (* the entry is loaded under the index [m] *)
      cbn [length] in *.
      rewrite He, (store_new_dense item wl m) by (done || lia). cbn [snd].
      rewrite int_incr_in_range by (unfold INT_MAX in *; lia).
      replace (Z.of_nat c0 + 1) with (Z.of_nat (S c0)) by lia.
      specialize (IH (S c0) (S m)
        (set_indexMap (<[Z.of_nat m := item]> (indexMap_ wl)) wl) st w).
      cbn zeta in IH.
      rewrite (list_omap_ext _ (loaded_item wl w) _ l) in IH; cycle 1.
      { apply Forall2_same_length_lookup_2; [done|]. intros i x y Hx Hy.
        assert (x = y) as -> by congruence. by apply loaded_item_ext. }
      destruct IH as (H1 & H2 & H3 & H4 & H5 & H6 & H7 & H8); try done.
      { rewrite below_S. cbn [indexMap_ set_indexMap].
        by rewrite dom_insert_L, Hdom. }
      { lia. }
      { lia. }
      repeat apply conj.
      * rewrite H1. f_equal. lia.
      * done.
      * done.
      * rewrite H4. f_equal. lia.
      * intros [|j].
        -- rewrite Nat.add_0_r, H6 by (apply elem_of_below; lia).
           cbn. by rewrite lookup_insert_eq.
        -- replace (m + S j)%nat with (S m + j)%nat by lia. by rewrite H5.
      * intros i Hi. rewrite H6 by (apply elem_of_below; apply elem_of_below in Hi; lia).
        cbn. rewrite lookup_insert_ne; [done|]. apply elem_of_below in Hi. lia.
      * done.
      * intros Hlen. apply H8.
        unfold loaded_item in Eitem. cbn [filter list_filter] in Hlen.
        destruct (de_is_regular_file e); [|discriminate].
        rewrite decide_True in Hlen by done. cbn [length] in Hlen.
        by injection Hlen.
    + (* nothing is stored *)
      assert (Hfs : forall st1 w1,
        (st1, w1) = (st, w)
        \/ (st1, w1) = error ("[Worklist] Failed to load: " +:+ de_filename e) st w ->
        w_fs w1 = w_fs w).
      { intros st1 w1 [[= -> ->]|[= -> ->]]; done. }
      assert (exists st1 w1,
        load_entry e (Z.of_nat c0, wl, st, w) = (Z.of_nat c0, wl, st1, w1)
        /\ w_fs w1 = w_fs w
        /\ (de_is_regular_file e = false -> st1 = st /\ w1 = w))
        as (st1 & w1 & -> & Hw1 & Hskip).
      { destruct (de_is_regular_file e); rewrite He.
        - eexists _, _. split; [reflexivity|]. split; [done | discriminate].
        - eexists _, _. split; [reflexivity|]. done. }
      specialize (IH c0 m wl st1 w1 Hfree Hdom). cbn zeta in IH.
      rewrite (list_omap_ext _ (loaded_item wl w) _ l) in IH; cycle 1.
      { apply Forall2_same_length_lookup_2; [done|]. intros i x y Hx Hy.
        assert (x = y) as -> by congruence. by apply loaded_item_ext. }
      destruct (IH Hm Hc) as (H1 & H2 & H3 & H4 & H5 & H6 & H7 & H8).
      repeat apply conj; try done; [congruence|].
      intros Hlen. cbn [filter list_filter] in Hlen.
      destruct (decide (de_is_regular_file e = true)) as [Hreg|Hreg].
      * exfalso. cbn [length] in Hlen.
        pose proof (loaded_at_most_regular wl w l) as Hle.
        rewrite Hlen in Hle. exact (Nat.nle_succ_diag_l _ Hle).
      * apply not_true_is_false in Hreg. destruct (Hskip Hreg) as [-> ->].
        by apply H8.
Qed.

Lemma loadAllDatasets_on_empty
    (listing : list directory_entry) (st : SCPStatus) (w : World) :
  let loaded := omap (loaded_item Worklist_empty w) listing in
  Z.of_nat (length loaded) <= INT_MAX ->
  let '(r, wl', st', w') := loadAllDatasets listing Worklist_empty st w in
  r = bool_decide (loaded <> [])
  /\ (forall j : nat, indexMap_ wl' !! Z.of_nat j = loaded !! j)
  /\ dom (indexMap_ wl') = below (length loaded)
  /\ freeIndexes_ wl' = ∅
  /\ w_fs w' = w_fs w
  /\ (length loaded
      = length (filter (fun e => de_is_regular_file e = true) listing) ->
      st' = st /\ w' = w).
Proof.
  intros loaded Hlen. unfold loadAllDatasets.
  pose proof (load_loop_spec listing 0 0 Worklist_empty st w eq_refl
                (dom_empty_L (D:=gset Z))) as H.
  cbn zeta in H. fold loaded in H.
  specialize (H Hlen Hlen).
  destruct (foldl _ _ listing) as [[[n wl'] st'] w'].
  cbn [fst snd] in H. destruct H as (H1 & H2 & _ & H4 & H5 & _ & H7 & H8).
  repeat apply conj; try done.
  subst n. destruct loaded as [|x loaded']; [done|].
  transitivity true;
    [apply bool_decide_eq_true_2; cbn [length]; lia
    | symmetry; by apply bool_decide_eq_true_2].
Qed.

(** X5. [Worklist::loadAllDatasets] on an empty store (with no more files than
    an [int] counts).  The regular files that parse become the entries
    0, 1, 2, ... in the order of the listing, each clean and under the name
    found on disk; a file that is not regular or does not parse takes no
    index and does not stop the loop.  The result is true exactly when at
    least one file was loaded.  No file is changed, and when every regular
    file parses nothing is logged and the clock is not read. *)
Theorem loadAllDatasets_fills_in_listing_order
    (listing : list directory_entry) (st : SCPStatus) (w : World) :
  let loaded := omap (loaded_item Worklist_empty w) listing in
  Z.of_nat (length loaded) <= INT_MAX ->
  let '(r, wl', st', w') := loadAllDatasets listing Worklist_empty st w in
  r = bool_decide (loaded <> [])
  /\ (forall j : nat, indexMap_ wl' !! Z.of_nat j = loaded !! j)
  /\ dom (indexMap_ wl') = below (length loaded)
  /\ freeIndexes_ wl' = ∅
  /\ w_fs w' = w_fs w
  /\ (length loaded
      = length (filter (fun e => de_is_regular_file e = true) listing) ->
      st' = st /\ w' = w).
Proof. exact (loadAllDatasets_on_empty listing st w). Qed.

Lemma loadAllDatasets_fills_in_listing_order_witness :
  indexMap_
    (loadAllDatasets folder_listing Worklist_empty SCPStatus_default
                     folder_world).1.1.2 !! 0
  = Some (mk_Item (Some [(1048592, "DOE^JOHN")]) "a.dcm" false).
Proof.
  pose proof (loadAllDatasets_fills_in_listing_order folder_listing
    SCPStatus_default folder_world ltac:(vm_compute; discriminate)) as H.
  destruct (loadAllDatasets folder_listing Worklist_empty SCPStatus_default
              folder_world) as [[[r wl'] st'] w'].
  destruct H as (_ & H & _). exact (H 0%nat).
Defined.

Lemma load_frame_refl a : load_frame a a.
Proof. repeat split. exists "". by rewrite string_app_nil_r. Qed.

Lemma load_frame_trans a b c : load_frame a b -> load_frame b c -> load_frame a c.
Proof.
  intros (H1 & H2 & l1 & H3) (H4 & H5 & l2 & H6).
  split; [congruence|]. split; [congruence|].
  exists (l1 +:+ l2). by rewrite H6, H3, string_app_assoc.
Qed.

Lemma load_entry_frame e a : load_frame a (load_entry e a).
Proof.
  destruct a as [[[n wl] st] w].
  pose proof (load_entry_cases e n wl st w) as H.
  destruct (loaded_item wl w e) as [item|].
  - rewrite H. split; [|split; [done|]].
    + cbn [fst snd]. unfold store_new.
      pose proof (getFreeIndex_sets wl) as Hg.
      destruct (getFreeIndex wl) as [index wl1].
      destruct Hg as (_ & Hg & _). cbn. exact Hg.
    + exists "". cbn. by rewrite string_app_nil_r.
  - destruct (de_is_regular_file e); rewrite H; [|apply load_frame_refl].
    split; [done|]. split; [done|]. eexists. cbn. reflexivity.
Qed.

Lemma load_loop_frame listing a :
  load_frame a (foldl (fun acc e => load_entry e acc) a listing).
Proof.
  apply (foldl_related load_frame).
  - apply load_frame_refl.
  - apply load_frame_trans.
  - intros b e _. apply load_entry_frame.
Qed.

(** X6. A regular file that does not parse is reported: the error log after
    [Worklist::loadAllDatasets] holds a time-stamped line naming it,
    whatever the store held and whatever else is in the folder. *)
Theorem loadAllDatasets_reports_unparsable_file
    (listing : list directory_entry) (e : directory_entry)
    (wl : Worklist) (st : SCPStatus) (w : World) :
  e ∈ listing -> de_is_regular_file e = true ->
  loadFile (dataFolder_ wl +:+ de_filename e) w = None ->
  exists before t after,
    lastErrors_ (loadAllDatasets listing wl st w).1.2
    = before
      +:+ error_line t ("[Worklist] Failed to load: " +:+ de_filename e)
      +:+ after.
Proof.
  intros He Hreg Hload. unfold loadAllDatasets.
  apply list_elem_of_split in He as (l1 & l2 & ->).
  rewrite foldl_app. cbn [foldl].
  pose proof (load_loop_frame l1 (0, wl, st, w)) as (Hf1 & Hfs1 & _).
  destruct (foldl (fun acc e => load_entry e acc) (0, wl, st, w) l1)
    as [[[n1 wl1] st1] w1].
  cbn [fst snd] in Hf1, Hfs1.
  pose proof (load_entry_cases e n1 wl1 st1 w1) as Hcase.
  unfold loaded_item in Hcase. rewrite Hreg in Hcase.
  unfold loadFile in Hcase, Hload. rewrite Hf1, Hfs1 in Hcase.
  destruct (w_fs w !! (dataFolder_ wl +:+ de_filename e)) as [[ds| |]|];
    try discriminate; rewrite Hcase;
    match goal with |- context [foldl ?f ?a l2] =>
      pose proof (load_loop_frame l2 a) as (_ & _ & after & Hafter);
      destruct (foldl f a l2) as [[[n2 wl2] st2] w2]
    end;
    cbn [fst snd] in *;
    exists (lastErrors_ st1), (w_clock w1 (w_ticks w1)), after;
    rewrite Hafter; cbn; by rewrite string_app_assoc.
Qed.

Lemma loadAllDatasets_reports_unparsable_file_witness :
  exists before t after,
    lastErrors_ (loadAllDatasets folder_listing Worklist_empty SCPStatus_default
                   folder_world).1.2
    = before +:+ error_line t ("[Worklist] Failed to load: " +:+ "notes.txt")
      +:+ after.
Proof.
  apply (loadAllDatasets_reports_unparsable_file folder_listing
           (mk_entry "notes.txt" true) Worklist_empty SCPStatus_default
           folder_world).
  - by left.
  - reflexivity.
  - reflexivity.
Defined.

Lemma with_folder_spec w :
  folder_usable w = true ->
  w_fs (with_folder w) !! "./worklist/" = Some Directory
  /\ (forall p, p <> "./worklist/" -> w_fs (with_folder w) !! p = w_fs w !! p)
  /\ (w_fs w !! "./worklist/" = Some Directory
      \/ (w_fs w !! "./worklist/" = None /\ "./worklist/" ∉ w_locked w)).
Proof.
  unfold folder_usable, with_folder.
  destruct (w_fs w !! "./worklist/") as [[| |]|] eqn:E; try discriminate.
  - intros _. auto.
  - intros Hfree. apply bool_decide_eq_true in Hfree. cbn.
    rewrite lookup_insert_eq. split; [done|]. split; [|auto].
    intros p Hp. by rewrite lookup_insert_ne.
Qed.

Lemma SCP_ctor_loads
    (listing : list directory_entry) (w : World) :
  let loaded := omap (loaded_item Worklist_empty w) listing in
  Z.of_nat (length loaded) <= INT_MAX ->
  folder_usable w = true ->
  exists s w',
    SCP_ctor listing w = Returned tt s w'
    /\ (forall j : nat, entry s (Z.of_nat j) = loaded !! j)
    /\ dom (indexMap_ (datasets_ s)) = below (length loaded)
    /\ freeIndexes_ (datasets_ s) = ∅
    /\ (forall v, (getDatasetCount (Some v) s w').1.1
                  = (true, Some (Z.of_nat (length loaded))))
    /\ templateFile_ s = ""
    /\ isRunning_ (serverStatus_ s) = false
    /\ requestCount_ (serverStatus_ s) = 0
    /\ statusText_ (serverStatus_ s) = "Idle"
    /\ w_fs w' !! "./worklist/" = Some Directory
    /\ (forall p, p <> "./worklist/" -> w_fs w' !! p = w_fs w !! p)
    /\ (length loaded
        = length (filter (fun e => de_is_regular_file e = true) listing) ->
        lastErrors_ (serverStatus_ s) = "").
Proof.
  intros loaded Hlen Husable. rewrite SCP_ctor_cases. cbn zeta.
  rewrite Husable.
  destruct (with_folder_spec w Husable) as (Hdir & Hfs1 & Hbefore).
  set (s0 := mk_SCP "" SCPStatus_default Worklist_empty).
  set (w1 := with_folder w) in *.
  assert (Hloaded : omap (loaded_item Worklist_empty w1) listing = loaded).
  { subst loaded. apply list_omap_ext.
    apply Forall2_same_length_lookup_2; [done|]. intros i x y Hx Hy.
    assert (x = y) as -> by congruence.
    unfold loaded_item, loadFile. destruct (de_is_regular_file y); [|done].
    cbn [dataFolder_ Worklist_empty].
    destruct (decide ("./worklist/" +:+ de_filename y = "./worklist/")) as [Heq|Hne].
    - rewrite Heq, Hdir. by destruct Hbefore as [->|[-> _]].
    - by rewrite Hfs1. }
  rewrite loadAllDatasets_eq.
  pose proof (loadAllDatasets_on_empty listing
                (inside "Loading all datasets from file" s0) w1) as H.
  cbn zeta in H. rewrite Hloaded in H. specialize (H Hlen).
  change (datasets_ s0) with Worklist_empty.
  pose proof (loadAllDatasets_status_kept listing Worklist_empty
                (inside "Loading all datasets from file" s0) w1) as Hk.
  destruct (loadAllDatasets _ _ _ _) as [[[r wl'] st'] w'].
  destruct H as (_ & H2 & H3 & H4 & H5 & H6).
  cbn [fst snd] in Hk. destruct Hk as (Hrun & Hrc & _).
  cbn in Hrun, Hrc.
  eexists _, _. split; [reflexivity|].
  unfold entry. cbn [leave datasets_ serverStatus_ templateFile_ s0 fst snd].
  repeat apply conj; try done.
  - intros v. rewrite getDatasetCount_eq. cbn [fst]. unfold count.
    cbn [datasets_]. rewrite <- (size_dom (indexMap_ wl')), H3, size_below.
    by rewrite static_cast_int_small by lia.
  - by rewrite H5.
  - intros p Hp. rewrite H5. by apply Hfs1.
  - intros Hall. destruct (H6 Hall) as [-> _]. reflexivity.
Qed.

(** X7. The constructor, over a folder with no more files than an [int]
    counts.  When the data folder is a directory, or is missing and can be
    created, the constructor returns: the server starts stopped, with
    status text "Idle", request count 0, an empty error log when every
    regular file parses, and no template; the data folder is a directory
    afterwards and no other path of the file system is changed; the
    parsable regular files of the folder are the entries 0, 1, 2, ... in
    listing order, [getDatasetCount] counts them, and the free list is
    empty.  When something that is not a directory is found under the
    folder's path, or the folder is missing and cannot be created, the
    constructor is left by an exception and the world is as before. *)
Theorem constructor_loads_the_folder
    (listing : list directory_entry) (w : World) :
  let loaded := omap (loaded_item Worklist_empty w) listing in
  Z.of_nat (length loaded) <= INT_MAX ->
  (w_fs w !! "./worklist/" = Some Directory
   \/ (w_fs w !! "./worklist/" = None /\ "./worklist/" ∉ w_locked w) ->
   exists s w',
     SCP_ctor listing w = Returned tt s w'
     /\ (forall j : nat, entry s (Z.of_nat j) = loaded !! j)
     /\ dom (indexMap_ (datasets_ s)) = below (length loaded)
     /\ freeIndexes_ (datasets_ s) = ∅
     /\ (forall v, (getDatasetCount (Some v) s w').1.1
                   = (true, Some (Z.of_nat (length loaded))))
     /\ templateFile_ s = ""
     /\ isRunning_ (serverStatus_ s) = false
     /\ requestCount_ (serverStatus_ s) = 0
     /\ statusText_ (serverStatus_ s) = "Idle"
     /\ w_fs w' !! "./worklist/" = Some Directory
     /\ (forall p, p <> "./worklist/" -> w_fs w' !! p = w_fs w !! p)
     /\ (length loaded
         = length (filter (fun e => de_is_regular_file e = true) listing) ->
         lastErrors_ (serverStatus_ s) = ""))
  /\ ((exists node, w_fs w !! "./worklist/" = Some node /\ node <> Directory)
      \/ (w_fs w !! "./worklist/" = None /\ "./worklist/" ∈ w_locked w) ->
      SCP_ctor listing w
      = FilesystemError (mk_SCP "" SCPStatus_default Worklist_empty) w).
Proof.
  intros loaded Hlen. split.
  - intros Hfolder. apply SCP_ctor_loads; [exact Hlen|].
    unfold folder_usable.
    destruct Hfolder as [->|[-> Hfree]]; [done | by apply bool_decide_eq_true_2].
  - intros Hfolder. rewrite SCP_ctor_cases. cbn zeta.
    unfold folder_usable.
    destruct Hfolder as [(node & -> & Hnode)|[-> Hlocked]].
    + by destruct node.
    + by rewrite bool_decide_eq_false_2 by auto.
Qed.

Lemma constructor_loads_the_folder_witness :
  exists s w',
    SCP_ctor folder_listing folder_world = Returned tt s w'
    /\ entry s 0 = Some (mk_Item (Some [(1048592, "DOE^JOHN")]) "a.dcm" false).
Proof.
  destruct (proj1 (constructor_loads_the_folder folder_listing folder_world
                     ltac:(vm_compute; discriminate))
              ltac:(left; vm_compute; reflexivity))
    as (s & w' & H1 & H2 & _).
  exists s, w'. split; [exact H1 | exact (H2 0%nat)].
Defined.

(* ------------------------------------------------------------------------- *)
(** ** What holds between calls *)

Lemma step_dataFolder op c :
  dataFolder_ (state_of (step op c)).1.1 = dataFolder_ c.1.1.
Proof.
  destruct c as [[wl st] w]. cbn [fst snd].
  destruct op as [ds|i|listing|order|i|i|order|order]; cbn [step].
  - pose proof (add_store_new ds wl w) as [H _].
    destruct (add ds wl w) as [[i wl1] w1]. cbn in H. subst wl1. cbn [fst snd].
    unfold store_new. pose proof (getFreeIndex_sets wl) as Hg.
    destruct (getFreeIndex wl) as [index wl1]. by destruct Hg as (_ & Hg & _).
  - rewrite remove_cases. destruct (indexMap_ wl !! i); [|done].
    by destruct (bool_decide _).
  - unfold loadAllDatasets.
    pose proof (load_loop_frame listing (0, wl, st, w)) as (H & _).
    by destruct (foldl _ _ listing) as [[[n wl1] st1] w1].
  - pose proof (clear_store order wl st w) as H.
    destruct (clear order wl st w) as [cfg|cfg]; cbn [state_of]; by rewrite H.
  - unfold markDatasetDirty, Worklist_at. by destruct (indexMap_ wl !! i).
  - unfold saveDatasetInFile, Worklist_at.
    destruct (indexMap_ wl !! i) as [item|]; [|done].
    destruct (dataset_ item); [|done].
    destruct (saveFile _ _ _) as [status w1]. by destruct (good status).
  - unfold saveAllDatasetsInFile.
    pose proof (save_loop_frame false order (true, wl, st, w)) as (H & _).
    by destruct (foldl _ _ order) as [[[r wl1] st1] w1].
  - unfold saveDirtyDatasetsInFile.
    pose proof (save_loop_frame true order (true, wl, st, w)) as (H & _).
    by destruct (foldl _ _ order) as [[[r wl1] st1] w1].
Qed.

Lemma facade_settled c s w r s' w' :
  settled (serverStatus_ s) -> facade c s w = Returned r s' w' ->
  settled (serverStatus_ s').
Proof.
  intros Hs Hcall.
  assert (Hkept : forall st', status_kept (serverStatus_ s) st' -> settled st').
  { intros st' (H1 & _ & H3). unfold settled. by rewrite H1, H3. }
  destruct c as [f|index|i|p|i|order| | | |i|order|i|order|listing];
    try (match type of Hcall with facade ?c s w = _ =>
           pose proof (facade_ordinary_status_kept c s w I) as H end;
         rewrite Hcall in H; by apply Hkept).
  - cbn [facade] in Hcall. destruct index as [v|].
    + rewrite addDataset_eq in Hcall. destruct (add _ _ _) as [[i wl1] w1].
      injection Hcall as _ <- _. cbn. by destruct (serverStatus_ s).
    + unfold addDataset, ScopedStatus_ctor in Hcall. cbn -[add new_dataset] in Hcall.
      by destruct (add _ _ _) as [[i wl1] w1].
  - cbn [facade] in Hcall. rewrite start_eq in Hcall.
    destruct (isRunning_ (serverStatus_ s)) eqn:Hrun;
      [by injection Hcall as _ <- _|].
    destruct (good (w_listen w)); injection Hcall as _ <- _; [by right | done].
  - cbn [facade] in Hcall. rewrite stop_eq in Hcall.
    destruct (isRunning_ (serverStatus_ s)) eqn:Hrun;
      injection Hcall as _ <- _; cbn; left; [done|].
    split; [exact Hrun | done].
  - cbn in Hcall. injection Hcall as _ <- _.
    destruct Hs as [[H1 H2]|[H1 H2]]; [left | right]; done.
Qed.

Lemma facade_store_invariants c s w :
  disjoint_indices (datasets_ s) /\ dataFolder_ (datasets_ s) = "./worklist/" ->
  disjoint_indices (datasets_ (state_after (facade c s w)))
  /\ dataFolder_ (datasets_ (state_after (facade c s w))) = "./worklist/".
Proof.
  intros [Hd Hf]. destruct (facade_store c s w) as [st1 ->].
  destruct (worklist_op c s w) as [op|]; [|done]. split.
  - by apply (step_disjoint op (datasets_ s, st1, w)).
  - by rewrite (step_dataFolder op (datasets_ s, st1, w)).
Qed.

Lemma reachable_settled s w : reachable s w -> settled (serverStatus_ s).
Proof.
  induction 1 as [listing w s w' Hctor|c s w r s' w' _ IH Hcall
                  |msg presInfo s w _ IH|s w w' _ IH].
  - destruct (SCP_ctor_facade listing w s w' Hctor) as [w1 ->].
    cbn [facade]. unfold returned_bool.
    destruct (SCP_loadAllDatasets _ _ _) as [[r s1] w2] eqn:E.
    apply (facade_settled (call_loadAllDatasets listing)
             (mk_SCP "" SCPStatus_default Worklist_empty) w1 (res_bool r) s1 w2);
      [by left|].
    cbn [facade]. by rewrite E.
  - by apply (facade_settled c s w r s' w' IH).
  - destruct msg as [[request|rsp|field]|]; exact IH.
  - exact IH.
Qed.

Lemma reachable_store_invariants s w :
  reachable s w ->
  disjoint_indices (datasets_ s) /\ dataFolder_ (datasets_ s) = "./worklist/".
Proof.
  induction 1 as [listing w s w' Hctor|c s w r s' w' _ IH Hcall
                  |msg presInfo s w _ IH|s w w' _ IH].
  - destruct (SCP_ctor_facade listing w s w' Hctor) as [w1 ->].
    apply facade_store_invariants. split; [|done].
    intros i Hi. cbn in Hi. set_solver.
  - pose proof (facade_store_invariants c s w IH) as H. by rewrite Hcall in H.
  - destruct msg as [[request|rsp|field]|]; exact IH.
  - exact IH.
Qed.

(** X8. Between calls, whatever calls and callbacks came before: the server is
    either stopped with the status text "Idle" or running with the text
    "Listening" (never a "Processing" text, never "None"); no free index is
    a key of the store; every entry holds a data set; and the data folder
    is "./worklist/". *)
Theorem between_calls_invariants (s : DICOMWorklistSCP) (w : World) :
  reachable s w ->
  settled (serverStatus_ s)
  /\ disjoint_indices (datasets_ s)
  /\ datasets_present (datasets_ s)
  /\ dataFolder_ (datasets_ s) = "./worklist/".
Proof.
  intros H. split; [by eapply reachable_settled|].
  destruct (reachable_store_invariants s w H) as [H1 H2].
  split; [done|]. split; [by eapply reachable_datasets_present | done].
Qed.

Lemma between_calls_invariants_witness :
  settled (serverStatus_ one_entry_server)
  /\ disjoint_indices (datasets_ one_entry_server)
  /\ datasets_present (datasets_ one_entry_server)
  /\ dataFolder_ (datasets_ one_entry_server) = "./worklist/".
Proof.
  exact (between_calls_invariants one_entry_server idle_world
           one_entry_server_reachable).
Defined.

(* ------------------------------------------------------------------------- *)
(** ** Saving, and loading again *)

Lemma saveDatasetInFile_cases index wl st w :
  match indexMap_ wl !! index with
  | Some (mk_Item (Some ds) name dirty) =>
      let item := mk_Item (Some ds) name dirty in
      let path := backing_path wl item in
      if bool_decide (path ∈ w_locked w) then
        saveDatasetInFile index wl st w
        = (false, wl,
           (error ("Failed to save: " +:+ name) st (log_write path ds w)).1,
           (error ("Failed to save: " +:+ name) st (log_write path ds w)).2)
      else
        saveDatasetInFile index wl st w
        = (true,
           set_indexMap (<[index := set_dirty false item]> (indexMap_ wl)) wl, st,
           set_fs (<[path := DicomFile ds]> (w_fs w)) (log_write path ds w))
  | _ => saveDatasetInFile index wl st w = (false, wl, st, w)
  end.
Proof.
  unfold saveDatasetInFile, Worklist_at.
  destruct (indexMap_ wl !! index) as [[[ds|] name dirty]|]; try reflexivity.
  cbn [dataset_ dirty_ fileName_]. cbn zeta.
  unfold backing_path. cbn [fileName_]. rewrite saveFile_spec.
  by destruct (bool_decide _).
Qed.

(** X9. Save, then restart.  When [saveDataset(i)] returns true, the entry's
    file holds its data set, and a server constructed afterwards, with the
    data folder in place, over a folder listing that names the file (with
    no more files than an [int] counts) holds an entry with that data set,
    that file name and a clean dirty flag. *)
Theorem save_then_restart_round_trip
    (i : Z) (item : Item) (s s' : DICOMWorklistSCP) (w w' : World)
    (listing : list directory_entry) :
  reachable s w ->
  entry s i = Some item ->
  saveDataset i s w = (true, s', w') ->
  w_fs w' !! "./worklist/" = Some Directory ->
  mk_entry (fileName_ item) true ∈ listing ->
  Z.of_nat (length listing) <= INT_MAX ->
  exists ds j s2 w2,
    dataset_ item = Some ds
    /\ loadFile (backing_path (datasets_ s) item) w' = Some ds
    /\ SCP_ctor listing w' = Returned tt s2 w2
    /\ entry s2 (Z.of_nat j)
       = Some (mk_Item (Some ds) (fileName_ item) false).
Proof.
  intros Hreach Hi Hsave Hdir Hin Hlen.
  destruct (reachable_store_invariants s w Hreach) as [_ Hfolder].
  unfold entry in Hi. rewrite saveDataset_eq in Hsave.
  pose proof (saveDatasetInFile_cases i (datasets_ s)
                (inside "Saving a dataset by index" s) w) as Hcase.
  rewrite Hi in Hcase. destruct item as [[ds|] name dirty].
  2: { rewrite Hcase in Hsave. discriminate. }
  cbn zeta in Hcase. case_bool_decide as Hlocked; rewrite Hcase in Hsave;
    [discriminate|].
  injection Hsave as <- <-.
  unfold backing_path in *. cbn [fileName_] in *. rewrite Hfolder in *.
  set (path := "./worklist/" +:+ name) in *.
  assert (Hload : loadFile path
            (set_fs (<[path := DicomFile ds]> (w_fs w)) (log_write path ds w))
          = Some ds).
  { unfold loadFile. cbn. by rewrite lookup_insert_eq. }
  assert (Hitem : loaded_item Worklist_empty
            (set_fs (<[path := DicomFile ds]> (w_fs w)) (log_write path ds w))
            (mk_entry name true)
          = Some (mk_Item (Some ds) name false)).
  { unfold loaded_item.
    cbn [de_is_regular_file de_filename dataFolder_ Worklist_empty].
    fold path. by rewrite Hload. }
  pose proof (SCP_ctor_loads listing
    (set_fs (<[path := DicomFile ds]> (w_fs w)) (log_write path ds w))) as Hctor.
  cbn zeta in Hctor.
  set (loaded := omap (loaded_item Worklist_empty _) listing) in *.
  assert (Hmem : mk_Item (Some ds) name false ∈ loaded).
  { apply list_elem_of_omap. eauto. }
  apply list_elem_of_lookup in Hmem as [j Hj].
  assert (Hle : (length loaded <= length listing)%nat).
  { subst loaded. clear. induction listing as [|x l IH]; [done|].
    cbn [omap list_omap length]. destruct (loaded_item _ _ x); cbn [length]; lia. }
  destruct (Hctor ltac:(lia)) as (s2 & w2 & Hreturned & Hentries & _).
  { unfold folder_usable. by rewrite Hdir. }
  exists ds, j, s2, w2. split; [done|]. split; [done|]. split; [done|].
  by rewrite Hentries.
Qed.

Lemma save_then_restart_round_trip_witness :
  exists ds j s2 w2,
    dataset_ (mk_Item (Some []) shared_name true) = Some ds
    /\ loadFile (backing_path (datasets_ one_entry_server)
                   (mk_Item (Some []) shared_name true))
         (saveDataset 0 one_entry_server idle_world).2 = Some ds
    /\ SCP_ctor [mk_entry shared_name true]
         (saveDataset 0 one_entry_server idle_world).2 = Returned tt s2 w2
    /\ entry s2 (Z.of_nat j) = Some (mk_Item (Some ds) shared_name false).
Proof.
  apply (save_then_restart_round_trip 0 (mk_Item (Some []) shared_name true)
           one_entry_server (saveDataset 0 one_entry_server idle_world).1.2
           idle_world (saveDataset 0 one_entry_server idle_world).2
           [mk_entry shared_name true] one_entry_server_reachable).
  - vm_compute. reflexivity.
  - vm_compute. reflexivity.
  - vm_compute. reflexivity.
  - by left.
  - vm_compute. discriminate.
Defined.

(** An iteration of a saving loop makes the call [save_call] names, and
    changes what [save_call] names for no other key. *)
Lemma save_entry_call only_dirty id acc :
  w_writes (save_entry only_dirty id acc).2
  = (w_writes acc.2 ++ option_list (save_call only_dirty acc.1.1.2 id))%list.
Proof.
  destruct acc as [[[success wl] st] w]. cbn [fst snd]. unfold save_call.
  pose proof (save_entry_cases only_dirty id success wl st w) as H.
  cbn zeta in H.
  destruct (indexMap_ wl !! id) as [[[ds|] name dirty]|];
    try (rewrite H; cbn; by rewrite app_nil_r).
  cbn [dataset_ dirty_].
  destruct (only_dirty && negb dirty); [rewrite H; cbn; by rewrite app_nil_r|].
  destruct (bool_decide _); by rewrite H.
Qed.

Lemma save_entry_call_other only_dirty id j acc :
  id <> j ->
  save_call only_dirty (save_entry only_dirty id acc).1.1.2 j
  = save_call only_dirty acc.1.1.2 j.
Proof.
  intros Hne. unfold save_call, backing_path.
  rewrite (save_entry_other only_dirty id j acc Hne).
  by destruct (save_entry_frame only_dirty id acc) as (-> & _).
Qed.

Lemma save_loop_calls only_dirty order acc :
  NoDup order ->
  w_writes (foldl (fun acc id => save_entry only_dirty id acc) acc order).2
  = (w_writes acc.2 ++ omap (save_call only_dirty acc.1.1.2) order)%list.
Proof.
  revert acc. induction order as [|id order IH]; intros acc Hnd.
  - cbn. by rewrite app_nil_r.
  - apply NoDup_cons in Hnd as [Hid Hnd]. cbn [foldl].
    rewrite IH, save_entry_call by done. rewrite <- app_assoc. f_equal.
    cbn [omap list_omap].
    assert (Hrest : omap (save_call only_dirty
                            (save_entry only_dirty id acc).1.1.2) order
                    = omap (save_call only_dirty acc.1.1.2) order).
    { apply list_omap_ext. apply Forall2_same_length_lookup_2; [done|].
      intros k x y Hx Hy. assert (x = y) as -> by congruence.
      apply save_entry_call_other. intros ->.
      apply Hid. by eapply list_elem_of_lookup_2. }
    rewrite Hrest. by destruct (save_call only_dirty acc.1.1.2 id).
Qed.

Lemma save_entry_succeeds only_dirty id acc :
  acc.1.1.1 = true ->
  (forall path ds, save_call only_dirty acc.1.1.2 id = Some (path, ds) ->
                   path ∉ w_locked acc.2) ->
  (save_entry only_dirty id acc).1.1.1 = true.
Proof.
  destruct acc as [[[success wl] st] w]. cbn [fst snd]. intros -> Hcall.
  pose proof (save_entry_cases only_dirty id true wl st w) as Hc.
  cbn zeta in Hc. unfold save_call in Hcall.
  destruct (indexMap_ wl !! id) as [[[ds|] name dirty]|]; try (by rewrite Hc).
  cbn [dataset_ dirty_] in Hcall.
  destruct (only_dirty && negb dirty); [by rewrite Hc|].
  rewrite bool_decide_eq_false_2 in Hc by (by eapply Hcall). by rewrite Hc.
Qed.

Lemma save_loop_succeeds only_dirty order acc :
  NoDup order -> acc.1.1.1 = true ->
  (forall id path ds,
     id ∈ order -> save_call only_dirty acc.1.1.2 id = Some (path, ds) ->
     path ∉ w_locked acc.2) ->
  (foldl (fun acc id => save_entry only_dirty id acc) acc order).1.1.1 = true.
Proof.
  revert acc. induction order as [|id order IH]; intros acc Hnd Hs Hall; [done|].
  apply NoDup_cons in Hnd as [Hid Hnd]. cbn [foldl]. apply IH; [done| |].
  - apply save_entry_succeeds; [done|]. intros path ds. apply Hall. by left.
  - intros j path ds Hj.
    rewrite save_entry_call_other by (intros ->; done).
    destruct (save_entry_frame only_dirty id acc) as (_ & -> & _).
    apply Hall. by right.
Qed.

Lemma save_loop_result only_dirty order wl st w :
  NoDup order ->
  (foldl (fun acc id => save_entry only_dirty id acc) (true, wl, st, w) order)
    .1.1.1 = true
  <-> (forall id path ds,
         id ∈ order -> save_call only_dirty wl id = Some (path, ds) ->
         path ∉ w_locked w).
Proof.
  intros Hnd. split.
  - intros Hsucc id path ds Hid Hcall Hlocked. unfold save_call in Hcall.
    destruct (indexMap_ wl !! id) as [[[ds'|] name dirty]|] eqn:Hi;
      try discriminate.
    cbn [dataset_ dirty_] in Hcall.
    destruct (only_dirty && negb dirty) eqn:Hskip; [discriminate|].
    injection Hcall as <- <-.
    pose proof (save_loop_visit only_dirty order (true, wl, st, w) id ds' name
                  dirty Hnd Hid Hi Hskip) as (_ & _ & Hbad).
    destruct (Hbad Hlocked) as [_ Hfalse]. congruence.
  - intros Hall. by apply (save_loop_succeeds only_dirty order (true, wl, st, w)).
Qed.

(** X10. The two saving loops.  [saveAllDatasetsInFile] calls [saveFile] once
    for every entry, in visiting order and whatever the dirty flags;
    [saveDirtyDatasetsInFile] does so for the dirty entries only.  Each
    returns true exactly when none of the files it writes to resists, and a
    failure does not keep the later entries from being written. *)
Theorem saving_loops_write_each_entry_once
    (order : list Z) (wl : Worklist) (st : SCPStatus) (w : World) :
  visits (indexMap_ wl) order ->
  (let '(r, _, _, w') := saveAllDatasetsInFile order wl st w in
   w_writes w' = (w_writes w ++ omap (save_call false wl) order)%list
   /\ (r = true <->
       forall id path ds, id ∈ order -> save_call false wl id = Some (path, ds) ->
                          path ∉ w_locked w))
  /\ (let '(r, _, _, w') := saveDirtyDatasetsInFile order wl st w in
      w_writes w' = (w_writes w ++ omap (save_call true wl) order)%list
      /\ (r = true <->
          forall id path ds, id ∈ order -> save_call true wl id = Some (path, ds) ->
                             path ∉ w_locked w)).
Proof.
  intros Hvisits. pose proof (visits_NoDup _ _ Hvisits) as Hnd.
  unfold saveAllDatasetsInFile, saveDirtyDatasetsInFile. split.
  - pose proof (save_loop_calls false order (true, wl, st, w) Hnd) as H1.
    pose proof (save_loop_result false order wl st w Hnd) as H2.
    by destruct (foldl _ _ order) as [[[r wl1] st1] w1].
  - pose proof (save_loop_calls true order (true, wl, st, w) Hnd) as H1.
    pose proof (save_loop_result true order wl st w Hnd) as H2.
    by destruct (foldl _ _ order) as [[[r wl1] st1] w1].
Qed.

Lemma saving_loops_write_each_entry_once_witness :
  w_writes (saveAllDatasetsInFile [0] (datasets_ one_entry_server)
              SCPStatus_default idle_world).2
  = (w_writes idle_world
     ++ omap (save_call false (datasets_ one_entry_server)) [0])%list.
Proof.
  pose proof (saving_loops_write_each_entry_once [0] (datasets_ one_entry_server)
                SCPStatus_default idle_world ltac:(vm_compute; reflexivity))
    as [H _].
  destruct (saveAllDatasetsInFile [0] (datasets_ one_entry_server)
              SCPStatus_default idle_world) as [[[r wl1] st1] w1].
  exact (proj1 H).
Defined.

(** X11. The two outcomes of [saveDataset] on an entry that holds a data set.
    When the file cannot be written: the result is false, the store is as
    before (the dirty flag too), no file is changed, and the error log
    grows by one time-stamped line naming the file.  When it can: the
    result is true, the entry is clean and otherwise as before, the other
    entries are untouched, the file holds the data set, and the status,
    error log included, is as before.  Either way running flag, request
    count and status text are kept. *)
Theorem saveDataset_outcomes
    (i : Z) (item : Item) (ds : DcmDataset) (s : DICOMWorklistSCP) (w : World) :
  entry s i = Some item -> dataset_ item = Some ds ->
  let path := backing_path (datasets_ s) item in
  let '(r, s', w') := saveDataset i s w in
  status_kept (serverStatus_ s) (serverStatus_ s')
  /\ w_writes w' = (w_writes w ++ [(path, ds)])%list
  /\ (path ∈ w_locked w ->
      r = false /\ datasets_ s' = datasets_ s /\ w_fs w' = w_fs w
      /\ lastErrors_ (serverStatus_ s')
         = lastErrors_ (serverStatus_ s)
           +:+ error_line (w_clock w (w_ticks w))
                 ("Failed to save: " +:+ fileName_ item))
  /\ (path ∉ w_locked w ->
      r = true /\ entry s' i = Some (set_dirty false item)
      /\ (forall j, j <> i -> entry s' j = entry s j)
      /\ w_fs w' = <[path := DicomFile ds]> (w_fs w)
      /\ serverStatus_ s' = serverStatus_ s).
Proof.
  intros Hi Hds path. unfold entry in *. rewrite saveDataset_eq.
  pose proof (saveDatasetInFile_cases i (datasets_ s)
                (inside "Saving a dataset by index" s) w) as Hcase.
  rewrite Hi in Hcase. destruct item as [ds' name dirty].
  cbn in Hds. subst ds'. cbn zeta in Hcase. fold path in Hcase.
  case_bool_decide as Hlocked; rewrite Hcase;
    cbn [leave datasets_ serverStatus_ fst snd].
  - split; [done|]. split; [done|]. split; [|done]. intros _.
    repeat split; try done.
  - split; [done|]. split; [done|]. split; [done|].
    intros _. split; [done|]. cbn [indexMap_ set_indexMap].
    split; [by rewrite lookup_insert_eq|].
    split; [intros j Hj; by rewrite lookup_insert_ne|].
    split; [done|]. unfold inside. by destruct (serverStatus_ s).
Qed.

Lemma saveDataset_outcomes_witness :
  (saveDataset 0 one_entry_server idle_world).1.1 = true
  /\ entry (saveDataset 0 one_entry_server idle_world).1.2 0
     = Some (mk_Item (Some []) shared_name false).
Proof.
  pose proof (saveDataset_outcomes 0 (mk_Item (Some []) shared_name true) []
                one_entry_server idle_world
                ltac:(vm_compute; reflexivity) eq_refl) as H.
  cbn zeta in H.
  destruct (saveDataset 0 one_entry_server idle_world) as [[r s'] w'].
  destruct H as (_ & _ & _ & H).
  destruct (H ltac:(vm_compute; set_solver)) as (H1 & H2 & _).
  split; [exact H1 | exact H2].
Defined.

(* ------------------------------------------------------------------------- *)
(** ** Starting and stopping *)

Lemma configure_net w : w_net (configure w) = (w_net w ++ configuration_calls)%list.
Proof.
  unfold configure, configuration_calls. cbn. by rewrite <- !app_assoc.
Qed.

(** X12. A [start] on a stopped server always configures the base class and
    opens the port.  When the port opens, the accept loop is detached,
    [start] returns true and the server is running with the text
    "Listening"; a [stop] then asks the base class once to stop after the
    current association, returns true and leaves the server stopped with
    the text "Idle".  When the port does not open, [start] returns false
    and leaves the server exactly as it was.  The store is never touched. *)
Theorem start_then_stop (s : DICOMWorklistSCP) (w : World) :
  isRunning_ (serverStatus_ s) = false ->
  let '(r1, s1, w1) := start s w in
  datasets_ s1 = datasets_ s
  /\ (good (w_listen w) = false ->
      r1 = false /\ s1 = s
      /\ w_net w1 = (w_net w ++ configuration_calls ++ [openListenPort])%list)
  /\ (good (w_listen w) = true ->
      r1 = true
      /\ isRunning_ (serverStatus_ s1) = true
      /\ statusText_ (serverStatus_ s1) = "Listening"
      /\ w_net w1
         = (w_net w ++ configuration_calls
            ++ [openListenPort; acceptAssociations_detached])%list
      /\ let '(r2, s2, w2) := stop s1 w1 in
         r2 = true
         /\ isRunning_ (serverStatus_ s2) = false
         /\ statusText_ (serverStatus_ s2) = "Idle"
         /\ datasets_ s2 = datasets_ s
         /\ w_net w2 = (w_net w1 ++ [stopAfterCurrentAssociation])%list).
Proof.
  intros Hrun. rewrite start_eq, Hrun.
  destruct (good (w_listen w)) eqn:Hgood.
  - split; [done|]. split; [discriminate|]. intros _.
    split; [done|]. split; [done|]. split; [done|]. split.
    + cbn -[configure configuration_calls]. rewrite configure_net.
      by rewrite <- !app_assoc.
    + rewrite stop_eq. cbn -[configure]. done.
  - split; [done|]. split; [|discriminate]. intros _.
    split; [done|]. split; [done|].
    cbn -[configure configuration_calls]. rewrite configure_net.
    by rewrite <- !app_assoc.
Qed.

Lemma start_then_stop_witness :
  (start idle_server idle_world).1.1 = true
  /\ isRunning_ (serverStatus_ (start idle_server idle_world).1.2) = true.
Proof.
  pose proof (start_then_stop idle_server idle_world eq_refl) as H.
  destruct (start idle_server idle_world) as [[r1 s1] w1].
  destruct H as (_ & _ & H). destruct (H eq_refl) as (H1 & H2 & _).
  split; [exact H1 | exact H2].
Defined.

(* ------------------------------------------------------------------------- *)
(** ** The request counter *)

Lemma handleIncomingCommand_requestCount msg presInfo s w :
  requestCount_ (serverStatus_ (handleIncomingCommand msg presInfo s w).1.2)
  = int_incr (requestCount_ (serverStatus_ s)).
Proof. by destruct msg as [[request|rsp|field]|]. Qed.

(** X13. The request counter counts the query callbacks and nothing else: after
    any run of facade calls that return and of callbacks, it has grown by
    the number of callbacks (as long as that stays within the range of an
    [int]). *)
Theorem requestCount_counts_the_queries
    (evs : list Event) (s s' : DICOMWorklistSCP) (w w' : World) :
  serve evs s w = Some (s', w') ->
  -2147483648 <= requestCount_ (serverStatus_ s) ->
  requestCount_ (serverStatus_ s) + Z.of_nat (queries evs) <= INT_MAX ->
  requestCount_ (serverStatus_ s')
  = requestCount_ (serverStatus_ s) + Z.of_nat (queries evs).
Proof.
  revert s w. induction evs as [|ev evs IH]; intros s w Hserve Hlow Hhigh.
  - injection Hserve as <- <-. cbn. lia.
  - destruct ev as [c|msg presInfo]; cbn [serve] in Hserve.
    + pose proof (facade_requestCount c s w) as Hrc.
      destruct (facade c s w) as [r s1 w1| |]; [|discriminate|discriminate].
      cbn [state_after] in Hrc.
      change (queries (ev_call c :: evs)) with (queries evs) in *.
      rewrite <- Hrc in *. by eapply IH.
    + pose proof (handleIncomingCommand_requestCount msg presInfo s w) as Hrc.
      destruct (handleIncomingCommand msg presInfo s w) as [[r s1] w1].
      cbn [fst snd] in Hrc.
      change (queries (ev_query msg presInfo :: evs)) with (S (queries evs)) in *.
      rewrite int_incr_in_range in Hrc by lia.
      rewrite (IH s1 w1 Hserve) by lia. lia.
Qed.

Lemma requestCount_counts_the_queries_witness :
  requestCount_
    (serverStatus_
       (handleIncomingCommand None (mk_presInfo 1)
          (state_after (deleteDataset 0 idle_server idle_world))
          (world_after (deleteDataset 0 idle_server idle_world))).1.2)
  = requestCount_ (serverStatus_ idle_server) + Z.of_nat 1.
Proof.
  apply (requestCount_counts_the_queries
           [ev_call (call_deleteDataset 0); ev_query None (mk_presInfo 1)]
           idle_server _ idle_world
           (handleIncomingCommand None (mk_presInfo 1)
              (state_after (deleteDataset 0 idle_server idle_world))
              (world_after (deleteDataset 0 idle_server idle_world))).2).
  - vm_compute. reflexivity.
  - vm_compute. discriminate.
  - vm_compute. discriminate.
Defined.

(* ------------------------------------------------------------------------- *)
(** ** File names *)

Lemma string_length_app (a b : string) :
  String.length (a +:+ b) = (String.length a + String.length b)%nat.
Proof.
  induction a as [|x a IH]; [done|].
  change (S (String.length (a +:+ b)) = S (String.length a + String.length b)).
  by rewrite IH.
Qed.

Lemma string_app_inj_r (a b c : string) : a +:+ c = b +:+ c -> a = b.
Proof.
  revert b. induction a as [|x a IH]; intros [|y b] H.
  - done.
  - change (c = String y (b +:+ c)) in H.
    apply (f_equal String.length) in H. cbn [String.length] in H.
    rewrite string_length_app in H. lia.
  - change (String x (a +:+ c) = c) in H.
    apply (f_equal String.length) in H. cbn [String.length] in H.
    rewrite string_length_app in H. lia.
  - change (String x (a +:+ c) = String y (b +:+ c)) in H.
    injection H as -> H. f_equal. by apply IH.
Qed.

(** X14. [newFileName] takes one clock reading and touches nothing else.  The
    name is the prefix, the local date and time of the reading and its
    millisecond; for two readings within the same second the names are the
    same exactly when the milliseconds are. *)
Theorem newFileName_collides_exactly_on_equal_milliseconds
    (prefix : string) (w1 w2 : World) :
  let t1 := w_clock w1 (w_ticks w1) in
  let t2 := w_clock w2 (w_ticks w2) in
  tp_local t1 = tp_local t2 ->
  w_ticks (newFileName prefix w1).2 = S (w_ticks w1)
  /\ w_fs (newFileName prefix w1).2 = w_fs w1
  /\ ((newFileName prefix w1).1 = (newFileName prefix w2).1
      <-> Z.rem (tp_epoch_ms t1) 1000 = Z.rem (tp_epoch_ms t2) 1000).
Proof.
  cbn zeta. intros Hlocal. split; [done|]. split; [done|].
  unfold newFileName, now. cbn [fst]. rewrite Hlocal. split.
  - intros H. do 4 apply (inj (String.app _)) in H.
    apply string_app_inj_r in H. by apply (inj pretty) in H.
  - by intros ->.
Qed.

Lemma newFileName_collides_exactly_on_equal_milliseconds_witness :
  (newFileName "dataset" example_world).1 = (newFileName "dataset" later_world).1
  <-> Z.rem 1736067787005 1000 = Z.rem 1736067787006 1000.
Proof.
  apply (newFileName_collides_exactly_on_equal_milliseconds "dataset"
           example_world later_world).
  reflexivity.
Defined.

(* ------------------------------------------------------------------------- *)
(** ** How far the indices grow *)

Lemma live_count_le_bound c cfg : index_inv c cfg.1.1 -> (live_count cfg <= c)%nat.
Proof.
  intros (m & Hm & Hall & _). unfold live_count.
  rewrite <- size_dom.
  assert (Hsub : dom (indexMap_ cfg.1.1) ⊆ below m) by (rewrite <- Hall; set_solver).
  apply subseteq_size in Hsub. rewrite size_below in Hsub. lia.
Qed.

Lemma live_count_le_high_water ops cfg : (live_count cfg <= high_water ops cfg)%nat.
Proof.
  destruct ops as [|op ops]; cbn [high_water]; [lia|].
  destruct (step op cfg); lia.
Qed.

Lemma store_new_size item wl :
  (size (indexMap_ wl) <= size (indexMap_ (store_new item wl).2))%nat.
Proof.
  unfold store_new. pose proof (getFreeIndex_sets wl) as H.
  destruct (getFreeIndex wl) as [index wl1]. destruct H as (Hmap & _).
  cbn. rewrite Hmap. destruct (indexMap_ wl !! index) eqn:E.
  - by rewrite map_size_insert_Some by eauto.
  - rewrite map_size_insert_None by done. by apply le_S.
Qed.

Lemma store_new_high_water c item wl :
  index_inv c wl -> Z.of_nat c <= INT_MAX ->
  index_inv (c `max` size (indexMap_ (store_new item wl).2)) (store_new item wl).2.
Proof.
  intros Hinv Hc.
  assert (Hdisj' : disjoint_indices (store_new item wl).2).
  { apply store_new_disjoint. by destruct Hinv as (m & _ & _ & H). }
  destruct Hinv as (m & Hm & Hall & Hdisj).
  revert Hdisj'. unfold store_new, getFreeIndex.
  destruct (set_begin (freeIndexes_ wl)) as [x|] eqn:E; cbn [snd]; intros Hdisj'.
  - apply set_begin_Some in E as [Hx _].
    exists m. split; [lia|]. split; [|done]. cbn.
    rewrite dom_insert_L, <- Hall. apply set_eq. intros i.
    rewrite !elem_of_union, elem_of_difference, elem_of_singleton.
    destruct (decide (i = x)) as [->|]; naive_solver.
  - apply set_begin_None in E.
    assert (Hdom : dom (indexMap_ wl) = below m).
    { by rewrite E, union_empty_r_L in Hall. }
    assert (Hsize : size (indexMap_ wl) = m).
    { by rewrite <- size_dom, Hdom, size_below. }
    rewrite Hsize, static_cast_int_small in Hdisj' |- * by lia.
    assert (Hfresh : indexMap_ wl !! Z.of_nat m = None).
    { apply not_elem_of_dom. rewrite Hdom, elem_of_below. lia. }
    exists (S m). split.
    + cbn [indexMap_ set_indexMap]. rewrite map_size_insert_None by done. lia.
    + split; [|done]. rewrite below_S. cbn [indexMap_ freeIndexes_ set_indexMap].
      by rewrite dom_insert_L, E, union_empty_r_L, Hdom.
Qed.

Lemma load_loop_size listing acc :
  (size (indexMap_ acc.1.1.2)
   <= size (indexMap_ (foldl (fun acc e => load_entry e acc) acc listing).1.1.2))%nat.
Proof.
  apply (foldl_related
    (fun a b : Z * Worklist * SCPStatus * World =>
       (size (indexMap_ a.1.1.2) <= size (indexMap_ b.1.1.2))%nat)).
  - done.
  - intros a b c ??. lia.
  - intros [[[n wl] st] w] e _. cbn [fst snd].
    destruct (load_entry_store e n wl st w) as [->|[item ->]]; [done|].
    apply store_new_size.
Qed.

Lemma load_loop_high_water listing c n wl st w :
  let final := (foldl (fun acc e => load_entry e acc) (n, wl, st, w) listing).1.1.2 in
  index_inv c wl -> Z.of_nat (c `max` size (indexMap_ final)) <= INT_MAX ->
  index_inv (c `max` size (indexMap_ final)) final.
Proof.
  revert c n wl st w. induction listing as [|e l IH]; intros c n wl st w final Hinv Hc.
  - subst final. cbn in *. apply (index_inv_mono c); [lia | done].
  - subst final. cbn [foldl] in *.
    pose proof (load_entry_store e n wl st w) as Hstore.
    destruct (load_entry e (n, wl, st, w)) as [[[n1 wl1] st1] w1] eqn:E1.
    cbn [fst snd] in Hstore.
    pose proof (load_loop_size l (n1, wl1, st1, w1)) as Hmono.
    cbn [fst snd] in Hmono.
    set (final := (foldl _ (n1, wl1, st1, w1) l).1.1.2) in *.
    destruct Hstore as [->|[item ->]].
    + by apply IH.
    + pose proof (store_new_high_water c item wl Hinv ltac:(lia)) as H1.
      specialize (IH _ n1 _ st1 w1 H1). cbn zeta in IH. fold final in IH.
      replace ((c `max` size (indexMap_ (store_new item wl).2))
               `max` size (indexMap_ final))%nat
        with (c `max` size (indexMap_ final))%nat in IH by lia.
      by apply IH.
Qed.

Lemma step_high_water op c cfg :
  index_inv c cfg.1.1 ->
  Z.of_nat (c `max` live_count (state_of (step op cfg))) <= INT_MAX ->
  index_inv (c `max` live_count (state_of (step op cfg)))
    (state_of (step op cfg)).1.1.
Proof.
  destruct cfg as [[wl st] w]. unfold live_count. cbn [fst snd]. intros Hinv Hc.
  assert (Hsame : forall wl',
    same_indices wl wl' -> index_inv (c `max` size (indexMap_ wl')) wl').
  { intros wl' Hs. apply (index_inv_mono c); [lia|].
    by apply (same_indices_inv c wl). }
  destruct op as [ds|i|listing|order|i|i|order|order]; cbn [step] in *.
  - pose proof (add_store_new ds wl w) as [H _].
    destruct (add ds wl w) as [[i wl1] w1]. cbn [fst snd state_of] in *.
    subst wl1. apply store_new_high_water; [done | lia].
  - pose proof (remove_inv c i wl w) as H.
    destruct (remove i wl w) as [[[r wl1] w1]|]; cbn [fst snd state_of] in *.
    + apply (index_inv_mono c); [lia | by eapply H].
    + apply (index_inv_mono c); [lia | done].
  - unfold loadAllDatasets in *.
    pose proof (load_loop_high_water listing c 0 wl st w) as H. cbn zeta in H.
    destruct (foldl _ _ listing) as [[[k wl1] st1] w1].
    cbn [fst snd state_of] in *. by apply H.
  - pose proof (clear_store order wl st w) as H.
    destruct (clear order wl st w) as [cfg|cfg]; cbn [state_of] in *;
      rewrite H in *.
    + apply (index_inv_mono 0); [lia|]. apply index_inv_empty.
    + apply (index_inv_mono c); [lia | done].
  - apply Hsame, markDatasetDirty_same_indices.
  - pose proof (saveDatasetInFile_same_indices i wl st w) as H.
    destruct (saveDatasetInFile i wl st w) as [[[r wl1] st1] w1].
    by apply Hsame.
  - pose proof (save_loop_same_indices false order (true, wl, st, w)) as H.
    unfold saveAllDatasetsInFile in *.
    destruct (foldl _ _ order) as [[[r wl1] st1] w1]. by apply Hsame.
  - pose proof (save_loop_same_indices true order (true, wl, st, w)) as H.
    unfold saveDirtyDatasetsInFile in *.
    destruct (foldl _ _ order) as [[[r wl1] st1] w1]. by apply Hsame.
Qed.

Lemma run_high_water ops c cfg :
  index_inv c cfg.1.1 ->
  Z.of_nat (c `max` high_water ops cfg) <= INT_MAX ->
  index_inv (c `max` high_water ops cfg) (run ops cfg).1.1.
Proof.
  revert c cfg. induction ops as [|op ops IH]; intros c cfg Hinv Hc.
  - cbn. apply (index_inv_mono c); [lia | done].
  - cbn [run high_water] in *.
    pose proof (live_count_le_bound c cfg Hinv) as Hlive.
    pose proof (step_high_water op c cfg Hinv) as Hstep.
    destruct (step op cfg) as [c1|c1]; cbn [state_of] in Hstep.
    + pose proof (live_count_le_high_water ops c1) as Hhw.
      specialize (Hstep ltac:(lia)).
      specialize (IH _ _ Hstep ltac:(lia)).
      eapply index_inv_mono; [|exact IH]. lia.
    + specialize (Hstep ltac:(lia)).
      eapply index_inv_mono; [|exact Hstep]. lia.
Qed.

(** X15. Indices stay below the high-water mark.  After any sequence of
    [Worklist] operations on the empty store (carried out to its end or to
    the first operation that throws) during which the store never holds
    more entries than an [int] counts, every index in use and every
    index in the free list is non-negative and smaller than the largest
    number of entries the store held at once. *)
Theorem indices_stay_below_the_high_water_mark
    (ops : list WorklistOp) (st : SCPStatus) (w : World) (i : Z) :
  let final := (run ops (Worklist_empty, st, w)).1.1 in
  let most := high_water ops (Worklist_empty, st, w) in
  Z.of_nat most <= INT_MAX ->
  i ∈ dom (indexMap_ final) \/ i ∈ freeIndexes_ final ->
  0 <= i < Z.of_nat most.
Proof.
  intros final most Hmost Hi.
  pose proof (run_high_water ops 0 (Worklist_empty, st, w)
                (index_inv_empty _) Hmost) as (m & Hm & Hall & _).
  fold final in Hall.
  assert (Hin : i ∈ below m) by (rewrite <- Hall; set_solver).
  apply elem_of_below in Hin. fold most in Hm. lia.
Qed.

Lemma indices_stay_below_the_high_water_mark_witness :
  0 <= 1 < Z.of_nat
            (high_water [op_add (Some []); op_add (Some []); op_remove 0;
                         op_add (Some [])]
               (Worklist_empty, SCPStatus_default, example_world)).
Proof.
  apply (indices_stay_below_the_high_water_mark
           [op_add (Some []); op_add (Some []); op_remove 0; op_add (Some [])]
           SCPStatus_default example_world 1).
  - vm_compute. discriminate.
  - left. vm_compute. set_solver.
Defined.

(* ------------------------------------------------------------------------- *)
(** ** Failures are reported *)

Lemma log_extends_refl a : log_extends a a.
Proof. exists "". by rewrite string_app_nil_r. Qed.

Lemma log_extends_trans a b c : log_extends a b -> log_extends b c -> log_extends a c.
Proof.
  intros [l1 H1] [l2 H2]. exists (l1 +:+ l2). by rewrite H2, H1, string_app_assoc.
Qed.

Lemma log_extends_error message st w : log_extends st (error message st w).1.
Proof. eexists. reflexivity. Qed.

Lemma save_entry_log only_dirty id acc :
  log_extends acc.1.2 (save_entry only_dirty id acc).1.2.
Proof.
  destruct acc as [[[success wl] st] w].
  pose proof (save_entry_cases only_dirty id success wl st w) as H.
  cbn zeta in H.
  destruct (indexMap_ wl !! id) as [[[ds|] name dirty]|];
    try (rewrite H; apply log_extends_refl).
  destruct (only_dirty && negb dirty); [rewrite H; apply log_extends_refl|].
  destruct (bool_decide _); rewrite H;
    [apply log_extends_error | apply log_extends_refl].
Qed.

Lemma save_loop_log only_dirty order acc :
  log_extends acc.1.2
    (foldl (fun acc id => save_entry only_dirty id acc) acc order).1.2.
Proof.
  apply (foldl_related
    (fun a b : bool * Worklist * SCPStatus * World => log_extends a.1.2 b.1.2)).
  - intros a. apply log_extends_refl.
  - intros a b c. apply log_extends_trans.
  - intros a id _. apply save_entry_log.
Qed.

(** A saving loop reads the clock it is given, and only forwards. *)
Lemma save_entry_clock only_dirty id acc :
  w_clock (save_entry only_dirty id acc).2 = w_clock acc.2
  /\ (w_ticks acc.2 <= w_ticks (save_entry only_dirty id acc).2)%nat.
Proof.
  destruct acc as [[[success wl] st] w].
  pose proof (save_entry_cases only_dirty id success wl st w) as H.
  cbn zeta in H.
  destruct (indexMap_ wl !! id) as [[[ds|] name dirty]|];
    try (by rewrite H).
  destruct (only_dirty && negb dirty); [by rewrite H|].
  destruct (bool_decide _); rewrite H; cbn; split; (done || lia).
Qed.

Lemma save_loop_clock only_dirty order acc :
  w_clock (foldl (fun acc id => save_entry only_dirty id acc) acc order).2
  = w_clock acc.2
  /\ (w_ticks acc.2
      <= w_ticks (foldl (fun acc id => save_entry only_dirty id acc) acc order).2)%nat.
Proof.
  apply (foldl_related
    (fun a b : bool * Worklist * SCPStatus * World =>
       w_clock b.2 = w_clock a.2 /\ (w_ticks a.2 <= w_ticks b.2)%nat)).
  - done.
  - intros a b c [H1 H2] [H3 H4]. split; [congruence | lia].
  - intros a id _. apply save_entry_clock.
Qed.

(** A saving loop that visits the key of an entry whose file cannot be
    written appends the line of [SCPStatus::error] for that file, with the
    time of a clock reading taken during the loop. *)
Lemma save_loop_reports only_dirty order wl st w i ds name dirty :
  NoDup order -> i ∈ order ->
  indexMap_ wl !! i = Some (mk_Item (Some ds) name dirty) ->
  only_dirty && negb dirty = false ->
  backing_path wl (mk_Item (Some ds) name dirty) ∈ w_locked w ->
  let res :=
    foldl (fun acc id => save_entry only_dirty id acc) (true, wl, st, w) order in
  exists (before after : string) (n : nat),
    (w_ticks w <= n < w_ticks res.2)%nat
    /\ lastErrors_ res.1.2
       = before +:+ error_line (w_clock w n) ("Failed to save: " +:+ name)
         +:+ after.
Proof.
  intros Hnd Hin Hi Hskip Hlocked. cbn zeta.
  apply list_elem_of_split in Hin as (l1 & l2 & ->).
  apply NoDup_app in Hnd as (_ & Hnot & _).
  assert (Hi1 : i ∉ l1).
  { intros Hmem. apply (Hnot i Hmem). by left. }
  rewrite foldl_app. cbn [foldl].
  pose proof (save_loop_other only_dirty l1 i (true, wl, st, w) Hi1) as Hsame.
  pose proof (save_loop_frame only_dirty l1 (true, wl, st, w)) as (Hf & Hl & _).
  pose proof (save_loop_clock only_dirty l1 (true, wl, st, w)) as (Hc1 & Ht1).
  destruct (foldl (fun acc id => save_entry only_dirty id acc) (true, wl, st, w) l1)
    as [[[r1 wl1] st1] w1].
  cbn [fst snd] in Hsame, Hf, Hl, Hc1, Ht1.
  pose proof (save_entry_cases only_dirty i r1 wl1 st1 w1) as Hcase.
  cbn zeta in Hcase. rewrite Hsame, Hi, Hskip in Hcase.
  unfold backing_path in Hcase, Hlocked. rewrite Hf, Hl in Hcase.
  rewrite bool_decide_eq_true_2 in Hcase by done. rewrite Hcase.
  match goal with |- context [foldl ?f ?a l2] =>
    pose proof (save_loop_log only_dirty l2 a) as [after Hafter];
    pose proof (save_loop_clock only_dirty l2 a) as (_ & Ht2);
    destruct (foldl f a l2) as [[[r2 wl2] st2] w2]
  end.
  cbn [fst snd] in *. exists (lastErrors_ st1), after, (w_ticks w1).
  split; [cbn in Ht2; lia|].
  rewrite Hafter. cbn. rewrite Hc1. by rewrite string_app_assoc.
Qed.

(** The line [SCPStatus::error] appends, spelled out. *)
Lemma error_line_text (t : time_point) (message rest : string) :
  error_line t message +:+ rest
  = String "010" (String "009" "")
    +:+ ((if bool_decide (0 <= tm_hour (tp_local t) < 10)
          then "0" +:+ pretty (tm_hour (tp_local t))
          else pretty (tm_hour (tp_local t)))
         +:+ ":"
         +:+ (if bool_decide (0 <= tm_min (tp_local t) < 10)
              then "0" +:+ pretty (tm_min (tp_local t))
              else pretty (tm_min (tp_local t)))
         +:+ ":"
         +:+ (if bool_decide (0 <= tm_sec (tp_local t) < 10)
              then "0" +:+ pretty (tm_sec (tp_local t))
              else pretty (tm_sec (tp_local t))))
    +:+ " Error: " +:+ message +:+ rest.
Proof.
  unfold error_line, LF, TAB, put_time_HMS, pad2, show_int.
  rewrite !string_app_assoc. reflexivity.
Qed.

(** X16. An entry whose file cannot be written is reported by the batch saves:
    after [saveAllDatasets], and after [saveDirtyDatasets] when the entry
    is dirty, the result is false and the error log holds a line made of a
    new line, a tab, the local time (HH:MM:SS) of a clock reading taken
    during the call, and the text " Error: Failed to save: " followed by
    the file name of the entry. *)
Theorem batch_saves_report_unwritable_file
    (order : list Z) (i : Z) (item : Item) (ds : DcmDataset)
    (s : DICOMWorklistSCP) (w : World) :
  visits (indexMap_ (datasets_ s)) order ->
  entry s i = Some item -> dataset_ item = Some ds ->
  backing_path (datasets_ s) item ∈ w_locked w ->
  let two := fun d : Z =>
    if bool_decide (0 <= d < 10) then "0" +:+ pretty d else pretty d in
  let reported := fun (res : bool * DICOMWorklistSCP * World) =>
    exists (before after : string) (n : nat),
      (w_ticks w <= n < w_ticks res.2)%nat
      /\ lastErrors_ (serverStatus_ res.1.2)
         = before
           +:+ String "010" (String "009" "")
           +:+ (two (tm_hour (tp_local (w_clock w n))) +:+ ":"
                +:+ two (tm_min (tp_local (w_clock w n))) +:+ ":"
                +:+ two (tm_sec (tp_local (w_clock w n))))
           +:+ " Error: " +:+ ("Failed to save: " +:+ fileName_ item)
           +:+ after in
  ((saveAllDatasets order s w).1.1 = false
   /\ reported (saveAllDatasets order s w))
  /\ (dirty_ item = true ->
      (saveDirtyDatasets order s w).1.1 = false
      /\ reported (saveDirtyDatasets order s w)).
Proof.
  intros Hvisits Hi Hds Hlocked. cbn zeta. unfold entry in Hi.
  pose proof (visits_NoDup _ _ Hvisits) as Hnd.
  assert (Hin : i ∈ order).
  { apply (proj2 (visits_elem _ _ i Hvisits)). by eexists. }
  destruct item as [ds' name dirty]. cbn in Hds. subst ds'. cbn [fileName_ dirty_].
  assert (Hgen : forall only_dirty st,
    only_dirty && negb dirty = false ->
    let res := foldl (fun acc id => save_entry only_dirty id acc)
                 (true, datasets_ s, st, w) order in
    res.1.1.1 = false
    /\ exists (before after : string) (n : nat),
         (w_ticks w <= n < w_ticks res.2)%nat
         /\ lastErrors_ res.1.2
            = before +:+ error_line (w_clock w n) ("Failed to save: " +:+ name)
              +:+ after).
  { intros only_dirty st Hskip res. split.
    - pose proof (save_loop_visit only_dirty order (true, datasets_ s, st, w)
                    i ds name dirty Hnd Hin Hi Hskip) as (_ & _ & Hbad).
      by destruct (Hbad Hlocked).
    - by apply (save_loop_reports only_dirty order (datasets_ s) st w i ds
                  name dirty). }
  split.
  - rewrite saveAllDatasets_eq. unfold saveAllDatasetsInFile.
    specialize (Hgen false (inside "Saving all datasets" s) eq_refl).
    cbn zeta in Hgen.
    destruct (foldl _ _ order) as [[[r wl1] st1] w1].
    destruct Hgen as (Hr & before & after & n & Hn & Hlog).
    split; [exact Hr|]. exists before, after, n. split; [exact Hn|].
    cbn [fst snd leave serverStatus_ lastErrors_ set_statusText] in *.
    by rewrite Hlog, error_line_text.
  - intros ->. rewrite saveDirtyDatasets_eq. unfold saveDirtyDatasetsInFile.
    specialize (Hgen true (inside "Saving dirty datasets" s) eq_refl).
    cbn zeta in Hgen.
    destruct (foldl _ _ order) as [[[r wl1] st1] w1].
    destruct Hgen as (Hr & before & after & n & Hn & Hlog).
    split; [exact Hr|]. exists before, after, n. split; [exact Hn|].
    cbn [fst snd leave serverStatus_ lastErrors_ set_statusText] in *.
    by rewrite Hlog, error_line_text.
Qed.

Lemma batch_saves_report_unwritable_file_witness :
  (saveAllDatasets [0] one_entry_server locked_world).1.1 = false
  /\ (saveDirtyDatasets [0] one_entry_server locked_world).1.1 = false.
Proof.
  pose proof (batch_saves_report_unwritable_file [0] 0
                (mk_Item (Some []) shared_name true) []
                one_entry_server locked_world
                ltac:(vm_compute; reflexivity)
                ltac:(vm_compute; reflexivity)
                eq_refl
                ltac:(vm_compute; set_solver)) as [[H1 _] H2].
  split; [exact H1 | exact (proj1 (H2 eq_refl))].
Defined.

(* ------------------------------------------------------------------------- *)
(** ** Removals that throw *)

(** X17. A backing file that is on disk and cannot be deleted makes its
    removal throw.  [deleteDataset] on that entry is left by the exception
    with the server and the world exactly as they were: the entry is kept
    and its index is not freed.  [clearAllDatasets] in an order that visits
    the entry does not return either: the exception leaves every key in the
    map, and the free list, the status (nothing is logged) and the file as
    they were; when the entry is the first one visited, the server and the
    world are exactly as they were. *)
Theorem undeletable_file_makes_removal_throw
    (i : Z) (item : Item) (order : list Z) (s : DICOMWorklistSCP) (w : World) :
  entry s i = Some item ->
  let path := backing_path (datasets_ s) item in
  is_Some (w_fs w !! path) -> path ∈ w_locked w ->
  deleteDataset i s w = FilesystemError s w
  /\ (i ∈ order ->
      exists s' w',
        clearAllDatasets order s w = FilesystemError s' w'
        /\ dom (indexMap_ (datasets_ s')) = dom (indexMap_ (datasets_ s))
        /\ freeIndexes_ (datasets_ s') = freeIndexes_ (datasets_ s)
        /\ serverStatus_ s' = serverStatus_ s
        /\ w_fs w' !! path = w_fs w !! path)
  /\ (forall rest, clearAllDatasets (i :: rest) s w = FilesystemError s w).
Proof.
  intros Hi path Hex Hlocked. unfold entry in Hi. split; [|split].
  - rewrite deleteDataset_eq, remove_cases, Hi. fold path.
    by rewrite bool_decide_eq_true_2.
  - intros Hin. rewrite clearAllDatasets_eq. unfold clear.
    destruct (clear_loop_throws (datasets_ s) order
                (inside "Clearing the list" s) w i item Hin Hi Hex Hlocked)
      as (w' & -> & _ & Hfs).
    eexists _, w'. split; [reflexivity|].
    cbn [leave datasets_ serverStatus_]. repeat split; try done.
    unfold inside. by destruct (serverStatus_ s).
  - intros rest. rewrite clearAllDatasets_eq. unfold clear.
    cbn [clear_loop]. rewrite clear_entry_cases, Hi. fold path.
    rewrite bool_decide_eq_true_2 by done.
    unfold leave, inside. by destruct s as [tf [run rc txt errs] wl].
Qed.

Lemma undeletable_file_makes_removal_throw_witness :
  deleteDataset 0 one_entry_server locked_world
  = FilesystemError one_entry_server locked_world
  /\ clearAllDatasets [0] one_entry_server locked_world
     = FilesystemError one_entry_server locked_world.
Proof.
  destruct (undeletable_file_makes_removal_throw 0
              (mk_Item (Some []) shared_name true) [0]
              one_entry_server locked_world
              ltac:(vm_compute; reflexivity)
              ltac:(vm_compute; eauto)
              ltac:(vm_compute; set_solver)) as (H1 & _ & H3).
  split; [exact H1 | exact (H3 [])].
Defined.
